(** * Strong (Dirichlet) boundary conditions: firedrake/bcs.py

    A shallow embedding of [BCBase], [DirichletBC], [homogenize],
    [EquationBC] and [EquationBCSplit].  Python objects become records,
    attribute mutation becomes explicit state passing, exceptions become
    the [Raise] branch of [result].  What bcs.py calls in other libraries
    (finat, ufl, pyop2) or in other modules of firedrake is either a field
    of [FieldCollaborators] / [FormCollaborators] or a small model written
    from the interface the specification gives for it. *)

From Stdlib Require Import ZArith Lia.
From stdpp Require Import base decidable option list strings.

Local Open Scope string_scope.
Local Open Scope list_scope.

(** ** Exceptions *)

(** The Python exception classes raised in bcs.py or by the collaborators
    it calls. *)
Inductive PyExc : Set :=
| NotImplementedError
| ValueError
| TypeError
| RuntimeError
| IndexError
| AttributeError
| RecursionError
| MapValueError.

Inductive result (A : Type) : Type :=
| Ok (a : A)
| Raise (e : PyExc).

Arguments Ok {A} a.
Arguments Raise {A} e.

Definition result_bind {A B} (r : result A) (k : A -> result B) : result B :=
  match r with
  | Ok a => k a
  | Raise e => Raise e
  end.

Notation "'let?' x ':=' r 'in' k" := (result_bind r (fun x => k))
  (at level 10, x name, r at level 100, k at level 200, only parsing).

(** ** Function spaces *)

(** The classes of [finat] that bcs.py tests with [isinstance]; any other
    element class is [OtherElement]. *)
Inductive FinatElement : Set :=
| Argyris
| Morley
| Bell
| Hermite
| OtherElement (name : string).

#[global] Instance FinatElement_eq_dec : EqDecision FinatElement.
Proof. solve_decision. Defined.

(** What bcs.py reads from a [FunctionSpace]: [finat_element],
    [mesh().topological_dimension()], [extruded], [index], [component],
    [parent], and [node_set], the set object of its nodes, kept as the
    number that names the set: two spaces have the same [node_set] when
    the numbers are equal. *)
#[warnings="-register-all"]
Inductive FunctionSpace : Type := mkFunctionSpace {
  fs_name : string;
  finat_element : FinatElement;
  topological_dimension : nat;
  extruded : bool;
  index : option nat;
  component : option nat;
  node_set : nat;
  parent : option FunctionSpace }.

Fixpoint FunctionSpace_eq_dec_aux (V W : FunctionSpace) {struct V}
    : {V = W} + {V <> W}.
Proof.
  rename FunctionSpace_eq_dec_aux into IH.
  destruct V as [n e d x i c s p], W as [n' e' d' x' i' c' s' p'].
  destruct (decide (n = n')); [|right; congruence].
  destruct (decide (e = e')); [|right; congruence].
  destruct (decide (d = d')); [|right; congruence].
  destruct (decide (x = x')); [|right; congruence].
  destruct (decide (i = i')); [|right; congruence].
  destruct (decide (c = c')); [|right; congruence].
  destruct (decide (s = s')); [|right; congruence].
  destruct p as [p|], p' as [p'|]; try (right; congruence).
  - destruct (IH p p'); [left; congruence | right; congruence].
  - left; congruence.
Defined.

#[global] Instance FunctionSpace_eq_dec : EqDecision FunctionSpace :=
  FunctionSpace_eq_dec_aux.

(** [sub_domain]: an integer id, a tuple of ids, or one of the strings
    on_boundary, top, bottom. *)
Inductive SubDomain : Type :=
| SDInt (i : Z)
| SDTuple (ids : list Z)
| SDStr (s : string).

#[global] Instance SubDomain_eq_dec : EqDecision SubDomain.
Proof. solve_decision. Defined.

(** [isinstance(elt, classes)] for the leaf classes of [FinatElement]. *)
Definition isinstance (elt : FinatElement) (classes : list FinatElement) : bool :=
  bool_decide (elt ∈ classes).

(** The tuple in the first [isinstance] test of [BCBase.__init__]. *)
Definition zany_elements : list FinatElement := [Argyris; Morley; Bell].

(** ** BCBase *)

(** Modelled from the spec: [op2.Subset(superset, indices)] of pyop2, a
    restriction object over the node indices; kept as the pair it is
    built from. *)
Record Subset := mkSubset {
  superset : nat;
  subset_indices : list nat }.

(** [_cache_key]: [(domain_args + (method,) + tuple(indexing), tuple(components))]. *)
Record CacheKey := mkCacheKey {
  ck_domain_args : SubDomain;
  ck_method : string;
  ck_indexing : list nat;
  ck_components : list nat }.

Record BCBase := mkBCBase {
  _function_space : FunctionSpace;
  sub_domain : SubDomain;
  method : string;
  _indices : list nat;
  _cache_key : CacheKey;
  (* the two [utils.cached_property] slots; [None] until first access *)
  nodes_cached : option (list nat);
  node_set_cached : option Subset }.

(** Modelled from the spec: [pyop2.utils.as_tuple] on a sub-domain that
    is not a string (the sub-domain as a tuple). *)
Definition as_tuple (sd : SubDomain) : SubDomain :=
  match sd with
  | SDInt i => SDTuple [i]
  | other => other
  end.

(** [BCBase.domain_args] (the 1-tuple is left implicit). *)
Definition domain_args (sd : SubDomain) : SubDomain :=
  match sd with
  | SDStr s => SDStr s
  | other => as_tuple other
  end.

(** The [while True] loop of [BCBase.__init__]: from [fs] up to the root,
    append [index] to [indexing] and [indices], [component] to
    [components] and [indices].  Returns
    [(components, indexing, indices)]. *)
Fixpoint walk_parents (fs : FunctionSpace)
    (components indexing indices : list nat) : list nat * list nat * list nat :=
  match fs with
  | mkFunctionSpace _ _ _ _ idx comp _ par =>
      let '(indexing, indices) :=
        match idx with
        | Some i => (indexing ++ [i], indices ++ [i])
        | None => (indexing, indices)
        end in
      let '(components, indices) :=
        match comp with
        | Some c => (components ++ [c], indices ++ [c])
        | None => (components, indices)
        end in
      match par with
      | Some p => walk_parents p components indexing indices
      | None => (components, indexing, indices)
      end
  end.

(** The condition of the first [if] of [BCBase.__init__]. *)
Definition is_zany (V : FunctionSpace) : bool :=
  isinstance (finat_element V) zany_elements
  || (isinstance (finat_element V) [Hermite] && (1 <? topological_dimension V)%nat).

(** [BCBase.__init__(self, V, sub_domain, method)]. *)
Definition BCBase_init (V : FunctionSpace) (sd : SubDomain) (meth : string)
    : result BCBase :=
  if is_zany V then Raise NotImplementedError
  else if bool_decide (meth ∉ ["topological"; "geometric"]) then Raise ValueError
  else if extruded V && bool_decide (component V <> None) then Raise NotImplementedError
  else
    let '(components, indexing, indices) := walk_parents V [] [] [] in
    Ok {| _function_space := V;
          sub_domain := sd;
          method := meth;
          _indices := rev indices;
          _cache_key := mkCacheKey (domain_args sd) meth indexing components;
          nodes_cached := None;
          node_set_cached := None |}.

(** [bcnodes[::2]]. *)
Fixpoint every_second {A} (l : list A) : list A :=
  match l with
  | [] => []
  | x :: rest =>
      x :: match rest with
           | [] => []
           | _ :: rest' => every_second rest'
           end
  end.

(** ** Fields, expressions and the collaborator interface *)

(** Object references into the stores of [World]. *)
Definition loc := nat.

(** Modelled from the spec: the data behind a field (firedrake's
    function.py and pyop2's Dat are not part of this file's source): one
    value per node, or one sub-field per sub-index / component, of which
    [Function.sub(i)] is a view. *)
#[warnings="-register-all"]
Inductive Dat (val : Type) : Type :=
| DLeaf (vals : list val)
| DNode (subs : list (Dat val)).

Arguments DLeaf {val} vals.
Arguments DNode {val} subs.

(** Modelled from the spec: a [function.Function], by its function space
    and the part of a stored [Dat] it views.  Views of one [fn_dat] alias
    each other. *)
Record Function := mkFunction {
  fn_space : FunctionSpace;
  fn_dat : loc;
  fn_path : list nat }.

(** Modelled from the spec: an [expression.Expression], by the version
    counter [_state] (advanced whenever a user-defined variable of the
    expression is assigned) and what the expression currently evaluates. *)
Record Expression (code : Type) := mkExpression {
  _state : nat;
  expr_code : code }.

Arguments mkExpression {code} _ _.
Arguments _state {code} _.
Arguments expr_code {code} _.

(** What [interpolate] and [project] are given. *)
Inductive InterpSource (code term : Type) : Type :=
| SrcExpression (e : Expression code)
| SrcUfl (t : term).

Arguments SrcExpression {code term} e.
Arguments SrcUfl {code term} t.

(** The services bcs.py calls but does not define. *)
Class FieldCollaborators := {
  (* nodal values and the pointwise [u - g] of [Function.assign] *)
  val : Type;
  val_sub : val -> val -> val;
  val_of_int : Z -> val;
  (* UFL expressions other than a Function or a literal int *)
  ufl_term : Type;
  (* [has_type(as_ufl(g), SpatialCoordinate)] *)
  has_SpatialCoordinate : ufl_term -> bool;
  (* value of a coordinate-free UFL expression at (component path, node) *)
  ufl_eval : list (Dat val) -> ufl_term -> list nat -> nat -> option val;
  (* the body of an Expression *)
  code : Type;
  (* objects that [as_ufl] rejects with UFLException *)
  py_object : Type;
  (* [expression.to_expression]; [None] is its ValueError *)
  to_expression : py_object -> option (Expression code);
  (* [Function(V).interpolate(g)]; [None] is its NotImplementedError *)
  interpolate : list (Dat val) -> FunctionSpace -> InterpSource code ufl_term
                -> option (Dat val);
  (* [projection.project(g, V)] *)
  project : list (Dat val) -> FunctionSpace -> InterpSource code ufl_term -> Dat val;
  (* [V.boundary_nodes(sub_domain, method)] *)
  boundary_nodes : FunctionSpace -> SubDomain -> string -> list nat;
  (* the function space of [f.sub(i)] for [f] on [V] *)
  sub_space : FunctionSpace -> nat -> FunctionSpace }.

(** A state and exception monad: an exception keeps the state reached. *)
Definition M (S A : Type) : Type := S -> result A * S.

Definition ret {S A} (a : A) : M S A := fun s => (Ok a, s).

Definition raise {S A} (e : PyExc) : M S A := fun s => (Raise e, s).

Definition bind {S A B} (m : M S A) (k : A -> M S B) : M S B :=
  fun s =>
    match m s with
    | (Ok a, s') => k a s'
    | (Raise e, s') => (Raise e, s')
    end.

Notation "'let!' x ':=' m 'in' k" := (bind m (fun x => k))
  (at level 10, x name, m at level 100, k at level 200, only parsing).

Definition get {S} : M S S := fun s => (Ok s, s).

Definition lift_result {S A} (r : result A) : M S A := fun s => (r, s).

(** [f] over the children of a node, child [j] with its index [i + j];
    the first exception ends it. *)
Definition children_result {A B} (f : nat -> A -> result B)
    : nat -> list A -> result (list B) :=
  fix children (i : nat) (cs : list A) : result (list B) :=
    match cs with
    | [] => Ok []
    | c :: cs' =>
        let? c' := f i c in
        let? rest := children (S i) cs' in
        Ok (c' :: rest)
    end.

(** [a] without its prefix [p]; [None] when [p] is not a prefix of [a]. *)
Fixpoint strip_prefix (p a : list nat) : option (list nat) :=
  match p, a with
  | [], _ => Some a
  | i :: p', j :: a' => if bool_decide (i = j) then strip_prefix p' a' else None
  | _ :: _, [] => None
  end.

Section Fields.
Context `{FC : FieldCollaborators}.

(** *** BCBase.nodes and BCBase.node_set *)

(** [BCBase.nodes], a [utils.cached_property]: computed on first access,
    stored on the object, returned from the store afterwards. *)
Definition BCBase_nodes (b : BCBase) : list nat * BCBase :=
  match nodes_cached b with
  | Some ns => (ns, b)
  | None =>
      let V := _function_space b in
      let bcnodes := boundary_nodes V (sub_domain b) (method b) in
      let bcnodes :=
        if isinstance (finat_element V) [Hermite]
           && (topological_dimension V =? 1)%nat
        then every_second bcnodes else bcnodes in
      (bcnodes,
       {| _function_space := _function_space b; sub_domain := sub_domain b;
          method := method b; _indices := _indices b;
          _cache_key := _cache_key b;
          nodes_cached := Some bcnodes;
          node_set_cached := node_set_cached b |})
  end.

(** [BCBase.node_set], a [utils.cached_property]. *)
Definition BCBase_node_set (b : BCBase) : Subset * BCBase :=
  match node_set_cached b with
  | Some s => (s, b)
  | None =>
      let '(ns, b) := BCBase_nodes b in
      let s := mkSubset (node_set (_function_space b)) ns in
      (s,
       {| _function_space := _function_space b; sub_domain := sub_domain b;
          method := method b; _indices := _indices b;
          _cache_key := _cache_key b;
          nodes_cached := nodes_cached b;
          node_set_cached := Some s |})
  end.

(** *** Values *)

(** What [as_ufl] accepts besides a Function. *)
Inductive UflValue : Type :=
| PyInt (z : Z)
| UflTerm (t : ufl_term).

(** The boundary value [g] a caller may pass, by the tests the setter
    makes on it. *)
Inductive Value : Type :=
| VFunction (f : Function)
| VExpression (e : loc)
| VUfl (c : UflValue)
| VPyObject (o : py_object).

Record DirichletBC := mkDirichletBC {
  base : BCBase;
  _original_val : Value;
  _function_arg : Value;
  _original_arg : Value;
  _currently_zeroed : bool;
  (* [None]: the attribute has never been assigned *)
  _expression_state : option nat }.

(** Everything outside the boundary condition object: field data, the
    Expression objects (mutated by their owner between calls), and for
    each matrix the boundary conditions recorded by [add_bc]. *)
Record World := mkWorld {
  dats : list (Dat val);
  expressions : loc -> Expression code;
  matrices : list (list DirichletBC) }.

Record State := mkState {
  self : DirichletBC;
  world : World }.

Definition get_self : M State DirichletBC := fun s => (Ok (self s), s).

Definition get_world : M State World := fun s => (Ok (world s), s).

Definition modify_self (f : DirichletBC -> DirichletBC) : M State unit :=
  fun s => (Ok tt, mkState (f (self s)) (world s)).

Definition put_world (w : World) : M State unit :=
  fun s => (Ok tt, mkState (self s) w).

Definition set_base (b : BCBase) (bc : DirichletBC) : DirichletBC :=
  mkDirichletBC b (_original_val bc) (_function_arg bc) (_original_arg bc)
    (_currently_zeroed bc) (_expression_state bc).

Definition set_original_val (v : Value) (bc : DirichletBC) : DirichletBC :=
  mkDirichletBC (base bc) v (_function_arg bc) (_original_arg bc)
    (_currently_zeroed bc) (_expression_state bc).

Definition set_function_arg (v : Value) (bc : DirichletBC) : DirichletBC :=
  mkDirichletBC (base bc) (_original_val bc) v (_original_arg bc)
    (_currently_zeroed bc) (_expression_state bc).

Definition set_original_arg (v : Value) (bc : DirichletBC) : DirichletBC :=
  mkDirichletBC (base bc) (_original_val bc) (_function_arg bc) v
    (_currently_zeroed bc) (_expression_state bc).

Definition set_currently_zeroed (z : bool) (bc : DirichletBC) : DirichletBC :=
  mkDirichletBC (base bc) (_original_val bc) (_function_arg bc) (_original_arg bc)
    z (_expression_state bc).

Definition set_expression_state (st : nat) (bc : DirichletBC) : DirichletBC :=
  mkDirichletBC (base bc) (_original_val bc) (_function_arg bc) (_original_arg bc)
    (_currently_zeroed bc) (Some st).

(** [BCBase.function_space]. *)
Definition function_space (bc : DirichletBC) : FunctionSpace :=
  _function_space (base bc).

(** *** The function_arg property *)

(** [g] after the conversion step of the setter. *)
Inductive Candidate : Type :=
| CFunction (f : Function)
| CExpression (e : Expression code)
| CUfl (c : UflValue).

(** The nodal data of [function.Function(V).interpolate(g)], or of
    [projection.project(g, V)] when interpolation raises
    NotImplementedError. *)
Definition resolution (ds : list (Dat val)) (V : FunctionSpace)
    (src : InterpSource code ufl_term) : Dat val :=
  match interpolate ds V src with
  | Some d => d
  | None => project ds V src
  end.

(** The [try] / [except NotImplementedError] of the setter: the result
    is a new Function on the space of the boundary condition, with data
    of its own. *)
Definition resolve_onto (src : InterpSource code ufl_term) : M State Value :=
  let! bc := get_self in
  let! w := get_world in
  let V := function_space bc in
  let d := resolution (dats w) V src in
  let! _ := put_world (mkWorld (dats w ++ [d]) (expressions w) (matrices w)) in
  ret (VFunction (mkFunction V (length (dats w)) [])).

(** [DirichletBC.function_arg.setter]. *)
Definition function_arg_setter (g : Value) : M State unit :=
  let! bc := get_self in
  let! w := get_world in
  (* if isinstance(g, Function) and g.function_space() != self._function_space *)
  let! _ :=
    match g with
    | VFunction f =>
        if bool_decide (fn_space f <> function_space bc)
        then raise RuntimeError else ret tt
    | _ => ret tt
    end in
  (* if not isinstance(g, Expression): as_ufl(g), else to_expression(g) *)
  let! c :=
    match g with
    | VFunction f => ret (CFunction f)
    | VExpression e => ret (CExpression (expressions w e))
    | VUfl c => ret (CUfl c)
    | VPyObject o =>
        match to_expression o with
        | Some e => ret (CExpression e)
        | None => raise ValueError
        end
    end in
  (* if isinstance(g, Expression) or has_type(as_ufl(g), SpatialCoordinate) *)
  let! g' :=
    match c with
    | CExpression e =>
        let! _ := modify_self (set_expression_state (_state e)) in
        resolve_onto (SrcExpression e)
    | CUfl (UflTerm t) =>
        if has_SpatialCoordinate t then resolve_onto (SrcUfl t)
        else ret (VUfl (UflTerm t))
    | CUfl (PyInt z) => ret (VUfl (PyInt z))
    | CFunction f => ret (VFunction f)
    end in
  (* self._function_arg = g; self._currently_zeroed = False *)
  let! _ := modify_self (set_function_arg g') in
  modify_self (set_currently_zeroed false).

(** [DirichletBC.function_arg] (the getter).  The getter reads
    [self.function_arg] inside itself; [depth] is the number of Python
    frames still available, and running out of them is RecursionError. *)
Fixpoint function_arg_getter (depth : nat) : M State Value :=
  match depth with
  | 0 => raise RecursionError
  | S depth' =>
      let! bc := get_self in
      let! w := get_world in
      let! _ :=
        match _original_val bc with
        | VExpression e =>
            if negb (_currently_zeroed bc) then
              match _expression_state bc with
              | None => raise AttributeError
              | Some st =>
                  if bool_decide (_state (expressions w e) <> st) then
                    (* self.function_arg = self._original_val *)
                    let! _ := function_arg_setter (_original_val bc) in
                    (* self._original_arg = self.function_arg *)
                    let! v := function_arg_getter depth' in
                    modify_self (set_original_arg v)
                  else ret tt
              end
            else ret tt
        | _ => ret tt
        end in
      let! bc' := get_self in
      ret (_function_arg bc')
  end.

(** Python's default [sys.getrecursionlimit()]. *)
Definition recursion_limit : nat := 1000.

Definition function_arg : M State Value := function_arg_getter recursion_limit.

(** *** DirichletBC methods *)

(** [DirichletBC.__init__(self, V, g, sub_domain, method)].  The
    attributes [_function_arg], [_original_arg] and [_currently_zeroed]
    do not exist before the setter and the two assignments after it
    create them; the record needs some content for them until then. *)
Definition DirichletBC_init (V : FunctionSpace) (g : Value) (sd : SubDomain)
    (meth : string) : M World DirichletBC :=
  fun w =>
    (* super().__init__(V, sub_domain, method="topological") *)
    match BCBase_init V sd "topological" with
    | Raise e => (Raise e, w)
    | Ok b =>
        (* self._original_val = g *)
        let self0 := mkDirichletBC b g g g false None in
        let body :=
          (* self.function_arg = g *)
          let! _ := function_arg_setter g in
          (* self._original_arg = self.function_arg *)
          let! v := function_arg in
          let! _ := modify_self (set_original_arg v) in
          (* self._currently_zeroed = False *)
          modify_self (set_currently_zeroed false) in
        match body (mkState self0 w) with
        | (Ok _, s) => (Ok (self s), world s)
        | (Raise e, s) => (Raise e, world s)
        end
    end.

(** [DirichletBC.homogenize]. *)
Definition DirichletBC_homogenize : M State unit :=
  let! _ := function_arg_setter (VUfl (PyInt 0)) in
  modify_self (set_currently_zeroed true).

(** [DirichletBC.restore]. *)
Definition DirichletBC_restore : M State unit :=
  let! _ := modify_self (fun bc => set_function_arg (_original_arg bc) bc) in
  modify_self (set_currently_zeroed false).

(** [DirichletBC.set_value]. *)
Definition DirichletBC_set_value (v : Value) : M State unit :=
  (* self.function_arg = val *)
  let! _ := function_arg_setter v in
  (* self._original_arg = self.function_arg *)
  let! a := function_arg in
  let! _ := modify_self (set_original_arg a) in
  (* self._original_val = val *)
  modify_self (set_original_val v).

(** *** Field operations (Function.sub, Function.assign, Matrix.add_bc) *)

(** The part of [d] reached by the sub-indices [p]. *)
Fixpoint dat_sub (d : Dat val) (p : list nat) : option (Dat val) :=
  match p with
  | [] => Some d
  | i :: p' =>
      match d with
      | DNode ds =>
          match ds !! i with
          | Some c => dat_sub c p'
          | None => None
          end
      | DLeaf _ => None
      end
  end.

(** The value stored for node [n] in the leaf at [p]. *)
Definition dat_entry (d : Dat val) (p : list nat) (n : nat) : option val :=
  match dat_sub d p with
  | Some (DLeaf vs) => vs !! n
  | _ => None
  end.

(** The entry of the stored field [l] at (component path, node). *)
Definition entry (ds : list (Dat val)) (l : loc) (p : list nat) (n : nat)
    : option val :=
  match ds !! l with
  | Some d => dat_entry d p n
  | None => None
  end.

(** Modelled from the spec: [Function.sub(i)], an aliased view restricted
    to sub-index or component [i].  A field without sub-fields is its own
    sub-field 0 (the tuple of its components is the field itself), and
    IndexError is raised when there is no sub-field [i]. *)
Definition Function_sub (ds : list (Dat val)) (f : Function) (i : nat)
    : result Function :=
  match ds !! fn_dat f with
  | Some d =>
      match dat_sub d (fn_path f) with
      | Some (DNode cs) =>
          match cs !! i with
          | Some _ =>
              Ok (mkFunction (sub_space (fn_space f) i) (fn_dat f)
                    (fn_path f ++ [i]))
          | None => Raise IndexError
          end
      | Some (DLeaf _) => if bool_decide (i = 0) then Ok f else Raise IndexError
      | None => Raise IndexError
      end
  | None => Raise IndexError
  end.

(** The right-hand side of [r.assign(...)] in [apply]: [self.function_arg]
    or [u - self.function_arg]. *)
Inductive AssignExpr : Type :=
| AValue (g : Value)
| ADiff (u : Function) (g : Value).

(** The value of [g] at (component path [q] below the view, node [n]). *)
Definition eval_value (ds : list (Dat val)) (g : Value) (q : list nat) (n : nat)
    : option val :=
  match g with
  | VFunction f => entry ds (fn_dat f) (fn_path f ++ q) n
  | VUfl (PyInt z) => Some (val_of_int z)
  | VUfl (UflTerm t) => ufl_eval ds t q n
  | VExpression _ => None
  | VPyObject _ => None
  end.

Definition eval_assign (ds : list (Dat val)) (e : AssignExpr) (q : list nat)
    (n : nat) : option val :=
  match e with
  | AValue g => eval_value ds g q n
  | ADiff u g =>
      match entry ds (fn_dat u) (fn_path u ++ q) n, eval_value ds g q n with
      | Some a, Some b => Some (val_sub a b)
      | _, _ => None
      end
  end.

(** Modelled from the spec: [Function.assign(value, subset)] on one
    array of nodal values, node by node over the subset.  A node outside
    the array is the MapValueError of an incompatible subset, a right-hand
    side with no value there is ValueError. *)
Fixpoint leaf_assign (rhs : nat -> option val) (nodes : list nat) (vs : list val)
    : result (list val) :=
  match nodes with
  | [] => Ok vs
  | n :: rest =>
      if bool_decide (n < length vs) then
        match rhs n with
        | Some v => leaf_assign rhs rest (<[n := v]> vs)
        | None => Raise ValueError
        end
      else Raise MapValueError
  end.

(** Modelled from the spec: [Function.assign(value, subset)] on every
    array below a view; [q] is the component path from the view down to
    [d]. *)
Fixpoint dat_assign (rhs : list nat -> nat -> option val) (nodes : list nat)
    (q : list nat) (d : Dat val) : result (Dat val) :=
  match d with
  | DLeaf vs =>
      let? vs' := leaf_assign (rhs q) nodes vs in
      Ok (DLeaf vs')
  | DNode ds =>
      let? ds' := children_result
                    (fun i c => dat_assign rhs nodes (q ++ [i]) c) 0 ds in
      Ok (DNode ds')
  end.

(** Modelled from the spec: writing through a view, which replaces the
    part of [d] at [p] by [f] of it. *)
Fixpoint dat_update (f : Dat val -> result (Dat val)) (p : list nat) (d : Dat val)
    : result (Dat val) :=
  match p with
  | [] => f d
  | i :: p' =>
      match d with
      | DNode ds =>
          match ds !! i with
          | Some c =>
              let? c' := dat_update f p' c in
              Ok (DNode (<[i := c']> ds))
          | None => Raise IndexError
          end
      | DLeaf _ => Raise IndexError
      end
  end.

(** Modelled from the spec: [r.assign(expr, subset=subset)] of
    function.py.  A subset of another node set than that of the space of
    [r] is incompatible: MapValueError, before anything is written.  The
    right-hand side is evaluated pointwise on the data as it is before the
    assignment. *)
Definition Function_assign (r : Function) (e : AssignExpr) (subset : Subset)
    : M State unit :=
  let! w := get_world in
  match dats w !! fn_dat r with
  | None => raise IndexError
  | Some d =>
      if bool_decide (superset subset <> node_set (fn_space r))
      then raise MapValueError
      else
      let! d' := lift_result
        (dat_update (dat_assign (eval_assign (dats w) e) (subset_indices subset) [])
           (fn_path r) d) in
      put_world (mkWorld (<[fn_dat r := d']> (dats w)) (expressions w) (matrices w))
  end.

(** Modelled from the spec: [Matrix.add_bc(bc)] of matrix.py, which
    records the boundary condition against the matrix. *)
Definition Matrix_add_bc (m : loc) (bc : DirichletBC) : M State unit :=
  let! w := get_world in
  match matrices w !! m with
  | None => raise IndexError
  | Some bcs =>
      put_world (mkWorld (dats w) (expressions w) (<[m := bcs ++ [bc]]> (matrices w)))
  end.

(** [self.node_set] read from a DirichletBC. *)
Definition node_set_property : M State Subset :=
  let! bc := get_self in
  let '(s, b) := BCBase_node_set (base bc) in
  let! _ := modify_self (set_base b) in
  ret s.

(** *** DirichletBC.apply *)

(** The target [r] of [apply]. *)
Inductive Target : Type :=
| TMatrix (m : loc)
| TFunction (r : Function).

(** The [while True] loop of [apply]: [true] when [fs] or one of its
    ancestors equals [target], [false] where the loop raises. *)
Fixpoint space_matches (fs target : FunctionSpace) : bool :=
  match fs with
  | mkFunctionSpace _ _ _ _ _ _ _ par =>
      if bool_decide (fs = target) then true
      else match par with
           | Some p => space_matches p target
           | None => false
           end
  end.

(** The [for idx in self._indices] loop of [apply]. *)
Fixpoint apply_indices (ds : list (Dat val)) (idxs : list nat) (r : Function)
    (u : option Function) : result (Function * option Function) :=
  match idxs with
  | [] => Ok (r, u)
  | idx :: rest =>
      let? r' := Function_sub ds r idx in
      let? u' := match u with
                 | Some u0 => let? u1 := Function_sub ds u0 idx in Ok (Some u1)
                 | None => Ok None
                 end in
      apply_indices ds rest r' u'
  end.

(** [DirichletBC.apply(self, r, u=None)].  A Function is truthy, so
    [if u] is the test [u is not None]. *)
Definition DirichletBC_apply (r : Target) (u : option Function) : M State unit :=
  match r with
  | TMatrix m =>
      (* r.add_bc(self); return *)
      let! bc := get_self in
      Matrix_add_bc m bc
  | TFunction r =>
      let! bc := get_self in
      let fs := function_space bc in
      (* if u and u.function_space() != r.function_space() *)
      let! _ :=
        match u with
        | Some u0 =>
            if bool_decide (fn_space u0 <> fn_space r)
            then raise RuntimeError else ret tt
        | None => ret tt
        end in
      (* while True: fs == r.function_space(), or fs = fs.parent, or raise *)
      let! _ := if space_matches fs (fn_space r) then ret tt
                else raise RuntimeError in
      (* for idx in self._indices: r = r.sub(idx); if u: u = u.sub(idx) *)
      let! w := get_world in
      let! ru := lift_result (apply_indices (dats w) (_indices (base bc)) r u) in
      let '(r, u) := ru in
      match u with
      | Some u0 =>
          (* r.assign(u - self.function_arg, subset=self.node_set) *)
          let! g := function_arg in
          let! s := node_set_property in
          Function_assign r (ADiff u0 g) s
      | None =>
          (* r.assign(self.function_arg, subset=self.node_set) *)
          let! g := function_arg in
          let! s := node_set_property in
          Function_assign r (AValue g) s
      end
  end.

(** *** The module-level homogenize *)

(** The argument of [homogenize]: a DirichletBC or an iterable. *)
#[warnings="-register-all"]
Inductive BCArg : Type :=
| ABC (bc : DirichletBC)
| AIter (items : list BCArg).

(** What [homogenize] returns: a DirichletBC or a list. *)
#[warnings="-register-all"]
Inductive BCRes : Type :=
| RBC (bc : DirichletBC)
| RList (items : list BCRes).

(** [homogenize(bc)].  Iterating a DirichletBC is TypeError, which the
    [except] clause turns into the construction of one boundary
    condition; a TypeError from inside the comprehension is caught by the
    same clause, which then reads [function_space] off the iterable. *)
Fixpoint homogenize (bc : BCArg) : M World BCRes :=
  match bc with
  | ABC b =>
      let! h := DirichletBC_init (function_space b) (VUfl (PyInt 0))
                  (sub_domain (base b)) "topological" in
      ret (RBC h)
  | AIter items =>
      fun w =>
        match (fix comprehension (l : list BCArg) : M World (list BCRes) :=
                 match l with
                 | [] => ret []
                 | i :: rest =>
                     let! h := homogenize i in
                     let! hs := comprehension rest in
                     ret (h :: hs)
                 end) items w with
        | (Raise TypeError, w') => (Raise AttributeError, w')
        | (Ok hs, w') => (Ok (RList hs), w')
        | (Raise e, w') => (Raise e, w')
        end
  end.

End Fields.

(** ** EquationBC and EquationBCSplit *)

(** The two classes bcs.py accepts wherever a form is expected:
    [ufl.Form] and [slate.slate.TensorBase]. *)
Inductive FormClass : Set :=
| UflForm
| SlateTensor.

#[global] Instance FormClass_eq_dec : EqDecision FormClass.
Proof. solve_decision. Defined.

(** Modelled from the spec: a weak-form object of ufl or slate, by its
    class, the function spaces of its arguments (in the order of
    [arguments()]), and its integrand. *)
Record FormObj (body : Type) := mkFormObj {
  form_class : FormClass;
  form_arguments : list FunctionSpace;
  form_body : body }.

Arguments mkFormObj {body} _ _ _.
Arguments form_class {body} _.
Arguments form_arguments {body} _.
Arguments form_body {body} _.

(** The symbolic services of [ufl_expr] and of form arithmetic. *)
Class FormCollaborators := {
  body : Type;
  (* [ufl_expr.derivative(F, u)] *)
  derivative : FormObj body -> Function -> FormObj body;
  (* [ufl_expr.action(J, u)] *)
  action : FormObj body -> Function -> FormObj body;
  (* [a - b] on forms *)
  form_minus : FormObj body -> FormObj body -> FormObj body }.

(** A Python value in a form position: a reference to a form object or a
    number (the [0] of [F == 0]). *)
Inductive PyVal : Set :=
| PObj (l : loc)
| PNum (z : Z).

#[global] Instance PyVal_eq_dec : EqDecision PyVal.
Proof. solve_decision. Defined.

(** [ufl.Equation]. *)
Record Equation := mkEquation {
  lhs : PyVal;
  rhs : PyVal }.

Record EquationBC := mkEquationBC {
  ebc_base : BCBase;
  ebc_u : Function;
  ebc_f : option PyVal;
  (* the caller may attach a list object later; [None] until then *)
  ebc_bcs : option loc;
  ebc_Jp_eq_J : bool;
  ebc_J : PyVal;
  ebc_Jp : PyVal;
  ebc_F : PyVal;
  ebc_is_linear : bool }.

Record EquationBCSplit := mkEquationBCSplit {
  split_base : BCBase;
  split_u : Function;
  split_f : PyVal;
  split_bcs : option loc }.

(** The first argument of [EquationBCSplit.__init__], by the
    [isinstance(ebc, EquationBC)] test made on it. *)
Inductive SplitArg : Type :=
| IsEquationBC (ebc : EquationBC)
| NotEquationBC.

(** [EquationBCSplit.__init__(self, ebc, form_str)]. *)
Definition EquationBCSplit_init (ebc : SplitArg) (form_str : string)
    : result EquationBCSplit :=
  match ebc with
  | NotEquationBC => Raise TypeError
  | IsEquationBC ebc =>
      let? b := BCBase_init (_function_space (ebc_base ebc))
                  (sub_domain (ebc_base ebc)) "topological" in
      let u := ebc_u ebc in
      let? f := if bool_decide (form_str = "F") then Ok (ebc_F ebc)
                else if bool_decide (form_str = "J") then Ok (ebc_J ebc)
                else if bool_decide (form_str = "Jp") then Ok (ebc_Jp ebc)
                else Raise TypeError in
      Ok {| split_base := b; split_u := u; split_f := f; split_bcs := None |}
  end.

Section Forms.
Context `{FO : FormCollaborators}.

(** The form objects alive, by reference, and the next free reference. *)
Record FormStore := mkFormStore {
  form_at : loc -> FormObj body;
  next_form : loc }.

(** A newly created form object. *)
Definition new_form (o : FormObj body) : M FormStore PyVal :=
  fun st =>
    (Ok (PObj (next_form st)),
     mkFormStore
       (fun l => if bool_decide (l = next_form st) then o else form_at st l)
       (S (next_form st))).

(** [isinstance(x, classes)]. *)
Definition isinstance_form (st : FormStore) (x : PyVal) (classes : list FormClass)
    : bool :=
  match x with
  | PObj l => bool_decide (form_class (form_at st l) ∈ classes)
  | PNum _ => false
  end.

(** [x.arguments()]: a number has no such attribute. *)
Definition arguments (st : FormStore) (x : PyVal) : result (list FunctionSpace) :=
  match x with
  | PObj l => Ok (form_arguments (form_at st l))
  | PNum _ => Raise AttributeError
  end.

(** [x is 0] and [x != 0]. *)
Definition is_zero (x : PyVal) : bool := bool_decide (x = PNum 0).

(** [a or b] with [a] an optional argument: [None] and [0] are falsy,
    a form object is truthy; [b] is evaluated only when [a] is falsy. *)
Definition py_or (a : option PyVal) (b : M FormStore PyVal) : M FormStore PyVal :=
  match a with
  | None => b
  | Some x => if is_zero x then b else ret x
  end.

(** A collaborator called on a value that must be a form object. *)
Definition with_form {A} (st : FormStore) (x : PyVal) (k : FormObj body -> M FormStore A)
    : M FormStore A :=
  match x with
  | PObj l => k (form_at st l)
  | PNum _ => raise TypeError
  end.

(** The two tests made on an explicit Jacobian or preconditioner in the
    nonlinear branch. *)
Definition check_bilinear (st : FormStore) (J : option PyVal) : M FormStore unit :=
  match J with
  | None => ret tt
  | Some j =>
      if negb (isinstance_form st j [UflForm; SlateTensor]) then raise TypeError
      else
        let! args := lift_result (arguments st j) in
        if bool_decide (length args <> 2) then raise ValueError else ret tt
  end.

(** [EquationBC.__init__(self, eq, u, sub_domain, J, Jp, method)]. *)
Definition EquationBC_init (eq : Equation) (u : Function) (sd : SubDomain)
    (J Jp : option PyVal) (meth : string) : M FormStore EquationBC :=
  let! st := get in
  let! largs := lift_result (arguments st (lhs eq)) in
  match largs with
  | [] => raise IndexError
  | V :: _ =>
      let! b := lift_result (BCBase_init V sd "topological") in
      let Jp_eq_J := bool_decide (Jp = None) in
      if isinstance_form st (lhs eq) [UflForm] && isinstance_form st (rhs eq) [UflForm]
      then
        let J' := lhs eq in
        let! Jp' := py_or Jp (ret J') in
        let! F' :=
          if is_zero (rhs eq) then
            with_form st J' (fun j => new_form (action j u))
          else
            if negb (isinstance_form st (rhs eq) [UflForm; SlateTensor])
            then raise TypeError
            else
              let! rargs := lift_result (arguments st (rhs eq)) in
              if bool_decide (length rargs <> 1) then raise ValueError
              else
                with_form st J' (fun j =>
                  with_form st (rhs eq) (fun r =>
                    new_form (form_minus (action j u) r))) in
        ret (mkEquationBC b u None None Jp_eq_J J' Jp' F' true)
      else
        if negb (is_zero (rhs eq)) then raise TypeError
        else if negb (isinstance_form st (lhs eq) [UflForm; SlateTensor])
        then raise TypeError
        else if bool_decide (length largs <> 1) then raise ValueError
        else
          let F' := lhs eq in
          let! _ := check_bilinear st J in
          let! J' := py_or J (with_form st F' (fun f => new_form (derivative f u))) in
          let! _ := check_bilinear st Jp in
          let! Jp' := py_or Jp (ret J') in
          ret (mkEquationBC b u None None Jp_eq_J J' Jp' F' false)
  end.

End Forms.

(** ** A concrete instance of the collaborators

    A one-dimensional interval mesh with integer nodal values, on which
    the definitions above can be run. *)
Module Demo.

(** UFL expressions: a constant, or the spatial coordinate. *)
Inductive Term : Set :=
| Constant (c : Z)
| Coordinate.

(** Sub-domain 1 is the left end of the interval, 2 the right end; a
    Hermite space carries two dofs at each vertex.  In these examples the
    node set of a space is named by the number of its nodes. *)
Definition interval_boundary_nodes (V : FunctionSpace) (sd : SubDomain)
    (meth : string) : list nat :=
  let k := if isinstance (finat_element V) [Hermite] then 2 else 1 in
  let left := seq 0 k in
  let right := seq (node_set V - k) k in
  match sd with
  | SDInt 1 => left
  | SDInt 2 => right
  | SDStr _ => left ++ right
  | _ => []
  end.

(** An Expression takes the value of its body at every node; the
    coordinate of node [i] is [i]. *)
Definition nodal_values (V : FunctionSpace) (src : InterpSource Z Term) : Dat Z :=
  DLeaf match src with
        | SrcExpression e => replicate (node_set V) (expr_code e)
        | SrcUfl (Constant c) => replicate (node_set V) c
        | SrcUfl Coordinate => Z.of_nat <$> seq 0 (node_set V)
        end.

Definition fields : FieldCollaborators :=
  {| val := Z;
     val_sub := Z.sub;
     val_of_int := fun z => z;
     ufl_term := Term;
     has_SpatialCoordinate := fun t =>
       match t with Coordinate => true | Constant _ => false end;
     ufl_eval := fun _ t _ _ =>
       match t with Constant c => Some c | Coordinate => None end;
     code := Z;
     py_object := list Z;
     to_expression := fun o =>
       match o with c :: _ => Some (mkExpression 0 c) | [] => None end;
     interpolate := fun _ V src =>
       if bool_decide (finat_element V = OtherElement "Raviart-Thomas") then None
       else Some (nodal_values V src);
     project := fun _ V src => nodal_values V src;
     boundary_nodes := interval_boundary_nodes;
     (* the mixed spaces here have two equal fields: a sub-space has half
        the nodes, and with them the node set of that size *)
     sub_space := fun V i =>
       mkFunctionSpace (fs_name V) (finat_element V) (topological_dimension V)
         (extruded V) (Some i) None (Nat.div2 (node_set V)) (Some V) |}.

(** Forms as strings. *)
Definition forms : FormCollaborators :=
  {| body := string;
     derivative := fun F _ =>
       mkFormObj UflForm (form_arguments F ++ take 1 (form_arguments F))
         ("derivative(" +:+ form_body F +:+ ")");
     action := fun J _ =>
       mkFormObj UflForm (take 1 (form_arguments J))
         ("action(" +:+ form_body J +:+ ")");
     form_minus := fun a b =>
       mkFormObj UflForm (form_arguments a) (form_body a +:+ " - " +:+ form_body b) |}.

(** Lagrange elements on an interval with four vertices. *)
Definition P1 : FunctionSpace :=
  mkFunctionSpace "P1" (OtherElement "Lagrange") 1 false None None 4 None.

(** Hermite elements on an interval with three vertices. *)
Definition H3 : FunctionSpace :=
  mkFunctionSpace "H3" Hermite 1 false None None 6 None.

(** Hermite elements on a triangle mesh. *)
Definition H3_2d : FunctionSpace :=
  mkFunctionSpace "H3" Hermite 2 false None None 30 None.

Definition Argyris_2d : FunctionSpace :=
  mkFunctionSpace "Argyris" Argyris 2 false None None 30 None.

(** A mixed space of two P1 fields, and its two sub-spaces. *)
Definition W : FunctionSpace :=
  mkFunctionSpace "W" (OtherElement "Mixed") 1 false None None 8 None.

Definition W0 : FunctionSpace := sub_space (FieldCollaborators := fields) W 0.

Definition W1 : FunctionSpace := sub_space (FieldCollaborators := fields) W 1.

(** Lagrange elements of degree 2 on an interval with three vertices. *)
Definition P2 : FunctionSpace :=
  mkFunctionSpace "P2" (OtherElement "Lagrange") 1 false None None 5 None.

(** No fields, one matrix, and every Expression reference denoting an
    Expression of value [c] in state [st]. *)
Definition world0 (st : nat) (c : Z) : World (FC := fields) :=
  mkWorld (FC := fields) [] (fun _ => mkExpression st c) [[]].

(** A residual [r] and a current state [u] on P1, and a residual on W. *)
Definition world1 : World (FC := fields) :=
  mkWorld (FC := fields)
    [ DLeaf [10; 20; 30; 40]%Z;
      DLeaf [1; 2; 3; 4]%Z;
      DNode [DLeaf [11; 12; 13; 14]%Z; DLeaf [21; 22; 23; 24]%Z];
      DNode [DLeaf [5; 5; 5; 5]%Z; DLeaf [6; 7; 8; 9]%Z] ]
    (fun _ => mkExpression 0 7%Z) [[]].

Definition r_P1 : Function := mkFunction P1 0 [].
Definition u_P1 : Function := mkFunction P1 1 [].
Definition r_W : Function := mkFunction W 2 [].
Definition u_W : Function := mkFunction W 3 [].

(** A field on each sub-space of W by itself: one array. *)
Definition r_W0 : Function := mkFunction W0 0 [].

(** One residual form with one argument on P1, at reference 0. *)
Definition forms0 : FormStore (FO := forms) :=
  mkFormStore (FO := forms) (fun _ => mkFormObj UflForm [P1] "F") 1.

(** The base object of a boundary condition on [V] over sub-domain 1. *)
Definition base_on (V : FunctionSpace) (indices : list nat) : BCBase :=
  mkBCBase V (SDInt 1) "topological" indices
    (mkCacheKey (SDTuple [1%Z]) "topological" indices []) None None.

(** [DirichletBC(V, c, 1)] for a literal [c]. *)
Definition bc_literal (V : FunctionSpace) (indices : list nat) (c : Z)
    : DirichletBC (FC := fields) :=
  mkDirichletBC (FC := fields) (base_on V indices)
    (VUfl (PyInt c)) (VUfl (PyInt c)) (VUfl (PyInt c)) false None.

(** [DirichletBC(P1, e, 1)] for the Expression at reference 0 in state 0:
    its resolution is the first field of the store. *)
Definition bc_expression : DirichletBC (FC := fields) :=
  mkDirichletBC (FC := fields) (base_on P1 [])
    (VExpression 0) (VFunction (mkFunction P1 0 [])) (VFunction (mkFunction P1 0 []))
    false (Some 0).

(** The world after the owner of the Expression assigned one of its
    variables: state 1, value 9; the field resolved earlier is kept. *)
Definition world_updated : World (FC := fields) :=
  mkWorld (FC := fields) [DLeaf [7; 7; 7; 7]%Z] (fun _ => mkExpression 1 9%Z) [[]].

(** A world with two Expressions: [e0] at reference 0 and [e1] at every
    other reference. *)
Definition world_of (e0 e1 : Expression Z) (ds : list (Dat Z))
    : World (FC := fields) :=
  mkWorld (FC := fields) ds (fun l => if bool_decide (l = 0) then e0 else e1) [[]].

(** Two Expressions and the first of them after its owner assigned its
    variables five times. *)
Definition e_old : Expression Z := mkExpression 5 7%Z.
Definition e_new : Expression Z := mkExpression 0 9%Z.
Definition e_new_advanced : Expression Z := mkExpression 5 11%Z.

(** A boundary condition on P1 with the Expression at reference [g] as
    original value, the stored field [field] as value and restore point,
    and [st] as recorded Expression state. *)
Definition bc_on_expression (g field : loc) (st : nat) : DirichletBC (FC := fields) :=
  mkDirichletBC (FC := fields) (base_on P1 [])
    (VExpression g) (VFunction (mkFunction P1 field []))
    (VFunction (mkFunction P1 field [])) false (Some st).

(** [EquationBC(F == 0, u, 1)] built in [forms0], and the same object
    after the assembler attached the list object 0 as its [bcs]. *)
Definition ebc0 : EquationBC :=
  mkEquationBC (base_on P1 []) u_P1 None None true (PObj 1) (PObj 1) (PObj 0) false.

Definition ebc0_with_bcs : EquationBC :=
  mkEquationBC (base_on P1 []) u_P1 None (Some 0) true (PObj 1) (PObj 1) (PObj 0)
    false.

End Demo.

(** ** Predicates used by the statements *)

(** A function space on which [BCBase.__init__] passes its two element
    and mesh tests. *)
Definition constructible (V : FunctionSpace) : Prop :=
  is_zany V = false /\ (extruded V && bool_decide (component V <> None)) = false.

(** What the [nodes] slot of a boundary condition holds once filled. *)
Definition expected_nodes `{FC : FieldCollaborators} (b : BCBase) : list nat :=
  let bcnodes := boundary_nodes (_function_space b) (sub_domain b) (method b) in
  if isinstance (finat_element (_function_space b)) [Hermite]
     && (topological_dimension (_function_space b) =? 1)%nat
  then every_second bcnodes else bcnodes.

(** The cached slots of [b] are empty or hold what a first access stores. *)
Definition caches_consistent `{FC : FieldCollaborators} (b : BCBase) : Prop :=
  match nodes_cached b with
  | None => True
  | Some ns => ns = expected_nodes b
  end /\
  match node_set_cached b with
  | None => True
  | Some s => s = mkSubset (node_set (_function_space b)) (expected_nodes b)
  end.

(** The entries [apply] writes: node [n] of the nodes of the boundary
    condition, in any leaf at or below the view of [r] reached by the
    sub-indices [path]. *)
Definition selected (r : Function) (path nodes : list nat)
    (l : loc) (a : list nat) (n : nat) : Prop :=
  l = fn_dat r /\ n ∈ nodes /\ exists q, a = fn_path r ++ path ++ q.

(** The view [r] exists in [ds], each of its leaves has all of [nodes],
    and [rhs] has a value at each of them. *)
Definition target_fits `{FC : FieldCollaborators} (ds : list (Dat val))
    (r : Function) (nodes : list nat) (rhs : AssignExpr) : Prop :=
  exists d sub,
    ds !! fn_dat r = Some d
    /\ dat_sub d (fn_path r) = Some sub
    /\ forall q vs, dat_sub sub q = Some (DLeaf vs) ->
         forall n, n ∈ nodes ->
           n < length vs /\ is_Some (eval_assign ds rhs q n).

(** The sub-fields that the sub-indices [idxs] lead through, from the
    part [d] of a field down: the path taken, or [None] where a sub-index
    names no sub-field.  An array is its own sub-field 0, so a sub-index 0
    met at an array adds nothing to the path. *)
Fixpoint index_walk `{FC : FieldCollaborators} (d : Dat val) (idxs : list nat)
    : option (list nat) :=
  match idxs with
  | [] => Some []
  | i :: rest =>
      match d with
      | DNode cs =>
          match cs !! i with
          | Some c =>
              match index_walk c rest with
              | Some p => Some (i :: p)
              | None => None
              end
          | None => None
          end
      | DLeaf _ => if bool_decide (i = 0) then index_walk d rest else None
      end
  end.

(** The view of the sub-field of [f] at the path [p] below it. *)
Definition view_at `{FC : FieldCollaborators} (f : Function) (p : list nat)
    : Function :=
  mkFunction (foldl sub_space (fn_space f) p) (fn_dat f) (fn_path f ++ p).

(** [f] is a view into [ds] whose part of the data has the sub-fields
    that [idxs] names, along the path [p]. *)
Definition has_subfields `{FC : FieldCollaborators} (ds : list (Dat val))
    (f : Function) (idxs p : list nat) : Prop :=
  exists d sub,
    ds !! fn_dat f = Some d
    /\ dat_sub d (fn_path f) = Some sub
    /\ index_walk sub idxs = Some p.


(** The Active state of the spec: not homogenized, with the current
    value equal to the restore point. *)
Definition active `{FC : FieldCollaborators} (bc : DirichletBC) : Prop :=
  _currently_zeroed bc = false /\ _function_arg bc = _original_arg bc.

(** ** The remaining methods: zero, set, reconstruct, integrals *)

(** A function space followed by its parent, the parent of that, and so
    on up to the root. *)
Fixpoint ancestry (fs : FunctionSpace) : list FunctionSpace :=
  match fs with
  | mkFunctionSpace _ _ _ _ _ _ _ par =>
      fs :: match par with
            | Some p => ancestry p
            | None => []
            end
  end.

Section MoreFields.
Context `{FC : FieldCollaborators}.

(** Modelled from the spec: [r.dat.zero(subset=subset)] of pyop2, which
    writes zero at the nodes of the subset in every array below the view.
    It fails with MapValueError when the subset is incompatible: a subset
    of another node set than that of the space of [r], or a node outside
    an array. *)
Definition Function_zero (r : Function) (subset : Subset) : M State unit :=
  let! w := get_world in
  match dats w !! fn_dat r with
  | None => raise IndexError
  | Some d =>
      if bool_decide (superset subset <> node_set (fn_space r))
      then raise MapValueError
      else
      let! d' := lift_result
        (dat_update
           (dat_assign (fun _ _ => Some (val_of_int 0)) (subset_indices subset) [])
           (fn_path r) d) in
      put_world (mkWorld (<[fn_dat r := d']> (dats w)) (expressions w) (matrices w))
  end.

(** [try: m except exceptions.MapValueError: raise RuntimeError]. *)
Definition except_MapValueError {A} (m : M State A) : M State A :=
  fun s =>
    match m s with
    | (Raise MapValueError, s') => (Raise RuntimeError, s')
    | other => other
    end.

(** [BCBase.zero(self, r)], as a DirichletBC inherits it. *)
Definition BCBase_zero (r : Target) : M State unit :=
  match r with
  | TMatrix _ => raise NotImplementedError
  | TFunction r =>
      let! bc := get_self in
      let! w := get_world in
      (* for idx in self._indices: r = r.sub(idx) *)
      let! ru := lift_result (apply_indices (dats w) (_indices (base bc)) r None) in
      (* try: r.dat.zero(subset=self.node_set) *)
      except_MapValueError
        (let! s := node_set_property in
         Function_zero (fst ru) s)
  end.

(** [val.sub(idx)]: only a Function has the method. *)
Definition Value_sub (ds : list (Dat val)) (v : Value) (idx : nat) : result Value :=
  match v with
  | VFunction f => let? f' := Function_sub ds f idx in Ok (VFunction f')
  | _ => Raise AttributeError
  end.

(** The [for idx in self._indices] loop of [set]. *)
Fixpoint set_indices (ds : list (Dat val)) (idxs : list nat) (r : Function)
    (v : Value) : result (Function * Value) :=
  match idxs with
  | [] => Ok (r, v)
  | idx :: rest =>
      let? r' := Function_sub ds r idx in
      let? v' := Value_sub ds v idx in
      set_indices ds rest r' v'
  end.

(** [DirichletBC.set(self, r, val)]. *)
Definition DirichletBC_set (r : Function) (v : Value) : M State unit :=
  let! bc := get_self in
  let! w := get_world in
  let! rv := lift_result (set_indices (dats w) (_indices (base bc)) r v) in
  (* r.assign(val, subset=self.node_set) *)
  let! s := node_set_property in
  Function_assign (fst rv) (AValue (snd rv)) s.

(** [DirichletBC.integrals]: the empty list. *)
Definition DirichletBC_integrals {I : Type} : result (list I) := Ok [].

(** What [reconstruct] returns: [self], or a newly constructed object. *)
Inductive Reconstructed : Type :=
| SameObject
| NewObject (bc : DirichletBC).

(** [DirichletBC.reconstruct(self, *, V, g, sub_domain, method)].
    [value_eq] is Python's [==] between the value given and
    [self._original_arg]. *)
Definition DirichletBC_reconstruct (value_eq : Value -> Value -> bool)
    (V : option FunctionSpace) (g : option Value) (sd : option SubDomain)
    (meth : option string) : M State Reconstructed :=
  let! bc := get_self in
  let V := match V with Some V => V | None => function_space bc end in
  let g := match g with Some g => g | None => _original_arg bc end in
  let sd := match sd with Some sd => sd | None => sub_domain (base bc) end in
  let meth := match meth with Some m => m | None => method (base bc) end in
  if bool_decide (V = function_space bc)
     && value_eq g (_original_arg bc)
     && bool_decide (sd = sub_domain (base bc))
     && bool_decide (meth = method (base bc))
  then ret SameObject
  else
    (* type(self)(V, g, sub_domain, method=method) *)
    fun s =>
      match DirichletBC_init V g sd meth (world s) with
      | (Ok new, w) => (Ok (NewObject new), mkState (self s) w)
      | (Raise e, w) => (Raise e, mkState (self s) w)
      end.

(** A call of one of the methods of a DirichletBC. *)
Inductive Call : Type :=
| CallRead
| CallHomogenize
| CallRestore
| CallSetValue (v : Value)
| CallApply (r : Target) (u : option Function)
| CallZero (r : Target)
| CallSet (r : Function) (v : Value).

Definition run_call (c : Call) : M State unit :=
  match c with
  | CallRead => let! _ := function_arg in ret tt
  | CallHomogenize => DirichletBC_homogenize
  | CallRestore => DirichletBC_restore
  | CallSetValue v => DirichletBC_set_value v
  | CallApply r u => DirichletBC_apply r u
  | CallZero r => BCBase_zero r
  | CallSet r v => DirichletBC_set r v
  end.

(** The states a DirichletBC constructed on [V] over [sd] goes through:
    it is constructed, its methods are called (and return or raise), and
    between the calls anything outside the object may change. *)
Inductive reachable (V : FunctionSpace) (sd : SubDomain) : State -> Prop :=
| reachable_init g meth w bc w' :
    DirichletBC_init V g sd meth w = (Ok bc, w') ->
    reachable V sd (mkState bc w')
| reachable_call s c r s' :
    reachable V sd s ->
    run_call c s = (r, s') ->
    reachable V sd s'
| reachable_world s w' :
    reachable V sd s ->
    reachable V sd (mkState (self s) w').

(** What holds of a DirichletBC constructed on [V] over [sd] between
    two calls: its identity fields are those of the base object built at
    construction, its cached slots are consistent, its value is the
    restore point unless it is homogenized and the literal 0 when it is,
    and the state of an Expression original value has been recorded. *)
Definition settled (V : FunctionSpace) (sd : SubDomain) (bc : DirichletBC) : Prop :=
  (exists b0, BCBase_init V sd "topological" = Ok b0
     /\ _function_space (base bc) = _function_space b0
     /\ sub_domain (base bc) = sub_domain b0
     /\ method (base bc) = method b0
     /\ _indices (base bc) = _indices b0
     /\ _cache_key (base bc) = _cache_key b0)
  /\ caches_consistent (base bc)
  /\ (_currently_zeroed bc = false -> _function_arg bc = _original_arg bc)
  /\ (_currently_zeroed bc = true -> _function_arg bc = VUfl (PyInt 0))
  /\ (forall e, _original_val bc = VExpression e -> is_Some (_expression_state bc)).

(** [m] keeps [P] of the object, whether it returns or raises. *)
Definition keeps {A} (P : DirichletBC -> Prop) (m : M State A) : Prop :=
  forall s r s', P (self s) -> m s = (r, s') -> P (self s').

(** The result of [homogenize] has the shape of its argument, with a
    boundary condition of value 0 on the same space and sub-domain in
    the place of each boundary condition. *)
#[warnings="-register-all"]
Inductive homogeneous_copy : BCArg -> BCRes -> Prop :=
| copy_bc bc b :
    BCBase_init (function_space bc) (sub_domain (base bc)) "topological" = Ok b ->
    homogeneous_copy (ABC bc)
      (RBC (mkDirichletBC b (VUfl (PyInt 0)) (VUfl (PyInt 0)) (VUfl (PyInt 0))
              false None))
| copy_iter items copies :
    Forall2 homogeneous_copy items copies ->
    homogeneous_copy (AIter items) (RList copies).

(** Every boundary condition in [a] stands on a constructible space. *)
#[warnings="-register-all"]
Inductive all_constructible : BCArg -> Prop :=
| all_bc bc : constructible (function_space bc) -> all_constructible (ABC bc)
| all_iter items : Forall all_constructible items -> all_constructible (AIter items).

End MoreFields.

Section MoreForms.
Context `{FO : FormCollaborators}.

(** The integrals of a form, [form.integrals()]. *)
Variable integral : Type.
Variable form_integrals : FormObj body -> list integral.

(** [BCBase.integrals], which EquationBC inherits unchanged. *)
Definition BCBase_integrals : result (list integral) := Raise NotImplementedError.

Definition EquationBC_integrals (ebc : EquationBC) : result (list integral) :=
  BCBase_integrals.

(** [EquationBCSplit.integrals]: [self.f.integrals()]. *)
Definition EquationBCSplit_integrals (st : FormStore) (sp : EquationBCSplit)
    : result (list integral) :=
  match split_f sp with
  | PObj l => Ok (form_integrals (form_at st l))
  | PNum _ => Raise AttributeError
  end.

End MoreForms.

(** ** Properties of BCBase *)

Lemma is_zany_spec (V : FunctionSpace) :
  is_zany V = true <->
  finat_element V ∈ zany_elements
  \/ (finat_element V = Hermite /\ 1 < topological_dimension V).
Proof.
  unfold is_zany, isinstance.
  rewrite orb_true_iff, andb_true_iff, !bool_decide_eq_true, Nat.ltb_lt.
  rewrite list_elem_of_singleton. reflexivity.
Qed.

Lemma BCBase_init_zany (V : FunctionSpace) (sd : SubDomain) (meth : string) :
  is_zany V = true -> BCBase_init V sd meth = Raise NotImplementedError.
Proof. intros H. unfold BCBase_init. rewrite H. reflexivity. Qed.

Lemma BCBase_init_ok (V : FunctionSpace) (sd : SubDomain) (meth : string) :
  constructible V ->
  meth ∈ ["topological"; "geometric"] ->
  exists b, BCBase_init V sd meth = Ok b
    /\ _function_space b = V /\ sub_domain b = sd /\ method b = meth
    /\ nodes_cached b = None /\ node_set_cached b = None.
Proof.
  intros [Hz Hx] Hm. unfold BCBase_init. rewrite Hz, Hx.
  rewrite bool_decide_eq_false_2 by (intros Hn; apply Hn, Hm).
  destruct (walk_parents V [] [] []) as [[cs ixs] ids].
  eexists; split; [reflexivity|]. simpl. repeat split.
Qed.

Lemma BCBase_init_inv (V : FunctionSpace) (sd : SubDomain) (meth : string)
    (b : BCBase) :
  BCBase_init V sd meth = Ok b ->
  constructible V /\ meth ∈ ["topological"; "geometric"]
  /\ _function_space b = V /\ sub_domain b = sd /\ method b = meth
  /\ nodes_cached b = None /\ node_set_cached b = None.
Proof.
  unfold BCBase_init, constructible. intros H.
  destruct (is_zany V); [discriminate|].
  destruct (bool_decide (meth ∉ _)) eqn:Hm; [discriminate|].
  destruct (extruded V && _); [discriminate|].
  destruct (walk_parents V [] [] []) as [[cs ixs] ids].
  injection H as <-. simpl.
  apply bool_decide_eq_false in Hm.
  repeat split. destruct (decide (meth ∈ ["topological"; "geometric"])); [done|].
  contradiction.
Qed.

(** The base constructor rejects an unknown method on a space it supports. *)
Lemma BCBase_init_unknown_method (V : FunctionSpace) (sd : SubDomain)
    (meth : string) :
  is_zany V = false ->
  meth ∉ ["topological"; "geometric"] ->
  BCBase_init V sd meth = Raise ValueError.
Proof.
  intros Hz Hm. unfold BCBase_init. rewrite Hz.
  rewrite bool_decide_eq_true_2 by exact Hm. reflexivity.
Qed.

Lemma every_second_lookup {A} (l : list A) (i : nat) :
  every_second l !! i = l !! (2 * i).
Proof.
  revert i.
  enough (H : (forall i, every_second l !! i = l !! (2 * i))
              /\ (forall x i, every_second (x :: l) !! i = (x :: l) !! (2 * i)))
    by apply H.
  induction l as [|y l [IH1 IH2]]; (split; [|intros x]); intros [|i];
    try reflexivity.
  - apply (IH2 y (S i)).
  - change (every_second l !! i = (x :: y :: l) !! (2 * S i)).
    replace (2 * S i) with (S (S (2 * i))) by lia. apply IH1.
Qed.

Lemma every_second_length {A} (l : list A) :
  length (every_second l) = Nat.div2 (S (length l)).
Proof.
  enough (H : length (every_second l) = Nat.div2 (S (length l))
              /\ (forall x, length (every_second (x :: l))
                            = Nat.div2 (S (length (x :: l)))))
    by apply H.
  induction l as [|y l [IH1 IH2]]; (split; [|intros x]); try reflexivity.
  - apply IH2.
  - simpl. f_equal. exact IH1.
Qed.

(** ** Properties of the boundary nodes and of the function_arg property *)

Section FieldProperties.
Context `{FC : FieldCollaborators}.

Lemma BCBase_init_consistent (V : FunctionSpace) (sd : SubDomain) (meth : string)
    (b : BCBase) :
  BCBase_init V sd meth = Ok b -> caches_consistent b.
Proof.
  intros H. apply BCBase_init_inv in H as (_ & _ & _ & _ & _ & Hn & Hs).
  unfold caches_consistent. rewrite Hn, Hs. split; exact I.
Qed.

Lemma BCBase_nodes_spec (b : BCBase) :
  caches_consistent b ->
  fst (BCBase_nodes b) = expected_nodes b
  /\ caches_consistent (snd (BCBase_nodes b))
  /\ nodes_cached (snd (BCBase_nodes b)) = Some (expected_nodes b)
  /\ _function_space (snd (BCBase_nodes b)) = _function_space b
  /\ sub_domain (snd (BCBase_nodes b)) = sub_domain b
  /\ method (snd (BCBase_nodes b)) = method b
  /\ _indices (snd (BCBase_nodes b)) = _indices b.
Proof.
  intros [Hn Hs]. unfold BCBase_nodes.
  destruct (nodes_cached b) as [ns|] eqn:E; simpl.
  - subst ns. repeat split; try assumption. rewrite E. reflexivity.
  - repeat split. exact Hs.
Qed.

Lemma BCBase_node_set_spec (b : BCBase) :
  caches_consistent b ->
  fst (BCBase_node_set b)
    = mkSubset (node_set (_function_space b)) (expected_nodes b)
  /\ caches_consistent (snd (BCBase_node_set b))
  /\ _function_space (snd (BCBase_node_set b)) = _function_space b
  /\ sub_domain (snd (BCBase_node_set b)) = sub_domain b
  /\ method (snd (BCBase_node_set b)) = method b
  /\ _indices (snd (BCBase_node_set b)) = _indices b.
Proof.
  intros Hc. unfold BCBase_node_set.
  destruct (node_set_cached b) as [s|] eqn:E; simpl.
  - destruct Hc as [Hn Hs]. rewrite E in Hs. subst s.
    repeat split; try assumption. rewrite E. reflexivity.
  - destruct (BCBase_nodes_spec b Hc) as (H1 & H2 & H3 & H4 & H5 & H6 & H7).
    destruct (BCBase_nodes b) as [ns b']. simpl in *. subst ns.
    rewrite H4. repeat split; try assumption; simpl.
    + rewrite H3. unfold expected_nodes. simpl. rewrite H5, H6. reflexivity.
    + unfold expected_nodes. simpl. rewrite H5, H6. reflexivity.
Qed.

(** C9. On a Hermite space over a 1-D mesh, [nodes] is every second
    entry of [boundary_nodes(sub_domain, method)], starting with the
    first; on any other space it is the whole sequence.  A second access
    returns the stored sequence. *)
Theorem nodes_every_second_on_hermite_1d (b : BCBase) :
  caches_consistent b ->
  let V := _function_space b in
  let bcnodes := boundary_nodes V (sub_domain b) (method b) in
  let nodes := fst (BCBase_nodes b) in
  (finat_element V = Hermite /\ topological_dimension V = 1 ->
     nodes = every_second bcnodes
     /\ (forall i, nodes !! i = bcnodes !! (2 * i))
     /\ length nodes = Nat.div2 (S (length bcnodes)))
  /\ (~ (finat_element V = Hermite /\ topological_dimension V = 1) ->
     nodes = bcnodes)
  /\ fst (BCBase_nodes (snd (BCBase_nodes b))) = nodes.
Proof.
  intros Hc V bcnodes nodes.
  destruct (BCBase_nodes_spec b Hc) as (H1 & H2 & H3 & H4 & H5 & H6 & _).
  assert (Hn : nodes = expected_nodes b) by exact H1.
  split; [|split].
  - intros [He Hd].
    assert (Hs : nodes = every_second bcnodes).
    { rewrite Hn. unfold expected_nodes, isinstance. fold V. rewrite He, Hd.
      reflexivity. }
    rewrite Hs. split; [reflexivity|]. split.
    + intros i. apply every_second_lookup.
    + apply every_second_length.
  - intros Hne. rewrite Hn. unfold expected_nodes, isinstance. fold V.
    destruct (bool_decide (finat_element V ∈ [Hermite])) eqn:E1; [|reflexivity].
    destruct (topological_dimension V =? 1)%nat eqn:E2; [|reflexivity].
    exfalso. apply Hne. apply bool_decide_eq_true in E1. apply Nat.eqb_eq in E2.
    apply list_elem_of_singleton in E1. split; assumption.
  - unfold BCBase_nodes at 1. rewrite H3. simpl. rewrite Hn. reflexivity.
Qed.

(** *** The setter *)

Lemma function_arg_setter_expression (s : State) (e : loc) :
  let bc := self s in
  let w := world s in
  let cur := expressions w e in
  let d := resolution (dats w) (function_space bc) (SrcExpression cur) in
  let g := VFunction (mkFunction (function_space bc) (length (dats w)) []) in
  function_arg_setter (VExpression e) s =
    (Ok tt,
     mkState
       (mkDirichletBC (base bc) (_original_val bc) g (_original_arg bc) false
          (Some (_state cur)))
       (mkWorld (dats w ++ [d]) (expressions w) (matrices w))).
Proof. reflexivity. Qed.

Lemma function_arg_setter_int (s : State) (z : Z) :
  let bc := self s in
  function_arg_setter (VUfl (PyInt z)) s =
    (Ok tt,
     mkState
       (mkDirichletBC (base bc) (_original_val bc) (VUfl (PyInt z))
          (_original_arg bc) false (_expression_state bc))
       (world s)).
Proof. reflexivity. Qed.

(** Whatever the setter is given, it leaves the restore point, the
    original value and the base alone and ends not homogenized. *)
Lemma function_arg_setter_frame (g : Value) (s s' : State) :
  function_arg_setter g s = (Ok tt, s') ->
  base (self s') = base (self s)
  /\ _original_val (self s') = _original_val (self s)
  /\ _original_arg (self s') = _original_arg (self s)
  /\ _currently_zeroed (self s') = false
  /\ expressions (world s') = expressions (world s)
  /\ matrices (world s') = matrices (world s).
Proof.
  unfold function_arg_setter, bind, get_self, get_world, resolve_onto,
    modify_self, put_world, ret, raise.
  destruct g as [f|e|[z|t]|o]; simpl.
  - destruct (bool_decide (fn_space f <> function_space (self s))); simpl;
      intros H; inversion H; subst; simpl; repeat split.
  - intros H; inversion H; subst; simpl; repeat split.
  - intros H; inversion H; subst; simpl; repeat split.
  - destruct (has_SpatialCoordinate t); simpl;
      intros H; inversion H; subst; simpl; repeat split.
  - destruct (to_expression o); simpl;
      intros H; inversion H; subst; simpl; repeat split.
Qed.

(** *** The getter *)

Lemma function_arg_unfold : function_arg = function_arg_getter (S (S 998)).
Proof. reflexivity. Qed.

Lemma getter_not_expression (d : nat) (s : State) :
  (forall e, _original_val (self s) <> VExpression e) ->
  function_arg_getter (S d) s = (Ok (_function_arg (self s)), s).
Proof.
  intros H. simpl. unfold bind, get_self, get_world, ret. simpl.
  destruct (_original_val (self s)) as [f|e|c|o]; try reflexivity.
  exfalso. exact (H e eq_refl).
Qed.

Lemma getter_zeroed (d : nat) (s : State) :
  _currently_zeroed (self s) = true ->
  function_arg_getter (S d) s = (Ok (_function_arg (self s)), s).
Proof.
  intros H. simpl. unfold bind, get_self, get_world, ret. simpl.
  destruct (_original_val (self s)) as [f|e|c|o]; try reflexivity.
  rewrite H. reflexivity.
Qed.

Lemma getter_current (d : nat) (s : State) (e : loc) :
  _original_val (self s) = VExpression e ->
  _expression_state (self s) = Some (_state (expressions (world s) e)) ->
  function_arg_getter (S d) s = (Ok (_function_arg (self s)), s).
Proof.
  intros Ho He. simpl. unfold bind, get_self, get_world, ret. simpl.
  rewrite Ho, He. destruct (negb (_currently_zeroed (self s))); [|reflexivity].
  rewrite bool_decide_eq_false_2 by (intros Hn; apply Hn; reflexivity).
  reflexivity.
Qed.

Lemma getter_stale (d : nat) (s : State) (e : loc) (st : nat) :
  _original_val (self s) = VExpression e ->
  _currently_zeroed (self s) = false ->
  _expression_state (self s) = Some st ->
  _state (expressions (world s) e) <> st ->
  let bc := self s in
  let w := world s in
  let cur := expressions w e in
  let g := VFunction (mkFunction (function_space bc) (length (dats w)) []) in
  function_arg_getter (S (S d)) s =
    (Ok g,
     mkState
       (mkDirichletBC (base bc) (VExpression e) g g false (Some (_state cur)))
       (mkWorld
          (dats w ++ [resolution (dats w) (function_space bc) (SrcExpression cur)])
          (expressions w) (matrices w))).
Proof.
  intros Ho Hz He Hne bc w cur g.
  change (function_arg_getter (S (S d)) s) with
    (bind get_self (fun bc =>
     bind get_world (fun w =>
     bind match _original_val bc with
          | VExpression e =>
              if negb (_currently_zeroed bc) then
                match _expression_state bc with
                | None => raise AttributeError
                | Some st =>
                    if bool_decide (_state (expressions w e) <> st) then
                      bind (function_arg_setter (_original_val bc)) (fun _ =>
                      bind (function_arg_getter (S d)) (fun v =>
                      modify_self (set_original_arg v)))
                    else ret tt
                end
              else ret tt
          | _ => ret tt
          end (fun _ =>
     bind get_self (fun bc' => ret (_function_arg bc'))))) s).
  unfold bind at 1 2 3. unfold get_self at 1. unfold get_world at 1.
  rewrite Ho, Hz, He. rewrite bool_decide_eq_true_2 by exact Hne.
  cbn [negb]. unfold bind at 1. rewrite function_arg_setter_expression.
  cbv beta iota zeta. unfold bind at 1.
  rewrite getter_current with (e := e) by (simpl; auto).
  unfold modify_self, bind, get_self, ret, set_original_arg. simpl.
  rewrite Ho. reflexivity.
Qed.

(** Reading the property right after the setter stored the resolution
    of the original value finds nothing to re-resolve. *)
Lemma function_arg_after_setter (s s1 : State) :
  function_arg_setter (_original_val (self s)) s = (Ok tt, s1) ->
  function_arg s1 = (Ok (_function_arg (self s1)), s1).
Proof.
  intros H. rewrite function_arg_unfold.
  destruct (_original_val (self s)) as [f|e|c|o] eqn:Ho.
  - apply getter_not_expression. intros e.
    apply function_arg_setter_frame in H as (_ & -> & _). congruence.
  - rewrite function_arg_setter_expression in H. inversion H; subst; clear H.
    apply getter_current with (e := e); simpl; auto.
  - apply getter_not_expression. intros e.
    apply function_arg_setter_frame in H as (_ & -> & _). congruence.
  - apply getter_not_expression. intros e.
    apply function_arg_setter_frame in H as (_ & -> & _). congruence.
Qed.

(** The Active state is what every read of the property leaves behind. *)
Lemma function_arg_active (s s' : State) (v : Value) :
  active (self s) ->
  function_arg s = (Ok v, s') ->
  active (self s') /\ v = _function_arg (self s').
Proof.
  intros [Hz Ha]. rewrite function_arg_unfold.
  destruct (_original_val (self s)) as [f|e|c|o] eqn:Ho.
  1,3,4: rewrite getter_not_expression by (intros e; congruence);
    intros H; inversion H; subst; (split; [split; assumption | reflexivity]).
  destruct (_expression_state (self s)) as [st|] eqn:He.
  - destruct (decide (_state (expressions (world s) e) = st)) as [E|E].
    + rewrite getter_current with (e := e) by congruence.
      intros H; inversion H; subst; (split; [split; assumption | reflexivity]).
    + rewrite (getter_stale _ s e st Ho Hz He E).
      intros H; inversion H; subst. simpl. repeat split.
  - simpl. unfold bind, get_self, get_world, raise. simpl.
    rewrite Ho, Hz, He. simpl. discriminate.
Qed.

Lemma DirichletBC_restore_active (s : State) :
  exists s', DirichletBC_restore s = (Ok tt, s') /\ active (self s').
Proof. eexists. split; [reflexivity|]. split; reflexivity. Qed.

(** A constructed DirichletBC is Active, on the space and sub-domain it
    was given, with the method topological and nothing cached. *)
Lemma DirichletBC_init_inv (V : FunctionSpace) (g : Value) (sd : SubDomain)
    (meth : string) (w w' : World) (bc : DirichletBC) :
  DirichletBC_init V g sd meth w = (Ok bc, w') ->
  active bc /\ constructible V /\ function_space bc = V
  /\ sub_domain (base bc) = sd /\ method (base bc) = "topological"
  /\ caches_consistent (base bc) /\ _original_val bc = g.
Proof.
  unfold DirichletBC_init.
  destruct (BCBase_init V sd "topological") as [b|e] eqn:Hb; [|discriminate].
  pose proof (BCBase_init_consistent _ _ _ _ Hb) as Hc.
  apply BCBase_init_inv in Hb as (HV & _ & Hfs & Hsd & Hm & _).
  set (s0 := mkState (mkDirichletBC b g g g false None) w).
  unfold bind at 1.
  destruct (function_arg_setter g s0) as [[[]|e] s1] eqn:Hs; [|discriminate].
  pose proof (function_arg_setter_frame _ _ _ Hs) as (Hb1 & Ho1 & _).
  unfold bind at 1.
  rewrite (function_arg_after_setter s0 s1) by exact Hs.
  unfold bind, modify_self. simpl. intros H. inversion H; subst; clear H.
  simpl. unfold active, function_space. simpl. rewrite Hb1. simpl.
  split; [split; reflexivity|]. split; [exact HV|].
  split; [reflexivity|]. split; [reflexivity|]. split; [exact Hm|].
  split; [exact Hc | exact Ho1].
Qed.

(** Construction with the literal 0 stores it unresolved and touches
    nothing outside the new object. *)
Lemma DirichletBC_init_zero (V : FunctionSpace) (sd : SubDomain) (meth : string)
    (w : World) (b : BCBase) :
  BCBase_init V sd "topological" = Ok b ->
  DirichletBC_init V (VUfl (PyInt 0)) sd meth w =
    (Ok (mkDirichletBC b (VUfl (PyInt 0)) (VUfl (PyInt 0)) (VUfl (PyInt 0))
           false None), w).
Proof.
  intros Hb. unfold DirichletBC_init. rewrite Hb.
  unfold bind at 1. rewrite function_arg_setter_int. cbv beta iota zeta.
  unfold bind at 1. rewrite function_arg_unfold.
  rewrite getter_not_expression by (intros e; simpl; discriminate).
  reflexivity.
Qed.

(** With an original value that is not an Expression, [set_value(v)]
    stores the resolution of [v] as current value and restore point. *)
Lemma set_value_without_expression (s s1 : State) (v : Value) :
  (forall e, _original_val (self s) <> VExpression e) ->
  function_arg_setter v s = (Ok tt, s1) ->
  DirichletBC_set_value v s =
    (Ok tt,
     mkState (set_original_val v (set_original_arg (_function_arg (self s1)) (self s1)))
       (world s1)).
Proof.
  intros Hne Hs. unfold DirichletBC_set_value.
  unfold bind at 1. rewrite Hs. unfold bind at 1. rewrite function_arg_unfold.
  rewrite getter_not_expression.
  - reflexivity.
  - intros e. apply function_arg_setter_frame in Hs as (_ & -> & _). apply Hne.
Qed.

(** The getter by its own test.  With an Expression as original value:
    a read of [function_arg] while not homogenized and with [_state]
    different from the recorded [_expression_state] resolves the
    Expression again, stores the new field both as current value and as
    restore point, so that [restore()] followed by a read gives the new
    field; a read while homogenized returns the stored value and changes
    nothing. *)
Lemma function_arg_reresolves_and_moves_restore_point (s : State) (e : loc) :
  _original_val (self s) = VExpression e ->
  let bc := self s in
  let w := world s in
  let cur := expressions w e in
  let g := VFunction (mkFunction (function_space bc) (length (dats w)) []) in
  (forall st,
     _currently_zeroed bc = false ->
     _expression_state bc = Some st ->
     _state cur <> st ->
     exists s',
       function_arg s = (Ok g, s')
       /\ dats (world s')
          = dats w ++ [resolution (dats w) (function_space bc) (SrcExpression cur)]
       /\ expressions (world s') = expressions w
       /\ _function_arg (self s') = g
       /\ _original_arg (self s') = g
       /\ _expression_state (self s') = Some (_state cur)
       /\ _currently_zeroed (self s') = false
       /\ bind DirichletBC_restore (fun _ => function_arg) s' = (Ok g, s'))
  /\ (_currently_zeroed bc = true -> function_arg s = (Ok (_function_arg bc), s)).
Proof.
  intros Ho bc w cur g. split.
  - intros st Hz He Hne. eexists. split.
    + rewrite function_arg_unfold. apply (getter_stale _ s e st Ho Hz He Hne).
    + simpl. repeat split.
      unfold bind, DirichletBC_restore, modify_self. simpl.
      rewrite function_arg_unfold.
      rewrite getter_current with (e := e) by (simpl; auto). reflexivity.
  - intros Hz. rewrite function_arg_unfold. apply getter_zeroed. exact Hz.
Qed.

(** C2 (as amended).  [homogenize()] stores the literal 0 as current
    value, sets the flag, and leaves the restore point and the original
    value alone; [restore()] copies the restore point into the current
    value and clears the flag, whatever the state; and from the Active
    state the pair [homogenize(); restore()] gives back the very state it
    started from, so every later read of the value is the read that would
    have been made before. *)
Theorem homogenize_restore_round_trip (s : State) :
  (exists s1, DirichletBC_homogenize s = (Ok tt, s1)
     /\ _original_arg (self s1) = _original_arg (self s)
     /\ _original_val (self s1) = _original_val (self s)
     /\ _function_arg (self s1) = VUfl (PyInt 0)
     /\ _currently_zeroed (self s1) = true
     /\ world s1 = world s)
  /\ (exists s2, DirichletBC_restore s = (Ok tt, s2)
     /\ _function_arg (self s2) = _original_arg (self s)
     /\ _original_arg (self s2) = _original_arg (self s)
     /\ _currently_zeroed (self s2) = false
     /\ world s2 = world s)
  /\ (active (self s) ->
      bind DirichletBC_homogenize (fun _ => DirichletBC_restore) s = (Ok tt, s)
      /\ bind DirichletBC_homogenize
           (fun _ => bind DirichletBC_restore (fun _ => function_arg)) s
         = function_arg s).
Proof.
  split; [|split].
  - eexists. split; [reflexivity|]. simpl. repeat split.
  - eexists. split; [reflexivity|]. simpl. repeat split.
  - intros [Hz Ha].
    assert (H : bind DirichletBC_homogenize (fun _ => DirichletBC_restore) s
                = (Ok tt, s)).
    { destruct s as [[b ov fa oa z es] w]. simpl in Hz, Ha. subst z fa.
      reflexivity. }
    split; [exact H|].
    unfold bind at 1 in H. unfold bind at 1.
    destruct (DirichletBC_homogenize s) as [[[]|ex] s1]; [|discriminate].
    unfold bind at 1. rewrite H. reflexivity.
Qed.

(** *** The module-level homogenize *)

Lemma homogenize_single (bc : DirichletBC) (w : World) :
  constructible (function_space bc) ->
  exists b,
    BCBase_init (function_space bc) (sub_domain (base bc)) "topological" = Ok b
    /\ _function_space b = function_space bc
    /\ sub_domain b = sub_domain (base bc)
    /\ homogenize (ABC bc) w =
         (Ok (RBC (mkDirichletBC b (VUfl (PyInt 0)) (VUfl (PyInt 0))
                     (VUfl (PyInt 0)) false None)), w).
Proof.
  intros Hc.
  destruct (BCBase_init_ok (function_space bc) (sub_domain (base bc))
              "topological" Hc) as (b & Hb & Hfs & Hsd & _).
  { apply list_elem_of_here. }
  exists b. repeat split; try assumption.
  simpl. unfold bind. rewrite (DirichletBC_init_zero _ _ _ _ _ Hb). reflexivity.
Qed.

(** C7. [homogenize] of one DirichletBC returns one DirichletBC on the
    same function space and sub-domain whose value is the literal 0;
    [homogenize] of a list of N of them returns the list of their N
    homogeneous versions, in the order of the input. *)
Theorem homogenize_preserves_shape_and_order :
  (forall (bc : DirichletBC) (w : World),
     constructible (function_space bc) ->
     exists h, homogenize (ABC bc) w = (Ok (RBC h), w)
       /\ function_space h = function_space bc
       /\ sub_domain (base h) = sub_domain (base bc)
       /\ _original_val h = VUfl (PyInt 0)
       /\ _function_arg h = VUfl (PyInt 0)
       /\ _original_arg h = VUfl (PyInt 0)
       /\ _currently_zeroed h = false)
  /\ (forall (bcs : list DirichletBC) (w : World),
     Forall (fun bc => constructible (function_space bc)) bcs ->
     exists hs, homogenize (AIter (ABC <$> bcs)) w = (Ok (RList (RBC <$> hs)), w)
       /\ length hs = length bcs
       /\ forall i bc, bcs !! i = Some bc ->
            exists h, hs !! i = Some h
              /\ homogenize (ABC bc) w = (Ok (RBC h), w)).
Proof.
  split.
  - intros bc w Hc.
    destruct (homogenize_single bc w Hc) as (b & _ & Hfs & Hsd & Hh).
    eexists. split; [exact Hh|]. unfold function_space. simpl.
    repeat split; assumption.
  - intros bcs w Hall.
    enough (H : exists hs,
      (fix comprehension (l : list BCArg) : M World (list BCRes) :=
         match l with
         | [] => ret []
         | i :: rest =>
             bind (homogenize i) (fun h =>
             bind (comprehension rest) (fun hs => ret (h :: hs)))
         end) (ABC <$> bcs) w = (Ok (RBC <$> hs), w)
      /\ length hs = length bcs
      /\ forall i bc, bcs !! i = Some bc ->
           exists h, hs !! i = Some h
             /\ homogenize (ABC bc) w = (Ok (RBC h), w)).
    { destruct H as (hs & Hc & Hl & Hi). exists hs.
      split; [|split; assumption].
      change (homogenize (AIter (ABC <$> bcs)) w) with
        (match (fix comprehension (l : list BCArg) : M World (list BCRes) :=
           match l with
           | [] => ret []
           | i :: rest =>
               bind (homogenize i) (fun h =>
               bind (comprehension rest) (fun hs => ret (h :: hs)))
           end) (ABC <$> bcs) w with
         | (Raise TypeError, w') => (Raise AttributeError, w')
         | (Ok hs, w') => (Ok (RList hs), w')
         | (Raise e, w') => (Raise e, w')
         end).
      rewrite Hc. reflexivity. }
    induction Hall as [|bc bcs Hbc Hall IH].
    + exists []. split; [reflexivity|]. split; [reflexivity|].
      intros i bc Hi. destruct i; discriminate.
    + destruct IH as (hs & Hc & Hl & Hi).
      destruct (homogenize_single bc w Hbc) as (b & _ & _ & _ & Hh).
      eexists (_ :: hs). split; [|split].
      * rewrite fmap_cons. unfold bind at 1. rewrite Hh.
        unfold bind at 1. rewrite Hc. reflexivity.
      * simpl. rewrite Hl. reflexivity.
      * intros [|i] bc' Hi'; simpl in Hi'.
        -- injection Hi' as <-. eexists. split; [reflexivity | exact Hh].
        -- apply Hi, Hi'.
Qed.

End FieldProperties.

(** ** Properties of Function.sub and Function.assign *)

Lemma strip_prefix_app (p q : list nat) : strip_prefix p (p ++ q) = Some q.
Proof.
  induction p as [|i p IH]; simpl; [reflexivity|].
  rewrite bool_decide_eq_true_2 by reflexivity. exact IH.
Qed.

Lemma strip_prefix_Some (p a q : list nat) :
  strip_prefix p a = Some q -> a = p ++ q.
Proof.
  revert a. induction p as [|i p IH]; intros a; simpl.
  - intros H. injection H as ->. reflexivity.
  - destruct a as [|j a]; [discriminate|].
    destruct (bool_decide (i = j)) eqn:E; [|discriminate].
    apply bool_decide_eq_true in E. subst j. intros H. f_equal. apply IH, H.
Qed.

Lemma strip_prefix_None (p a : list nat) :
  strip_prefix p a = None -> forall q, a <> p ++ q.
Proof.
  intros H q ->. rewrite strip_prefix_app in H. discriminate.
Qed.

Lemma children_result_spec {A B} (f : nat -> A -> result B) (i : nat)
    (cs : list A) (cs' : list B) :
  children_result f i cs = Ok cs' ->
  length cs' = length cs
  /\ forall j c, cs !! j = Some c ->
       exists c', cs' !! j = Some c' /\ f (i + j) c = Ok c'.
Proof.
  revert i cs'. induction cs as [|c cs IH]; intros i cs'; simpl.
  - intros H. injection H as <-. split; [reflexivity|]. intros j c H. discriminate.
  - destruct (f i c) as [c1|e] eqn:Hc; simpl; [|discriminate].
    destruct (children_result f (S i) cs) as [rest|e] eqn:Hr; simpl; [|discriminate].
    intros H. injection H as <-. destruct (IH _ _ Hr) as [Hl Hj].
    split; [simpl; congruence|].
    intros [|j] c0 H0; simpl in H0.
    + injection H0 as <-. exists c1. rewrite Nat.add_0_r. split; [reflexivity | exact Hc].
    + destruct (Hj j c0 H0) as (c' & H1 & H2). exists c'. split; [exact H1|].
      replace (i + S j) with (S i + j) by lia. exact H2.
Qed.

Lemma children_result_ok {A B} (f : nat -> A -> result B) (i : nat) (cs : list A) :
  (forall j c, cs !! j = Some c -> exists c', f (i + j) c = Ok c') ->
  exists cs', children_result f i cs = Ok cs'.
Proof.
  revert i. induction cs as [|c cs IH]; intros i H; simpl.
  - eexists; reflexivity.
  - destruct (H 0 c eq_refl) as (c' & Hc). rewrite Nat.add_0_r in Hc. rewrite Hc.
    destruct (IH (S i)) as (rest & Hr).
    { intros j c0 H0. replace (S i + j) with (i + S j) by lia. apply (H (S j)), H0. }
    rewrite Hr. eexists; reflexivity.
Qed.

Section AssignProperties.
Context `{FC : FieldCollaborators}.

Lemma Dat_nested_ind (P : Dat val -> Prop) :
  (forall vs, P (DLeaf vs)) ->
  (forall ds, Forall P ds -> P (DNode ds)) ->
  forall d, P d.
Proof.
  intros Hl Hn. fix IH 1. intros [vs|ds].
  - apply Hl.
  - apply Hn. induction ds as [|c cs IHcs]; constructor; [apply IH | exact IHcs].
Qed.

Lemma dat_entry_leaf (vs : list val) (p : list nat) (n : nat) :
  dat_entry (DLeaf vs) p n = match p with [] => vs !! n | _ :: _ => None end.
Proof. destruct p; reflexivity. Qed.

Lemma dat_entry_node (ds : list (Dat val)) (p : list nat) (n : nat) :
  dat_entry (DNode ds) p n =
    match p with
    | [] => None
    | j :: p' => match ds !! j with Some c => dat_entry c p' n | None => None end
    end.
Proof.
  destruct p as [|j p']; [reflexivity|]. unfold dat_entry. simpl.
  destruct (ds !! j); reflexivity.
Qed.

Lemma dat_entry_sub (d sub : Dat val) (p q : list nat) (n : nat) :
  dat_sub d p = Some sub -> dat_entry d (p ++ q) n = dat_entry sub q n.
Proof.
  revert d. induction p as [|i p IH]; intros d; simpl.
  - intros H. injection H as ->. reflexivity.
  - destruct d as [vs|ds]; [discriminate|].
    destruct (ds !! i) as [c|] eqn:E; [|discriminate].
    intros H. rewrite dat_entry_node, E. apply IH, H.
Qed.

Lemma leaf_assign_spec (rhs : nat -> option val) (nodes : list nat)
    (vs vs' : list val) :
  leaf_assign rhs nodes vs = Ok vs' ->
  length vs' = length vs
  /\ forall n, vs' !! n =
       match vs !! n with
       | Some old => if decide (n ∈ nodes) then rhs n else Some old
       | None => None
       end.
Proof.
  revert vs. induction nodes as [|m nodes IH]; intros vs; simpl.
  - intros H. injection H as <-. split; [reflexivity|].
    intros n. destruct (vs !! n); [|reflexivity].
    destruct (decide (n ∈ [])) as [Hin|]; [|reflexivity].
    apply not_elem_of_nil in Hin. contradiction.
  - destruct (bool_decide (m < length vs)) eqn:Hm; [|discriminate].
    apply bool_decide_eq_true in Hm.
    destruct (rhs m) as [v|] eqn:Hv; [|discriminate].
    intros H. destruct (IH _ H) as [Hl Hn]. rewrite length_insert in Hl.
    split; [exact Hl|]. intros n. rewrite Hn.
    destruct (decide (n = m)) as [->|Hne].
    + rewrite list_lookup_insert_eq by exact Hm.
      destruct (lookup_lt_is_Some_2 vs m Hm) as [old Hold]. rewrite Hold.
      rewrite (decide_True (P := m ∈ m :: nodes)) by apply list_elem_of_here.
      destruct (decide (m ∈ nodes)); congruence.
    + rewrite list_lookup_insert_ne by congruence.
      destruct (vs !! n); [|reflexivity].
      destruct (decide (n ∈ nodes)) as [Hin|Hin].
      * rewrite decide_True by (apply list_elem_of_further; exact Hin). reflexivity.
      * rewrite decide_False; [reflexivity|].
        intros Hc. apply elem_of_cons in Hc as [Hc|Hc]; contradiction.
Qed.

Lemma leaf_assign_ok (rhs : nat -> option val) (nodes : list nat) (vs : list val) :
  (forall n, n ∈ nodes -> n < length vs /\ is_Some (rhs n)) ->
  exists vs', leaf_assign rhs nodes vs = Ok vs'.
Proof.
  revert vs. induction nodes as [|m nodes IH]; intros vs H; simpl.
  - eexists; reflexivity.
  - destruct (H m) as [Hm [v Hv]]; [apply list_elem_of_here|].
    rewrite bool_decide_eq_true_2 by exact Hm. rewrite Hv.
    apply IH. intros n Hn. rewrite length_insert. apply H.
    apply list_elem_of_further, Hn.
Qed.

Lemma dat_assign_spec (rhs : list nat -> nat -> option val) (nodes : list nat)
    (d : Dat val) :
  forall q d', dat_assign rhs nodes q d = Ok d' ->
  forall p n, dat_entry d' p n =
    match dat_entry d p n with
    | Some old => if decide (n ∈ nodes) then rhs (q ++ p) n else Some old
    | None => None
    end.
Proof.
  induction d as [vs|ds IH] using Dat_nested_ind; intros q d'; simpl.
  - destruct (leaf_assign (rhs q) nodes vs) as [vs'|e] eqn:Hl; simpl; [|discriminate].
    intros H. injection H as <-. intros p n. rewrite !dat_entry_leaf.
    destruct p as [|j p]; [|reflexivity].
    rewrite app_nil_r. apply (leaf_assign_spec _ _ _ _ Hl).
  - destruct (children_result _ 0 ds) as [ds'|e] eqn:Hc; simpl; [|discriminate].
    intros H. injection H as <-. intros p n. rewrite !dat_entry_node.
    destruct p as [|j p]; [reflexivity|].
    destruct (children_result_spec _ _ _ _ Hc) as [Hlen Hj].
    destruct (ds !! j) as [c|] eqn:E.
    + destruct (Hj j c E) as (c' & Hc' & Ha). rewrite Hc'. simpl in Ha.
      rewrite Forall_forall in IH.
      rewrite (IH c (list_elem_of_lookup_2 _ _ _ E) _ _ Ha).
      rewrite <- app_assoc. reflexivity.
    + apply lookup_ge_None in E. rewrite <- Hlen in E.
      apply lookup_ge_None in E. rewrite E. reflexivity.
Qed.

Lemma dat_assign_ok (rhs : list nat -> nat -> option val) (nodes : list nat)
    (d : Dat val) :
  forall q,
    (forall p vs, dat_sub d p = Some (DLeaf vs) ->
       forall n, n ∈ nodes -> n < length vs /\ is_Some (rhs (q ++ p) n)) ->
    exists d', dat_assign rhs nodes q d = Ok d'.
Proof.
  induction d as [vs|ds IH] using Dat_nested_ind; intros q H; simpl.
  - destruct (leaf_assign_ok (rhs q) nodes vs) as (vs' & Hl).
    { intros n Hn. specialize (H [] vs eq_refl n Hn). rewrite app_nil_r in H. exact H. }
    rewrite Hl. eexists; reflexivity.
  - destruct (children_result_ok
                (fun i c => dat_assign rhs nodes (q ++ [i]) c) 0 ds) as (ds' & Hc).
    { intros j c E. simpl. rewrite Forall_forall in IH.
      apply (IH c (list_elem_of_lookup_2 _ _ _ E)).
      intros p vs Hp n Hn. rewrite <- app_assoc. apply (H (j :: p) vs); [|exact Hn].
      simpl. rewrite E. exact Hp. }
    rewrite Hc. eexists; reflexivity.
Qed.

Lemma dat_update_spec (f : Dat val -> result (Dat val)) (p : list nat) :
  forall d d', dat_update f p d = Ok d' ->
  exists sub sub',
    dat_sub d p = Some sub /\ f sub = Ok sub'
    /\ forall a n, dat_entry d' a n =
         match strip_prefix p a with
         | Some q => dat_entry sub' q n
         | None => dat_entry d a n
         end.
Proof.
  induction p as [|i p IH]; intros d d'; simpl.
  - intros H. exists d, d'. split; [reflexivity|]. split; [exact H|]. reflexivity.
  - destruct d as [vs|ds]; [discriminate|].
    destruct (ds !! i) as [c|] eqn:E; [|discriminate].
    destruct (dat_update f p c) as [c'|e] eqn:Hu; simpl; [|discriminate].
    intros H. injection H as <-.
    destruct (IH _ _ Hu) as (sub & sub' & Hs & Hf & Ha).
    exists sub, sub'. split; [exact Hs|]. split; [exact Hf|].
    intros a n. rewrite !dat_entry_node. destruct a as [|j a]; [reflexivity|].
    destruct (bool_decide (i = j)) eqn:Hij.
    + apply bool_decide_eq_true in Hij. subst j.
      rewrite list_lookup_insert_eq by (apply lookup_lt_is_Some_1; eauto).
      rewrite E. apply Ha.
    + apply bool_decide_eq_false in Hij.
      rewrite list_lookup_insert_ne by exact Hij. reflexivity.
Qed.

Lemma dat_update_ok (f : Dat val -> result (Dat val)) (p : list nat) :
  forall d sub sub', dat_sub d p = Some sub -> f sub = Ok sub' ->
  exists d', dat_update f p d = Ok d'.
Proof.
  induction p as [|i p IH]; intros d sub sub'; simpl.
  - intros H Hf. injection H as ->. eauto.
  - destruct d as [vs|ds]; [discriminate|].
    destruct (ds !! i) as [c|] eqn:E; [|discriminate].
    intros H Hf. destruct (IH _ _ _ H Hf) as (c' & Hc). rewrite Hc. simpl. eauto.
Qed.

End AssignProperties.

(** ** Properties of DirichletBC.apply *)

Section ApplyProperties.
Context `{FC : FieldCollaborators}.

Lemma entry_insert (ds : list (Dat val)) (l l' : loc) (d' : Dat val)
    (a : list nat) (n : nat) :
  l < length ds ->
  entry (<[l := d']> ds) l' a n =
    if decide (l' = l) then dat_entry d' a n else entry ds l' a n.
Proof.
  intros Hl. unfold entry. destruct (decide (l' = l)) as [->|Hne].
  - rewrite list_lookup_insert_eq by exact Hl. reflexivity.
  - rewrite list_lookup_insert_ne by congruence. reflexivity.
Qed.


Lemma Function_assign_spec (s : State) (r : Function) (e : AssignExpr)
    (subset : Subset) :
  superset subset = node_set (fn_space r) ->
  target_fits (dats (world s)) r (subset_indices subset) e ->
  exists s', Function_assign r e subset s = (Ok tt, s')
    /\ self s' = self s
    /\ expressions (world s') = expressions (world s)
    /\ matrices (world s') = matrices (world s)
    /\ forall l a n, entry (dats (world s')) l a n =
         match entry (dats (world s)) l a n with
         | None => None
         | Some old =>
             if decide (l = fn_dat r) then
               match strip_prefix (fn_path r) a with
               | Some q =>
                   if decide (n ∈ subset_indices subset)
                   then eval_assign (dats (world s)) e q n else Some old
               | None => Some old
               end
             else Some old
         end.
Proof.
  intros Hss (d & sub & Hd & Hsub & Hfit).
  destruct (dat_assign_ok (eval_assign (dats (world s)) e) (subset_indices subset)
              sub []) as (sub' & Ha).
  { intros p vs Hp n Hn. simpl. apply (Hfit p vs Hp n Hn). }
  destruct (dat_update_ok _ _ _ _ _ Hsub Ha) as (d' & Hu).
  unfold Function_assign, bind, get_world, lift_result, put_world. simpl.
  rewrite Hd.
  rewrite bool_decide_eq_false_2 by (intros Hn; apply Hn, Hss).
  rewrite Hu. eexists. split; [reflexivity|]. simpl.
  split; [reflexivity|]. split; [reflexivity|]. split; [reflexivity|].
  intros l a n.
  rewrite entry_insert by (apply lookup_lt_is_Some_1; eauto).
  destruct (dat_update_spec _ _ _ _ Hu) as (sub0 & sub0' & Hs0 & Hf0 & He).
  rewrite Hsub in Hs0. injection Hs0 as <-. rewrite Ha in Hf0. injection Hf0 as <-.
  destruct (decide (l = fn_dat r)) as [->|Hne].
  - unfold entry. rewrite Hd. rewrite He.
    destruct (strip_prefix (fn_path r) a) as [q|] eqn:Hq.
    + apply strip_prefix_Some in Hq. subst a.
      rewrite (dat_entry_sub _ _ _ _ _ Hsub).
      rewrite (dat_assign_spec _ _ _ _ _ Ha). reflexivity.
    + destruct (dat_entry d a n); reflexivity.
  - destruct (entry (dats (world s)) l a n); reflexivity.
Qed.

(** *** The index loops *)

Lemma dat_sub_app (d : Dat val) (p q : list nat) :
  dat_sub d (p ++ q) =
    match dat_sub d p with
    | Some sub => dat_sub sub q
    | None => None
    end.
Proof.
  revert d. induction p as [|i p IH]; intros d; simpl; [reflexivity|].
  destruct d as [vs|cs]; [reflexivity|].
  destruct (cs !! i); [apply IH | reflexivity].
Qed.

Lemma view_at_nil (f : Function) : view_at f [] = f.
Proof. destruct f. unfold view_at. simpl. rewrite app_nil_r. reflexivity. Qed.

Lemma view_at_cons (f : Function) (i : nat) (p : list nat) :
  view_at (view_at f [i]) p = view_at f (i :: p).
Proof. unfold view_at. simpl. rewrite <- app_assoc. reflexivity. Qed.

(** Where the data has all the sub-fields that [idxs] names, the walk
    takes [idxs] itself. *)
Lemma index_walk_full (idxs : list nat) :
  forall d : Dat val, is_Some (dat_sub d idxs) -> index_walk d idxs = Some idxs.
Proof.
  induction idxs as [|i idxs IH]; intros d; simpl; [reflexivity|].
  destruct d as [vs|cs]; [intros [x Hx]; discriminate|].
  destruct (cs !! i) as [c|]; [|intros [x Hx]; discriminate].
  intros H. rewrite (IH c H). reflexivity.
Qed.

Lemma Function_sub_raises (ds : list (Dat val)) (f : Function) (i : nat) (e : PyExc) :
  Function_sub ds f i = Raise e -> e = IndexError.
Proof.
  unfold Function_sub. destruct (ds !! fn_dat f); [|congruence].
  destruct (dat_sub _ _) as [[vs|cs]|]; [| |congruence].
  - destruct (bool_decide (i = 0)); congruence.
  - destruct (cs !! i); congruence.
Qed.

(** The index loops raise nothing but IndexError. *)
Lemma apply_indices_raises (ds : list (Dat val)) (idxs : list nat) :
  forall r u e, apply_indices ds idxs r u = Raise e -> e = IndexError.
Proof.
  induction idxs as [|i idxs IH]; intros r u e; simpl; [discriminate|].
  destruct (Function_sub ds r i) as [r1|e1] eqn:Hr; simpl.
  - destruct u as [u0|]; simpl.
    + destruct (Function_sub ds u0 i) as [u1|e2] eqn:Hu; simpl.
      * apply IH.
      * intros H. injection H as <-. apply (Function_sub_raises _ _ _ _ Hu).
    + apply IH.
  - intros H. injection H as <-. apply (Function_sub_raises _ _ _ _ Hr).
Qed.

(** The loop over one field follows [index_walk] on its data. *)
Lemma apply_indices_walk (ds : list (Dat val)) (idxs : list nat) :
  forall (f : Function) (d sub : Dat val),
    ds !! fn_dat f = Some d ->
    dat_sub d (fn_path f) = Some sub ->
    apply_indices ds idxs f None =
      match index_walk sub idxs with
      | Some p => Ok (view_at f p, None)
      | None => Raise IndexError
      end.
Proof.
  induction idxs as [|i idxs IH]; intros f d sub Hd Hsub.
  - simpl. rewrite view_at_nil. reflexivity.
  - cbn [apply_indices index_walk]. unfold Function_sub. rewrite Hd, Hsub.
    destruct sub as [vs|cs].
    + destruct (bool_decide (i = 0)); cbn [result_bind]; [|reflexivity].
      apply (IH f d (DLeaf vs) Hd Hsub).
    + destruct (cs !! i) as [c|] eqn:Hc; cbn [result_bind]; [|reflexivity].
      change (mkFunction (sub_space (fn_space f) i) (fn_dat f) (fn_path f ++ [i]))
        with (view_at f [i]).
      rewrite (IH (view_at f [i]) d c).
      * destruct (index_walk c idxs) as [p|]; [|reflexivity].
        rewrite view_at_cons. reflexivity.
      * exact Hd.
      * cbn [view_at fn_path]. rewrite dat_sub_app, Hsub. simpl. rewrite Hc.
        reflexivity.
Qed.

(** The loop over [r] and [u] is the loop over each of them. *)
Lemma apply_indices_pair (ds : list (Dat val)) (idxs : list nat) :
  forall r u0,
    apply_indices ds idxs r (Some u0) =
      match apply_indices ds idxs r None, apply_indices ds idxs u0 None with
      | Ok (r', _), Ok (u', _) => Ok (r', Some u')
      | _, _ => Raise IndexError
      end.
Proof.
  induction idxs as [|i idxs IH]; intros r u0; [reflexivity|].
  cbn [apply_indices].
  destruct (Function_sub ds r i) as [r1|e1] eqn:Hr; cbn [result_bind].
  - destruct (Function_sub ds u0 i) as [u1|e2] eqn:Hu; cbn [result_bind].
    + apply IH.
    + apply Function_sub_raises in Hu. subst e2.
      destruct (apply_indices ds idxs r1 None) as [[r' o]|e]; reflexivity.
  - apply Function_sub_raises in Hr. subst e1. reflexivity.
Qed.

(** Where the data of [r] (and of [u]) has the sub-fields, the loop of
    [apply] returns the views of them; where it lacks one, IndexError. *)
Lemma apply_indices_defined (ds : list (Dat val)) (idxs : list nat)
    (r : Function) (u : option Function) (p pu : list nat) :
  has_subfields ds r idxs p ->
  (forall u0, u = Some u0 -> has_subfields ds u0 idxs pu) ->
  apply_indices ds idxs r u =
    Ok (view_at r p,
        match u with Some u0 => Some (view_at u0 pu) | None => None end).
Proof.
  intros (d & sub & Hd & Hsub & Hw) Hu. destruct u as [u0|].
  - destruct (Hu u0 eq_refl) as (du & subu & Hdu & Hsubu & Hwu).
    rewrite apply_indices_pair.
    rewrite (apply_indices_walk _ _ _ _ _ Hd Hsub), Hw.
    rewrite (apply_indices_walk _ _ _ _ _ Hdu Hsubu), Hwu. reflexivity.
  - rewrite (apply_indices_walk _ _ _ _ _ Hd Hsub), Hw. reflexivity.
Qed.


(** A read of the property either changes nothing or appends one
    newly resolved field to the store. *)
Lemma function_arg_frame (s s1 : State) (g : Value) :
  function_arg s = (Ok g, s1) ->
  g = _function_arg (self s1)
  /\ base (self s1) = base (self s)
  /\ expressions (world s1) = expressions (world s)
  /\ matrices (world s1) = matrices (world s)
  /\ _currently_zeroed (self s1) = _currently_zeroed (self s)
  /\ exists extra, dats (world s1) = dats (world s) ++ extra.
Proof.
  rewrite function_arg_unfold.
  assert (Hsame : (Ok (_function_arg (self s)), s) = (Ok g, s1) ->
    g = _function_arg (self s1) /\ base (self s1) = base (self s)
    /\ expressions (world s1) = expressions (world s)
    /\ matrices (world s1) = matrices (world s)
    /\ _currently_zeroed (self s1) = _currently_zeroed (self s)
    /\ exists extra, dats (world s1) = dats (world s) ++ extra).
  { intros H. inversion H; subst. repeat split. exists []. rewrite app_nil_r.
    reflexivity. }
  destruct (_original_val (self s)) as [f|e|c|o] eqn:Ho.
  1,3,4: rewrite getter_not_expression by (intros e; congruence); exact Hsame.
  destruct (_currently_zeroed (self s)) eqn:Hz.
  { rewrite getter_zeroed by exact Hz. exact Hsame. }
  destruct (_expression_state (self s)) as [st|] eqn:He.
  - destruct (decide (_state (expressions (world s) e) = st)) as [E|E].
    + rewrite getter_current with (e := e) by congruence. exact Hsame.
    + rewrite (getter_stale _ s e st Ho Hz He E).
      intros H; inversion H; subst. simpl. repeat split. eexists. reflexivity.
  - simpl. unfold bind, get_self, get_world, raise. simpl.
    rewrite Ho, Hz, He. simpl. discriminate.
Qed.

(** A read of the property returns whenever the recorded Expression
    state exists in the cases where the getter looks at it. *)
Lemma function_arg_total (s : State) :
  (forall e, _original_val (self s) = VExpression e ->
             _currently_zeroed (self s) = false ->
             is_Some (_expression_state (self s))) ->
  exists g s1, function_arg s = (Ok g, s1).
Proof.
  intros H. rewrite function_arg_unfold.
  destruct (_original_val (self s)) as [f|e|c|o] eqn:Ho.
  1,3,4: rewrite getter_not_expression by (intros e; congruence); eauto.
  destruct (_currently_zeroed (self s)) eqn:Hz.
  { rewrite getter_zeroed by exact Hz. eauto. }
  destruct (H e eq_refl eq_refl) as [st He].
  destruct (decide (_state (expressions (world s) e) = st)) as [E|E].
  - rewrite getter_current with (e := e) by congruence. eauto.
  - rewrite (getter_stale _ s e st Ho Hz He E). eauto.
Qed.

(** [set_value] ends in the Active state. *)
Lemma DirichletBC_set_value_active (v : Value) (s s' : State) :
  DirichletBC_set_value v s = (Ok tt, s') -> active (self s').
Proof.
  unfold DirichletBC_set_value. unfold bind at 1.
  destruct (function_arg_setter v s) as [[[]|e] s1] eqn:Hs; [|discriminate].
  apply function_arg_setter_frame in Hs as (_ & _ & _ & Hz & _).
  unfold bind at 1.
  destruct (function_arg s1) as [[a|e] s2] eqn:Hg; [|discriminate].
  apply function_arg_frame in Hg as (Ha & _ & _ & _ & Hz2 & _).
  unfold bind, modify_self. simpl. intros H. inversion H; subst; clear H.
  split; simpl; [congruence | reflexivity].
Qed.

Lemma node_set_property_spec (s : State) :
  caches_consistent (base (self s)) ->
  exists b',
    node_set_property s =
      (Ok (mkSubset (node_set (function_space (self s)))
             (expected_nodes (base (self s)))),
       mkState (set_base b' (self s)) (world s))
    /\ caches_consistent b'
    /\ _function_space b' = function_space (self s)
    /\ _indices b' = _indices (base (self s)).
Proof.
  intros Hc. destruct (BCBase_node_set_spec _ Hc) as (H1 & H2 & H3 & _ & _ & H6).
  unfold node_set_property, bind, get_self, modify_self, ret. simpl.
  destruct (BCBase_node_set (base (self s))) as [sb b'] eqn:E. simpl in *.
  exists b'. subst sb. split; [reflexivity|]. split; [exact H2|].
  split; [exact H3 | exact H6].
Qed.


End ApplyProperties.

(** ** Properties of EquationBC and EquationBCSplit *)

Section FormProperties.
Context `{FO : FormCollaborators}.

(** Whatever [method] the caller passes, an EquationBC that is
    constructed stands on the space of the first argument of the left-hand
    side, with the method topological and nothing attached. *)
Lemma EquationBC_init_inv (eq : Equation) (u : Function) (sd : SubDomain)
    (J Jp : option PyVal) (meth : string) (st st' : FormStore) (ebc : EquationBC) :
  EquationBC_init eq u sd J Jp meth st = (Ok ebc, st') ->
  exists V rest,
    arguments st (lhs eq) = Ok (V :: rest)
    /\ BCBase_init V sd "topological" = Ok (ebc_base ebc)
    /\ ebc_u ebc = u /\ ebc_f ebc = None /\ ebc_bcs ebc = None
    /\ ebc_Jp_eq_J ebc = bool_decide (Jp = None).
Proof.
  unfold EquationBC_init. unfold bind at 1. unfold get at 1.
  unfold bind at 1. unfold lift_result at 1.
  destruct (arguments st (lhs eq)) as [[|V rest]|e]; try discriminate.
  unfold bind at 1. unfold lift_result at 1.
  destruct (BCBase_init V sd "topological") as [b|e] eqn:Hb; [|discriminate].
  intros H. exists V, rest. split; [reflexivity|].
  destruct (isinstance_form st (lhs eq) [UflForm]
            && isinstance_form st (rhs eq) [UflForm]).
  - unfold bind at 1 in H.
    destruct (py_or Jp (ret (lhs eq)) st) as [[Jp'|e] st1]; [|discriminate].
    unfold bind at 1 in H.
    match type of H with
    | (let (_, _) := ?m in _) = _ => destruct m as [[F'|e] st2]; [|discriminate]
    end.
    inversion H; subst. simpl. split; [exact Hb|]. repeat split.
  - destruct (negb (is_zero (rhs eq))); [discriminate|].
    destruct (negb (isinstance_form st (lhs eq) [UflForm; SlateTensor]));
      [discriminate|].
    destruct (bool_decide (length (V :: rest) <> 1)); [discriminate|].
    unfold bind at 1 in H.
    destruct (check_bilinear st J st) as [[[]|e] st1]; [|discriminate].
    unfold bind at 1 in H.
    match type of H with
    | (let (_, _) := ?m in _) = _ => destruct m as [[J'|e] st2]; [|discriminate]
    end.
    unfold bind at 1 in H.
    destruct (check_bilinear st Jp st2) as [[[]|e] st3]; [|discriminate].
    unfold bind at 1 in H.
    destruct (py_or Jp (ret J') st3) as [[Jp'|e] st4]; [|discriminate].
    inversion H; subst. simpl. split; [exact Hb|]. repeat split.
Qed.

Lemma EquationBC_init_method (eq : Equation) (u : Function) (sd : SubDomain)
    (J Jp : option PyVal) (meth : string) (st st' : FormStore) (ebc : EquationBC) :
  EquationBC_init eq u sd J Jp meth st = (Ok ebc, st') ->
  method (ebc_base ebc) = "topological"
  /\ constructible (_function_space (ebc_base ebc))
  /\ sub_domain (ebc_base ebc) = sd.
Proof.
  intros H. apply EquationBC_init_inv in H as (V & rest & _ & Hb & _).
  apply BCBase_init_inv in Hb as (Hc & _ & Hfs & Hsd & Hm & _).
  rewrite Hfs. repeat split; try assumption; apply Hc.
Qed.

(** C8. In the nonlinear branch (the two sides are not both [ufl.Form]),
    with neither [J] nor [Jp] given: a right-hand side other than 0 is
    TypeError; a left-hand side with more than one argument is
    ValueError; otherwise the boundary condition is built with [F] the
    left-hand side, [J] a new form object holding
    [derivative(F, u)], [Jp] a reference to that same object,
    [Jp_eq_J] true and [is_linear] false. *)
Theorem EquationBC_nonlinear_defaults (st : FormStore) (l : loc) (r : PyVal)
    (u : Function) (sd : SubDomain) (meth : string) (V : FunctionSpace)
    (rest : list FunctionSpace) (b : BCBase) :
  form_arguments (form_at st l) = V :: rest ->
  BCBase_init V sd "topological" = Ok b ->
  isinstance_form st (PObj l) [UflForm] && isinstance_form st r [UflForm] = false ->
  let init := EquationBC_init (mkEquation (PObj l) r) u sd None None meth st in
  (r <> PNum 0 -> init = (Raise TypeError, st))
  /\ (r = PNum 0 -> rest <> [] -> init = (Raise ValueError, st))
  /\ (r = PNum 0 -> rest = [] ->
      exists ebc st',
        init = (Ok ebc, st')
        /\ ebc_base ebc = b
        /\ ebc_u ebc = u
        /\ ebc_F ebc = PObj l
        /\ ebc_J ebc = PObj (next_form st)
        /\ form_at st' (next_form st) = derivative (form_at st l) u
        /\ (forall l', l' <> next_form st -> form_at st' l' = form_at st l')
        /\ ebc_Jp ebc = ebc_J ebc
        /\ ebc_Jp_eq_J ebc = true
        /\ ebc_is_linear ebc = false
        /\ ebc_bcs ebc = None).
Proof.
  intros Hargs Hb Hnl init.
  assert (Hcls : isinstance_form st (PObj l) [UflForm; SlateTensor] = true).
  { simpl. apply bool_decide_eq_true.
    destruct (form_class (form_at st l)).
    - apply list_elem_of_here.
    - apply list_elem_of_further, list_elem_of_here. }
  assert (Hinit : init =
    (if negb (is_zero r) then raise TypeError
     else if bool_decide (length (V :: rest) <> 1) then raise ValueError
     else
       bind (check_bilinear st None) (fun _ =>
       bind (py_or None (with_form st (PObj l)
                           (fun f => new_form (derivative f u)))) (fun J' =>
       bind (check_bilinear st None) (fun _ =>
       bind (py_or None (ret J')) (fun Jp' =>
       ret (mkEquationBC b u None None (bool_decide (@None PyVal = None))
              J' Jp' (PObj l) false)))))) st).
  { unfold init, EquationBC_init. unfold bind at 1. unfold get at 1.
    unfold bind at 1. unfold lift_result at 1. cbn [lhs rhs arguments].
    rewrite Hargs. unfold bind at 1. unfold lift_result at 1. rewrite Hb.
    rewrite Hnl. rewrite Hcls. reflexivity. }
  split; [|split].
  - intros Hr. rewrite Hinit. unfold is_zero.
    rewrite bool_decide_eq_false_2 by exact Hr. reflexivity.
  - intros -> Hrest. rewrite Hinit. simpl negb. cbv iota.
    rewrite bool_decide_eq_true_2; [reflexivity|].
    destruct rest; [contradiction | simpl; lia].
  - intros -> ->. rewrite Hinit. simpl.
    eexists _, _. split; [reflexivity|]. simpl.
    rewrite bool_decide_eq_true_2 by reflexivity.
    repeat split.
    intros l' Hl'. rewrite bool_decide_eq_false_2 by exact Hl'. reflexivity.
Qed.

End FormProperties.

(** C5 (as amended).  A split of an EquationBC stands on the parent's
    function space and sub-domain with the method topological (the method
    every EquationBC has), holds the parent's unknown and a reference to the
    selected one of the parent's forms, and starts with no nested boundary
    conditions of its own, whatever the parent has attached; any selector
    other than F, J, Jp is TypeError. *)
Theorem EquationBCSplit_init_spec (ebc : EquationBC) (form_str : string) :
  constructible (_function_space (ebc_base ebc)) ->
  (form_str ∈ ["F"; "J"; "Jp"] ->
     exists sp,
       EquationBCSplit_init (IsEquationBC ebc) form_str = Ok sp
       /\ _function_space (split_base sp) = _function_space (ebc_base ebc)
       /\ sub_domain (split_base sp) = sub_domain (ebc_base ebc)
       /\ method (split_base sp) = "topological"
       /\ (method (ebc_base ebc) = "topological" ->
           method (split_base sp) = method (ebc_base ebc))
       /\ split_u sp = ebc_u ebc
       /\ split_f sp = (if bool_decide (form_str = "F") then ebc_F ebc
                        else if bool_decide (form_str = "J") then ebc_J ebc
                        else ebc_Jp ebc)
       /\ split_bcs sp = None)
  /\ (form_str ∉ ["F"; "J"; "Jp"] ->
      EquationBCSplit_init (IsEquationBC ebc) form_str = Raise TypeError).
Proof.
  intros Hc.
  destruct (BCBase_init_ok (_function_space (ebc_base ebc))
              (sub_domain (ebc_base ebc)) "topological" Hc)
    as (b & Hb & Hfs & Hsd & Hm & _).
  { apply list_elem_of_here. }
  unfold EquationBCSplit_init. rewrite Hb. simpl. split.
  - intros Hsel.
    assert (Hf : exists f,
      (if bool_decide (form_str = "F") then Ok (ebc_F ebc)
       else if bool_decide (form_str = "J") then Ok (ebc_J ebc)
       else if bool_decide (form_str = "Jp") then Ok (ebc_Jp ebc)
       else Raise TypeError) = Ok f
      /\ f = (if bool_decide (form_str = "F") then ebc_F ebc
              else if bool_decide (form_str = "J") then ebc_J ebc
              else ebc_Jp ebc)).
    { destruct (bool_decide (form_str = "F")) eqn:E1; [eauto|].
      destruct (bool_decide (form_str = "J")) eqn:E2; [eauto|].
      destruct (bool_decide (form_str = "Jp")) eqn:E3; [eauto|].
      apply bool_decide_eq_false in E1, E2, E3.
      repeat (apply elem_of_cons in Hsel as [Hsel|Hsel]; [contradiction|]).
      apply not_elem_of_nil in Hsel. contradiction. }
    destruct Hf as (f & -> & ->). simpl. eexists. split; [reflexivity|].
    simpl. repeat split; try assumption. intros ->. exact Hm.
  - intros Hsel.
    rewrite !bool_decide_eq_false_2; [reflexivity| | |];
      intros ->; apply Hsel.
    + do 2 apply list_elem_of_further. apply list_elem_of_here.
    + apply list_elem_of_further, list_elem_of_here.
    + apply list_elem_of_here.
Qed.

(** ** Rejection of the zany elements *)

Section Rejection.
Context `{FC : FieldCollaborators} `{FO : FormCollaborators}.

(** C6 (as amended).  On a space whose element is one of the three
    classes Argyris, Morley, Bell, or is Hermite on a mesh of topological
    dimension above 1, every constructor raises NotImplementedError: the
    base constructor, DirichletBC (for every value, leaving the world as
    it was: no field is resolved), EquationBC (once the space has been
    read off the left-hand side) and EquationBCSplit.  No constructor
    asks the function space for boundary nodes; a base object that is
    constructed has both cached slots empty. *)
Theorem zany_elements_rejected_at_construction (V : FunctionSpace) :
  finat_element V ∈ [Argyris; Morley; Bell]
  \/ (finat_element V = Hermite /\ 1 < topological_dimension V) ->
  (forall sd meth, BCBase_init V sd meth = Raise NotImplementedError)
  /\ (forall g sd meth (w : World),
        DirichletBC_init V g sd meth w = (Raise NotImplementedError, w))
  /\ (forall (st : FormStore) eq u sd J Jp meth rest,
        arguments st (lhs eq) = Ok (V :: rest) ->
        EquationBC_init eq u sd J Jp meth st = (Raise NotImplementedError, st))
  /\ (forall ebc form_str,
        _function_space (ebc_base ebc) = V ->
        EquationBCSplit_init (IsEquationBC ebc) form_str
        = Raise NotImplementedError)
  /\ (forall V' sd meth b,
        BCBase_init V' sd meth = Ok b ->
        nodes_cached b = None /\ node_set_cached b = None).
Proof.
  intros H. apply is_zany_spec in H.
  split; [|split; [|split; [|split]]].
  - intros sd meth. apply BCBase_init_zany, H.
  - intros g sd meth w. unfold DirichletBC_init.
    rewrite (BCBase_init_zany _ _ _ H). reflexivity.
  - intros st eq u sd J Jp meth rest Hargs. unfold EquationBC_init.
    unfold bind at 1. unfold get at 1. unfold bind at 1.
    unfold lift_result at 1. rewrite Hargs.
    unfold bind at 1. unfold lift_result at 1.
    rewrite (BCBase_init_zany _ _ _ H). reflexivity.
  - intros ebc form_str <-. unfold EquationBCSplit_init.
    rewrite (BCBase_init_zany _ _ _ H). reflexivity.
  - intros V' sd meth b Hb.
    apply BCBase_init_inv in Hb as (_ & _ & _ & _ & _ & Hn & Hs).
    split; assumption.
Qed.

End Rejection.

(** ** The definitions run on the interval mesh *)

Section Runs.
#[local] Existing Instance Demo.fields.
#[local] Existing Instance Demo.forms.

Lemma bc_literal_constructed (c : Z) :
  DirichletBC_init Demo.W1 (VUfl (PyInt c)) (SDInt 1) "topological" Demo.world1
  = (Ok (Demo.bc_literal Demo.W1 [1] c), Demo.world1)
  /\ DirichletBC_init Demo.P1 (VUfl (PyInt c)) (SDInt 1) "topological"
       (Demo.world0 0 7)
     = (Ok (Demo.bc_literal Demo.P1 [] c), Demo.world0 0 7).
Proof. split; reflexivity. Qed.

Lemma bc_expression_constructed :
  DirichletBC_init Demo.P1 (VExpression 0) (SDInt 1) "topological" (Demo.world0 0 7)
  = (Ok Demo.bc_expression,
     mkWorld [DLeaf [7; 7; 7; 7]%Z] (fun _ => mkExpression 0 7%Z) [[]]).
Proof. reflexivity. Qed.

Lemma ebc0_constructed :
  fst (EquationBC_init (mkEquation (PObj 0) (PNum 0)) Demo.u_P1 (SDInt 1) None None
         "topological" Demo.forms0)
  = Ok Demo.ebc0.
Proof. reflexivity. Qed.

(** *** C1 *)



(** On the first sub-space the same call does assign: a field of one
    array is its own sub-field 0. *)
Lemma apply_assigns_on_own_subspace_of_index_0 :
  DirichletBC_init Demo.W0 (VUfl (PyInt 5)) (SDInt 1) "topological" Demo.world1
  = (Ok (Demo.bc_literal Demo.W0 [0] 5), Demo.world1)
  /\ fst (DirichletBC_apply (TFunction Demo.r_W0) None
            (mkState (Demo.bc_literal Demo.W0 [0] 5) Demo.world1))
     = Ok tt
  /\ dats (world (snd (DirichletBC_apply (TFunction Demo.r_W0) None
                         (mkState (Demo.bc_literal Demo.W0 [0] 5) Demo.world1))))
     !! fn_dat Demo.r_W0
     = Some (DLeaf [5; 20; 30; 40]%Z).
Proof. repeat split. Qed.

(** *** C2 *)

Lemma homogenize_restore_round_trip_witness :
  active (Demo.bc_literal Demo.P1 [] 5)
  /\ bind DirichletBC_homogenize (fun _ => DirichletBC_restore)
       (mkState (Demo.bc_literal Demo.P1 [] 5) (Demo.world0 0 7))
     = (Ok tt, mkState (Demo.bc_literal Demo.P1 [] 5) (Demo.world0 0 7)).
Proof.
  assert (Ha : active (Demo.bc_literal Demo.P1 [] 5)) by (split; reflexivity).
  split; [exact Ha|].
  exact (proj1 (proj2 (proj2 (homogenize_restore_round_trip
                                (mkState (Demo.bc_literal Demo.P1 [] 5)
                                   (Demo.world0 0 7)))) Ha)).
Defined.

(** Two states from which [homogenize(); restore()] does not give back
    the value it started from.  The boundary condition is
    [DirichletBC(P1, 5, 1)].  Once homogenized, its value is 0 before the
    pair and 5 after it.  Once its value has been assigned through the
    property ([bc.function_arg = 6]), its value is 6 before the pair and 5
    after it. *)
Lemma round_trip_fails_when_already_homogenized :
  DirichletBC_init Demo.P1 (VUfl (PyInt 5)) (SDInt 1) "topological" (Demo.world0 0 7)
  = (Ok (Demo.bc_literal Demo.P1 [] 5), Demo.world0 0 7)
  /\ (exists s1,
        DirichletBC_homogenize
          (mkState (Demo.bc_literal Demo.P1 [] 5) (Demo.world0 0 7)) = (Ok tt, s1)
        /\ fst (function_arg s1) = Ok (VUfl (PyInt 0))
        /\ fst (bind DirichletBC_homogenize
                  (fun _ => bind DirichletBC_restore (fun _ => function_arg)) s1)
           = Ok (VUfl (PyInt 5))
        /\ fst (bind DirichletBC_homogenize
                  (fun _ => bind DirichletBC_restore (fun _ => function_arg)) s1)
           <> fst (function_arg s1))
  /\ (exists s1,
        function_arg_setter (VUfl (PyInt 6))
          (mkState (Demo.bc_literal Demo.P1 [] 5) (Demo.world0 0 7)) = (Ok tt, s1)
        /\ _currently_zeroed (self s1) = false
        /\ fst (function_arg s1) = Ok (VUfl (PyInt 6))
        /\ fst (bind DirichletBC_homogenize
                  (fun _ => bind DirichletBC_restore (fun _ => function_arg)) s1)
           = Ok (VUfl (PyInt 5))).
Proof.
  split; [reflexivity|]. split.
  - eexists. split; [reflexivity|]. split; [reflexivity|].
    split; [reflexivity|]. vm_compute. discriminate.
  - eexists. split; [reflexivity|]. repeat split.
Qed.

(** *** C3 *)

(** C3 on the code.  A boundary condition was built from an Expression
    (state 0, value 7 at every node); the owner of the Expression then
    assigned one of its variables (state 1, value 9) and nobody read
    [function_arg] since.  [set_value(5)] stores 5 as original value, but
    the read of [function_arg] inside it, made while [_original_val] is
    still the Expression, resolves the Expression again: the current value
    and the restore point are the new field of nines, not 5, and
    [restore()] gives that field back. *)
Theorem set_value_resolves_the_previous_expression :
  DirichletBC_init Demo.P1 (VExpression 0) (SDInt 1) "topological" (Demo.world0 0 7)
  = (Ok Demo.bc_expression,
     mkWorld [DLeaf [7; 7; 7; 7]%Z] (fun _ => mkExpression 0 7%Z) [[]])
  /\ exists s3,
    DirichletBC_set_value (VUfl (PyInt 5))
      (mkState Demo.bc_expression Demo.world_updated) = (Ok tt, s3)
    /\ _original_val (self s3) = VUfl (PyInt 5)
    /\ fst (function_arg s3) = Ok (VFunction (mkFunction Demo.P1 1 []))
    /\ _original_arg (self s3) = VFunction (mkFunction Demo.P1 1 [])
    /\ dats (world s3) !! 1 = Some (DLeaf [9; 9; 9; 9]%Z)
    /\ fst (bind DirichletBC_restore (fun _ => function_arg) s3)
       = Ok (VFunction (mkFunction Demo.P1 1 []))
    /\ (exists s, function_arg_setter (VUfl (PyInt 5))
                    (mkState Demo.bc_expression Demo.world_updated) = (Ok tt, s)
                  /\ _function_arg (self s) = VUfl (PyInt 5)).
Proof.
  split; [reflexivity|].
  eexists. split; [reflexivity|]. repeat split.
  eexists. split; reflexivity.
Qed.

(** *** C4 *)

(** C4 on the code.  [DirichletBC.__init__] and [EquationBC.__init__]
    pass the literal topological to the base constructor instead of
    their [method] argument: an unknown method is accepted and geometric
    is stored as topological, where the base constructor given the same
    arguments raises ValueError and stores geometric. *)
Theorem derived_constructors_ignore_method :
  DirichletBC_init Demo.P1 (VUfl (PyInt 0)) (SDInt 1) "nearest" (Demo.world0 0 7)
  = (Ok (Demo.bc_literal Demo.P1 [] 0), Demo.world0 0 7)
  /\ DirichletBC_init Demo.P1 (VUfl (PyInt 0)) (SDInt 1) "geometric"
       (Demo.world0 0 7)
     = (Ok (Demo.bc_literal Demo.P1 [] 0), Demo.world0 0 7)
  /\ method (base (Demo.bc_literal Demo.P1 [] 0)) = "topological"
  /\ fst (EquationBC_init (mkEquation (PObj 0) (PNum 0)) Demo.u_P1 (SDInt 1)
            None None "nearest" Demo.forms0)
     = Ok Demo.ebc0
  /\ method (ebc_base Demo.ebc0) = "topological"
  /\ BCBase_init Demo.P1 (SDInt 1) "nearest" = Raise ValueError
  /\ (exists b, BCBase_init Demo.P1 (SDInt 1) "geometric" = Ok b
               /\ method b = "geometric").
Proof.
  repeat (split; [reflexivity|]).
  eexists. split; reflexivity.
Qed.

(** *** C5 *)

Lemma EquationBCSplit_init_spec_witness :
  exists sp,
    EquationBCSplit_init (IsEquationBC Demo.ebc0_with_bcs) "J" = Ok sp
    /\ _function_space (split_base sp) = Demo.P1
    /\ split_f sp = PObj 1
    /\ split_bcs sp = None.
Proof.
  destruct (proj1 (EquationBCSplit_init_spec Demo.ebc0_with_bcs "J"
                     (conj eq_refl eq_refl)))
    as (sp & Hsp & Hfs & _ & _ & _ & _ & Hf & Hb).
  - apply list_elem_of_further, list_elem_of_here.
  - exists sp. split; [exact Hsp|]. split; [exact Hfs|]. split; [exact Hf | exact Hb].
Defined.

(** The parent has the list object 0 attached as [bcs]; the split built
    from it has [None]. *)
Lemma split_does_not_share_bcs :
  fst (EquationBC_init (mkEquation (PObj 0) (PNum 0)) Demo.u_P1 (SDInt 1) None None
         "topological" Demo.forms0) = Ok Demo.ebc0
  /\ ebc_bcs Demo.ebc0_with_bcs = Some 0
  /\ exists sp,
       EquationBCSplit_init (IsEquationBC Demo.ebc0_with_bcs) "F" = Ok sp
       /\ split_bcs sp = None
       /\ split_bcs sp <> ebc_bcs Demo.ebc0_with_bcs.
Proof.
  split; [reflexivity|]. split; [reflexivity|].
  eexists. split; [reflexivity|]. split; [reflexivity|]. discriminate.
Qed.

(** *** C6 *)

Lemma zany_elements_rejected_at_construction_witness :
  BCBase_init Demo.H3_2d (SDInt 1) "topological" = Raise NotImplementedError
  /\ DirichletBC_init Demo.Argyris_2d (VExpression 0) (SDInt 1) "topological"
       (Demo.world0 0 7)
     = (Raise NotImplementedError, Demo.world0 0 7).
Proof.
  split.
  - apply (zany_elements_rejected_at_construction Demo.H3_2d).
    right. split; [reflexivity | simpl; lia].
  - apply (zany_elements_rejected_at_construction Demo.Argyris_2d).
    left. apply list_elem_of_here.
Defined.

(** No four distinct element classes are rejected on every mesh: the
    tuple of the first [isinstance] test has three members, and the
    fourth class named in the condition, Hermite, is accepted on a 1-D
    mesh. *)
Lemma no_four_classes_are_always_rejected :
  ~ exists classes : list FinatElement,
      NoDup classes /\ length classes = 4
      /\ forall V sd meth,
           finat_element V ∈ classes ->
           BCBase_init V sd meth = Raise NotImplementedError.
Proof.
  intros (classes & Hnd & Hlen & Hrej).
  assert (Hsub : forall x, x ∈ classes -> x ∈ zany_elements).
  { intros x Hx.
    specialize (Hrej (mkFunctionSpace "V" x 1 false None None 0 None)
                  (SDInt 1) "topological" Hx).
    destruct (is_zany (mkFunctionSpace "V" x 1 false None None 0 None)) eqn:Hz.
    - apply is_zany_spec in Hz as [Hz|[_ Hz]]; [exact Hz | simpl in Hz; lia].
    - unfold BCBase_init in Hrej. rewrite Hz in Hrej. discriminate. }
  pose proof (submseteq_length _ _ (NoDup_submseteq _ _ Hnd Hsub)) as Hle.
  rewrite Hlen in Hle. simpl in Hle. lia.
Qed.

(** *** C7 *)

Lemma homogenize_preserves_shape_and_order_witness :
  exists hs,
    homogenize (AIter [ABC (Demo.bc_literal Demo.P1 [] 5); ABC Demo.bc_expression])
      Demo.world_updated
    = (Ok (RList (RBC <$> hs)), Demo.world_updated)
    /\ length hs = 2.
Proof.
  destruct (proj2 homogenize_preserves_shape_and_order
              [Demo.bc_literal Demo.P1 [] 5; Demo.bc_expression] Demo.world_updated)
    as (hs & Hh & Hl & _).
  - repeat constructor.
  - exists hs. split; [exact Hh | exact Hl].
Defined.

(** *** C8 *)

Lemma EquationBC_nonlinear_defaults_witness :
  exists ebc st',
    EquationBC_init (mkEquation (PObj 0) (PNum 0)) Demo.u_P1 (SDInt 1) None None
      "topological" Demo.forms0 = (Ok ebc, st')
    /\ ebc_J ebc = PObj 1
    /\ form_at st' 1 = derivative (form_at Demo.forms0 0) Demo.u_P1
    /\ ebc_Jp ebc = ebc_J ebc
    /\ ebc_Jp_eq_J ebc = true.
Proof.
  destruct (proj2 (proj2 (EquationBC_nonlinear_defaults Demo.forms0 0 (PNum 0)
              Demo.u_P1 (SDInt 1) "topological" Demo.P1 [] (Demo.base_on Demo.P1 [])
              eq_refl eq_refl eq_refl)) eq_refl eq_refl)
    as (ebc & st' & Hi & _ & _ & _ & HJ & Hd & _ & HJp & Hdef & _).
  exists ebc, st'. split; [exact Hi|]. split; [exact HJ|].
  split; [exact Hd|]. split; [exact HJp | exact Hdef].
Defined.

(** *** C9 *)

Lemma nodes_every_second_on_hermite_1d_witness :
  caches_consistent (Demo.base_on Demo.H3 [])
  /\ boundary_nodes Demo.H3 (SDInt 1) "topological" = [0; 1]
  /\ fst (BCBase_nodes (Demo.base_on Demo.H3 [])) = [0].
Proof.
  assert (Hc : caches_consistent (Demo.base_on Demo.H3 [])) by (split; exact I).
  split; [exact Hc|]. split; [reflexivity|].
  exact (proj1 (proj1 (nodes_every_second_on_hermite_1d _ Hc)
                  (conj eq_refl eq_refl))).
Defined.

(** *** C10 *)

(** The getter re-resolves where the recorded state is the state of the
    original value at its last resolution. *)
Lemma function_arg_reresolves_after_construction :
  exists s',
    function_arg (mkState Demo.bc_expression Demo.world_updated)
    = (Ok (VFunction (mkFunction Demo.P1 1 [])), s')
    /\ dats (world s') = [DLeaf [7; 7; 7; 7]%Z; DLeaf [9; 9; 9; 9]%Z]
    /\ _original_arg (self s') = VFunction (mkFunction Demo.P1 1 []).
Proof.
  destruct (proj1 (function_arg_reresolves_and_moves_restore_point
                     (mkState Demo.bc_expression Demo.world_updated) 0 eq_refl)
              0 eq_refl eq_refl)
    as (s' & Hr & Hd & _ & _ & Ho & _).
  - simpl. lia.
  - exists s'. split; [exact Hr|]. split; [exact Hd | exact Ho].
Qed.

(** C10 on the code.  A boundary condition is built from the Expression
    [e_old], at reference 0 (in state 5, of value 7).  [set_value] then
    gives it the Expression [e_new], at reference 1 (in state 0, of value
    9): the setter resolves it and records its state 0, but the read of
    [function_arg] inside [set_value], made while [_original_val] is still
    [e_old], resolves [e_old] again and records its state 5; only then
    does [e_new] become the original value.  The owner of [e_new] now
    assigns its variables until its counter is 5 (its value is 11).  The
    boundary condition is not homogenized, its original value is an
    Expression whose counter has advanced since that Expression was
    resolved, and a read of [function_arg] resolves nothing and changes
    nothing: the counter equals the recorded state, which belongs to the
    other Expression.  The value returned, which is also the restore
    point, is the field of [e_old].  With the state recorded when [e_new]
    was resolved, the same read resolves [e_new] again. *)
Theorem function_arg_misses_an_advanced_expression :
  DirichletBC_init Demo.P1 (VExpression 0) (SDInt 1) "topological"
    (Demo.world_of Demo.e_old Demo.e_new [])
  = (Ok (Demo.bc_on_expression 0 0 5),
     Demo.world_of Demo.e_old Demo.e_new [DLeaf [7; 7; 7; 7]%Z])
  /\ DirichletBC_set_value (VExpression 1)
       (mkState (Demo.bc_on_expression 0 0 5)
          (Demo.world_of Demo.e_old Demo.e_new [DLeaf [7; 7; 7; 7]%Z]))
     = (Ok tt,
        mkState (Demo.bc_on_expression 1 2 5)
          (Demo.world_of Demo.e_old Demo.e_new
             [DLeaf [7; 7; 7; 7]%Z; DLeaf [9; 9; 9; 9]%Z; DLeaf [7; 7; 7; 7]%Z]))
  /\ _original_val (Demo.bc_on_expression 1 2 5) = VExpression 1
  /\ _currently_zeroed (Demo.bc_on_expression 1 2 5) = false
  /\ _state Demo.e_new < _state Demo.e_new_advanced
  /\ function_arg
       (mkState (Demo.bc_on_expression 1 2 5)
          (Demo.world_of Demo.e_old Demo.e_new_advanced
             [DLeaf [7; 7; 7; 7]%Z; DLeaf [9; 9; 9; 9]%Z; DLeaf [7; 7; 7; 7]%Z]))
     = (Ok (VFunction (mkFunction Demo.P1 2 [])),
        mkState (Demo.bc_on_expression 1 2 5)
          (Demo.world_of Demo.e_old Demo.e_new_advanced
             [DLeaf [7; 7; 7; 7]%Z; DLeaf [9; 9; 9; 9]%Z; DLeaf [7; 7; 7; 7]%Z]))
  /\ resolution
       [DLeaf [7; 7; 7; 7]%Z; DLeaf [9; 9; 9; 9]%Z; DLeaf [7; 7; 7; 7]%Z]
       Demo.P1 (SrcExpression Demo.e_new_advanced)
     = DLeaf [11; 11; 11; 11]%Z
  /\ function_arg
       (mkState (Demo.bc_on_expression 1 1 0)
          (Demo.world_of Demo.e_old Demo.e_new_advanced
             [DLeaf [7; 7; 7; 7]%Z; DLeaf [9; 9; 9; 9]%Z]))
     = (Ok (VFunction (mkFunction Demo.P1 2 [])),
        mkState (Demo.bc_on_expression 1 2 5)
          (Demo.world_of Demo.e_old Demo.e_new_advanced
             [DLeaf [7; 7; 7; 7]%Z; DLeaf [9; 9; 9; 9]%Z;
              DLeaf [11; 11; 11; 11]%Z])).
Proof.
  split; [vm_compute; reflexivity|].
  split; [vm_compute; reflexivity|].
  split; [reflexivity|]. split; [reflexivity|].
  split; [vm_compute; lia|].
  split; [vm_compute; reflexivity|].
  split; vm_compute; reflexivity.
Qed.

End Runs.

(** ** The index path and the construction-time tests *)

Lemma walk_parents_acc (fs : FunctionSpace) :
  forall cs ixs ids,
    walk_parents fs cs ixs ids =
      (cs ++ (walk_parents fs [] [] []).1.1,
       ixs ++ (walk_parents fs [] [] []).1.2,
       ids ++ (walk_parents fs [] [] []).2).
Proof.
  revert fs. fix IH 1. intros [n e d x i c s p] cs ixs ids.
  assert (Hp : forall cs ixs ids,
    match p with
    | Some q => walk_parents q cs ixs ids
    | None => (cs, ixs, ids)
    end =
    (cs ++ (match p with
            | Some q => walk_parents q [] [] []
            | None => ([], [], [])
            end).1.1,
     ixs ++ (match p with
             | Some q => walk_parents q [] [] []
             | None => ([], [], [])
             end).1.2,
     ids ++ (match p with
             | Some q => walk_parents q [] [] []
             | None => ([], [], [])
             end).2)).
  { intros cs' ixs' ids'. destruct p as [q|].
    - apply IH.
    - simpl. rewrite !app_nil_r. reflexivity. }
  simpl. destruct i as [i|], c as [c|]; simpl;
    rewrite Hp; symmetry; rewrite Hp; simpl;
    rewrite ?app_nil_r, <- ?app_assoc; reflexivity.
Qed.

Lemma BCBase_init_indices (V : FunctionSpace) (sd : SubDomain) (meth : string)
    (b : BCBase) :
  BCBase_init V sd meth = Ok b ->
  _indices b = rev (walk_parents V [] [] []).2
  /\ ck_indexing (_cache_key b) = (walk_parents V [] [] []).1.2
  /\ ck_components (_cache_key b) = (walk_parents V [] [] []).1.1.
Proof.
  unfold BCBase_init. intros H.
  destruct (is_zany V); [discriminate|].
  destruct (bool_decide (meth ∉ _)); [discriminate|].
  destruct (extruded V && _); [discriminate|].
  destruct (walk_parents V [] [] []) as [[cs ixs] ids].
  injection H as <-. simpl. repeat split.
Qed.

(** X1. The index path of a boundary condition on a sub-space is the
    index path of a boundary condition on its parent followed by the
    sub-space's own component and then its own index; on a space without
    parent it is just those.  The index and component parts of the cache
    key grow at the front instead. *)
Theorem index_path_extends_parent (V : FunctionSpace) (sd : SubDomain)
    (meth : string) (b : BCBase) :
  BCBase_init V sd meth = Ok b ->
  (parent V = None ->
     _indices b = option_list (component V) ++ option_list (index V))
  /\ (forall P sdP methP bP,
        parent V = Some P ->
        BCBase_init P sdP methP = Ok bP ->
        _indices b
          = _indices bP ++ option_list (component V) ++ option_list (index V)
        /\ ck_indexing (_cache_key b)
           = option_list (index V) ++ ck_indexing (_cache_key bP)
        /\ ck_components (_cache_key b)
           = option_list (component V) ++ ck_components (_cache_key bP)).
Proof.
  intros Hb. apply BCBase_init_indices in Hb as (Hi & Hx & Hc).
  split.
  - intros Hp. rewrite Hi. destruct V as [n e d x i c s p]. simpl in *. subst p.
    destruct i as [i|], c as [c|]; reflexivity.
  - intros P sdP methP bP Hp HbP.
    apply BCBase_init_indices in HbP as (HiP & HxP & HcP).
    rewrite Hi, Hx, Hc, HiP, HxP, HcP.
    destruct V as [n e d x i c s p]. simpl in Hp. subst p. simpl.
    destruct i as [i|], c as [c|]; simpl; rewrite walk_parents_acc; simpl;
      rewrite ?rev_app_distr; simpl; rewrite <- ?app_assoc, ?app_nil_r;
      repeat split.
Qed.

Section ConstructionProperties.
Context `{FC : FieldCollaborators} `{FO : FormCollaborators}.

(** X2. On a space of a supported element that is extruded and has a
    component, the base constructor raises ValueError for an unknown
    method (that test comes first) and NotImplementedError otherwise;
    DirichletBC, EquationBC and EquationBCSplit, which pass the method
    topological, raise NotImplementedError, and DirichletBC leaves the
    world as it was. *)
Theorem extruded_component_space_rejected (V : FunctionSpace) :
  is_zany V = false ->
  extruded V = true ->
  component V <> None ->
  (forall sd meth,
     BCBase_init V sd meth =
       if bool_decide (meth ∈ ["topological"; "geometric"])
       then Raise NotImplementedError else Raise ValueError)
  /\ (forall g sd meth (w : World),
        DirichletBC_init V g sd meth w = (Raise NotImplementedError, w))
  /\ (forall (st : FormStore) eq u sd J Jp meth rest,
        arguments st (lhs eq) = Ok (V :: rest) ->
        EquationBC_init eq u sd J Jp meth st = (Raise NotImplementedError, st))
  /\ (forall ebc form_str,
        _function_space (ebc_base ebc) = V ->
        EquationBCSplit_init (IsEquationBC ebc) form_str
        = Raise NotImplementedError).
Proof.
  intros Hz Hx Hc.
  assert (Hb : forall sd, BCBase_init V sd "topological" = Raise NotImplementedError).
  { intros sd. unfold BCBase_init. rewrite Hz, Hx.
    rewrite (bool_decide_eq_true_2 (component V <> None)) by exact Hc.
    reflexivity. }
  split; [|split; [|split]].
  - intros sd meth. unfold BCBase_init. rewrite Hz, Hx.
    rewrite (bool_decide_eq_true_2 (component V <> None)) by exact Hc.
    destruct (decide (meth ∈ ["topological"; "geometric"])) as [Hm|Hm].
    + rewrite (bool_decide_eq_true_2 _ Hm).
      rewrite bool_decide_eq_false_2 by (intros Hn; exact (Hn Hm)). reflexivity.
    + rewrite (bool_decide_eq_false_2 _ Hm).
      rewrite bool_decide_eq_true_2 by exact Hm. reflexivity.
  - intros g sd meth w. unfold DirichletBC_init. rewrite Hb. reflexivity.
  - intros st eq u sd J Jp meth rest Hargs. unfold EquationBC_init.
    unfold bind at 1. unfold get at 1. unfold bind at 1.
    unfold lift_result at 1. rewrite Hargs.
    unfold bind at 1. unfold lift_result at 1. rewrite Hb. reflexivity.
  - intros ebc form_str <-. unfold EquationBCSplit_init. rewrite Hb. reflexivity.
Qed.

End ConstructionProperties.

(** ** Resolution of the value at construction and in set_value *)

Section ResolutionProperties.
Context `{FC : FieldCollaborators}.

(** X3. What [DirichletBC(V, g, sub_domain)] stores, by the kind of
    [g].  A Function on [V], a literal and a UFL expression without
    spatial coordinates are stored as they are and nothing is allocated.
    An Expression, a UFL expression with spatial coordinates and a list
    that converts to an Expression are resolved into one new field on [V],
    appended to the store, which becomes both the value and the restore
    point, while [_original_val] stays what the caller passed; the state
    of the Expression is recorded only in the first and the last case. *)
Theorem DirichletBC_init_stores_resolution (V : FunctionSpace) (sd : SubDomain)
    (meth : string) (w : World) (b : BCBase) :
  BCBase_init V sd "topological" = Ok b ->
  let fresh := VFunction (mkFunction V (length (dats w)) []) in
  let grown src :=
    mkWorld (dats w ++ [resolution (dats w) V src]) (expressions w) (matrices w) in
  (forall f, fn_space f = V ->
     DirichletBC_init V (VFunction f) sd meth w
     = (Ok (mkDirichletBC b (VFunction f) (VFunction f) (VFunction f) false None), w))
  /\ (forall z,
     DirichletBC_init V (VUfl (PyInt z)) sd meth w
     = (Ok (mkDirichletBC b (VUfl (PyInt z)) (VUfl (PyInt z)) (VUfl (PyInt z))
              false None), w))
  /\ (forall t, has_SpatialCoordinate t = false ->
     DirichletBC_init V (VUfl (UflTerm t)) sd meth w
     = (Ok (mkDirichletBC b (VUfl (UflTerm t)) (VUfl (UflTerm t))
              (VUfl (UflTerm t)) false None), w))
  /\ (forall t, has_SpatialCoordinate t = true ->
     DirichletBC_init V (VUfl (UflTerm t)) sd meth w
     = (Ok (mkDirichletBC b (VUfl (UflTerm t)) fresh fresh false None),
        grown (SrcUfl t)))
  /\ (forall e,
     DirichletBC_init V (VExpression e) sd meth w
     = (Ok (mkDirichletBC b (VExpression e) fresh fresh false
              (Some (_state (expressions w e)))),
        grown (SrcExpression (expressions w e))))
  /\ (forall o x, to_expression o = Some x ->
     DirichletBC_init V (VPyObject o) sd meth w
     = (Ok (mkDirichletBC b (VPyObject o) fresh fresh false (Some (_state x))),
        grown (SrcExpression x))).
Proof.
  intros Hb fresh grown.
  assert (Hb' : _function_space b = V)
    by (apply BCBase_init_inv in Hb as (_ & _ & H & _); exact H).
  unfold DirichletBC_init. rewrite Hb.
  split; [|split; [|split; [|split; [|split]]]].
  - intros f Hf. unfold bind at 1. unfold function_arg_setter.
    unfold bind at 1 2 3. unfold get_self at 1. unfold get_world at 1.
    unfold function_space. cbn [self base world]. rewrite Hb', Hf.
    rewrite bool_decide_eq_false_2 by (intros Hn; apply Hn; reflexivity).
    reflexivity.
  - intros z. reflexivity.
  - intros t Ht. unfold bind at 1. unfold function_arg_setter.
    unfold bind at 1 2 3 4 5. unfold get_self at 1. unfold get_world at 1.
    cbn [ret]. rewrite Ht. reflexivity.
  - intros t Ht. unfold bind at 1. unfold function_arg_setter.
    unfold bind at 1 2 3 4 5. unfold get_self at 1. unfold get_world at 1.
    cbn [ret]. rewrite Ht. unfold fresh, grown. rewrite <- Hb'. reflexivity.
  - intros e. unfold bind at 1. rewrite function_arg_setter_expression.
    cbv beta iota zeta. unfold bind at 1. rewrite function_arg_unfold.
    rewrite getter_current with (e := e) by reflexivity.
    unfold fresh, grown. rewrite <- Hb'. reflexivity.
  - intros o x Ho. unfold bind at 1. unfold function_arg_setter.
    unfold bind at 1 2 3 4 5. unfold get_self at 1. unfold get_world at 1.
    cbn [ret]. rewrite Ho. unfold fresh, grown. rewrite <- Hb'. reflexivity.
Qed.

(** X4. A value that the setter rejects changes nothing: a Function on
    another space is RuntimeError, an object that is neither UFL nor
    convertible to an Expression is ValueError, and in both cases
    [set_value] leaves the boundary condition and the world exactly as
    they were, while the constructor produces no object and leaves the
    world as it was. *)
Theorem rejected_value_changes_nothing (s : State) :
  (forall f, fn_space f <> function_space (self s) ->
     DirichletBC_set_value (VFunction f) s = (Raise RuntimeError, s))
  /\ (forall o, to_expression o = None ->
     DirichletBC_set_value (VPyObject o) s = (Raise ValueError, s))
  /\ (forall V sd meth b f, BCBase_init V sd "topological" = Ok b ->
     fn_space f <> V ->
     DirichletBC_init V (VFunction f) sd meth (world s)
     = (Raise RuntimeError, world s))
  /\ (forall V sd meth b o, BCBase_init V sd "topological" = Ok b ->
     to_expression o = None ->
     DirichletBC_init V (VPyObject o) sd meth (world s)
     = (Raise ValueError, world s)).
Proof.
  split; [|split; [|split]].
  - intros f Hf. unfold DirichletBC_set_value, function_arg_setter.
    unfold bind at 1 2 3 4. unfold get_self at 1. unfold get_world at 1.
    rewrite bool_decide_eq_true_2 by exact Hf. reflexivity.
  - intros o Ho. unfold DirichletBC_set_value, function_arg_setter.
    unfold bind at 1 2 3 4 5. unfold get_self at 1. unfold get_world at 1.
    cbn [ret]. rewrite Ho. reflexivity.
  - intros V sd meth b f Hb Hf. unfold DirichletBC_init. rewrite Hb.
    assert (Hb' : _function_space b = V)
      by (apply BCBase_init_inv in Hb as (_ & _ & H & _); exact H).
    unfold bind at 1. unfold function_arg_setter.
    unfold bind at 1 2 3. unfold get_self at 1. unfold get_world at 1.
    unfold function_space. cbn [self base world]. rewrite Hb'.
    rewrite bool_decide_eq_true_2 by exact Hf. reflexivity.
  - intros V sd meth b o Hb Ho. unfold DirichletBC_init. rewrite Hb.
    unfold bind at 1. unfold function_arg_setter.
    unfold bind at 1 2 3 4. unfold get_self at 1. unfold get_world at 1.
    cbn [ret]. rewrite Ho. reflexivity.
Qed.

End ResolutionProperties.

(** ** What the methods keep *)

Section Invariants.
Context `{FC : FieldCollaborators}.

Lemma keeps_ret {A} (P : DirichletBC -> Prop) (a : A) : keeps P (ret a).
Proof. intros s r s' HP H. inversion H; subst. exact HP. Qed.

Lemma keeps_raise {A} (P : DirichletBC -> Prop) (e : PyExc) :
  keeps P (raise (A := A) e).
Proof. intros s r s' HP H. inversion H; subst. exact HP. Qed.

Lemma keeps_lift_result {A} (P : DirichletBC -> Prop) (x : result A) :
  keeps P (lift_result x).
Proof. intros s r s' HP H. inversion H; subst. exact HP. Qed.

Lemma keeps_bind {A B} (P : DirichletBC -> Prop) (m : M State A)
    (k : A -> M State B) :
  keeps P m -> (forall a, keeps P (k a)) -> keeps P (bind m k).
Proof.
  intros Hm Hk s r s' HP. unfold bind.
  destruct (m s) as [[a|e] s1] eqn:E.
  - intros H. exact (Hk a s1 r s' (Hm _ _ _ HP E) H).
  - intros H. inversion H; subst. exact (Hm _ _ _ HP E).
Qed.

Lemma keeps_get_self (P : DirichletBC -> Prop) : keeps P get_self.
Proof. intros s r s' HP H. inversion H; subst. exact HP. Qed.

Lemma keeps_get_world (P : DirichletBC -> Prop) : keeps P get_world.
Proof. intros s r s' HP H. inversion H; subst. exact HP. Qed.

Lemma keeps_put_world (P : DirichletBC -> Prop) (w : World) : keeps P (put_world w).
Proof. intros s r s' HP H. inversion H; subst. exact HP. Qed.

Lemma keeps_except {A} (P : DirichletBC -> Prop) (m : M State A) :
  keeps P m -> keeps P (except_MapValueError m).
Proof.
  intros Hm s r s' HP. unfold except_MapValueError.
  destruct (m s) as [[a|e] s1] eqn:E.
  - intros H. inversion H; subst. exact (Hm _ _ _ HP E).
  - destruct e; intros H; inversion H; subst; exact (Hm _ _ _ HP E).
Qed.

Lemma keeps_Function_assign (P : DirichletBC -> Prop) (r : Function)
    (e : AssignExpr) (subset : Subset) :
  keeps P (Function_assign r e subset).
Proof.
  unfold Function_assign. apply keeps_bind; [apply keeps_get_world|].
  intros w. destruct (dats w !! fn_dat r); [|apply keeps_raise].
  destruct (bool_decide (superset subset <> node_set (fn_space r)));
    [apply keeps_raise|].
  apply keeps_bind; [apply keeps_lift_result|]. intros d'. apply keeps_put_world.
Qed.

Lemma keeps_Function_zero (P : DirichletBC -> Prop) (r : Function)
    (subset : Subset) :
  keeps P (Function_zero r subset).
Proof.
  unfold Function_zero. apply keeps_bind; [apply keeps_get_world|].
  intros w. destruct (dats w !! fn_dat r); [|apply keeps_raise].
  destruct (bool_decide (superset subset <> node_set (fn_space r)));
    [apply keeps_raise|].
  apply keeps_bind; [apply keeps_lift_result|]. intros d'. apply keeps_put_world.
Qed.

Lemma keeps_Matrix_add_bc (P : DirichletBC -> Prop) (m : loc) (bc : DirichletBC) :
  keeps P (Matrix_add_bc m bc).
Proof.
  unfold Matrix_add_bc. apply keeps_bind; [apply keeps_get_world|].
  intros w. destruct (matrices w !! m); [apply keeps_put_world | apply keeps_raise].
Qed.

Lemma BCBase_node_set_frame (b : BCBase) :
  _function_space (snd (BCBase_node_set b)) = _function_space b
  /\ sub_domain (snd (BCBase_node_set b)) = sub_domain b
  /\ method (snd (BCBase_node_set b)) = method b
  /\ _indices (snd (BCBase_node_set b)) = _indices b
  /\ _cache_key (snd (BCBase_node_set b)) = _cache_key b.
Proof.
  unfold BCBase_node_set, BCBase_nodes.
  destruct (node_set_cached b); [repeat split|].
  destruct (nodes_cached b); repeat split.
Qed.

Lemma settled_set_base (V : FunctionSpace) (sd : SubDomain) (bc : DirichletBC) :
  settled V sd bc ->
  settled V sd (set_base (snd (BCBase_node_set (base bc))) bc).
Proof.
  intros ((b0 & Hb0 & H1 & H2 & H3 & H4 & H5) & Hc & Ha & Hz & He).
  destruct (BCBase_node_set_frame (base bc)) as (F1 & F2 & F3 & F4 & F5).
  destruct (BCBase_node_set_spec _ Hc) as (_ & Hc' & _).
  split; [|split; [|split; [|split]]]; simpl; try assumption.
  exists b0. split; [exact Hb0|]. repeat split; congruence.
Qed.

Lemma keeps_node_set_property (V : FunctionSpace) (sd : SubDomain) :
  keeps (settled V sd) node_set_property.
Proof.
  intros s r s' HP. unfold node_set_property, bind, get_self, modify_self, ret.
  simpl. pose proof (settled_set_base V sd _ HP) as Hs.
  destruct (BCBase_node_set (base (self s))) as [sb b']. simpl in *.
  intros H. inversion H; subst. simpl. exact Hs.
Qed.

(** Either outcome of a read, from a settled state. *)
Lemma function_arg_settled (V : FunctionSpace) (sd : SubDomain) (s : State) :
  settled V sd (self s) ->
  exists g s1,
    function_arg s = (Ok g, s1)
    /\ settled V sd (self s1)
    /\ g = _function_arg (self s1)
    /\ _currently_zeroed (self s1) = _currently_zeroed (self s)
    /\ _original_val (self s1) = _original_val (self s).
Proof.
  intros (Hb & Hc & Ha & Hz & He). rewrite function_arg_unfold.
  assert (Hsame : exists g s1,
    (Ok (_function_arg (self s)), s) = (Ok g, s1)
    /\ settled V sd (self s1) /\ g = _function_arg (self s1)
    /\ _currently_zeroed (self s1) = _currently_zeroed (self s)
    /\ _original_val (self s1) = _original_val (self s)).
  { eexists _, _. split; [reflexivity|].
    split; [exact (conj Hb (conj Hc (conj Ha (conj Hz He))))|]. repeat split. }
  destruct (_original_val (self s)) as [f|e|c|o] eqn:Ho.
  1,3,4: rewrite getter_not_expression by (intros e; congruence); exact Hsame.
  destruct (_currently_zeroed (self s)) eqn:Hzz.
  { rewrite getter_zeroed by exact Hzz. exact Hsame. }
  destruct (He e eq_refl) as [st Hst].
  destruct (decide (_state (expressions (world s) e) = st)) as [E|E].
  - rewrite getter_current with (e := e) by congruence. exact Hsame.
  - rewrite (getter_stale _ s e st Ho Hzz Hst E).
    eexists _, _. split; [reflexivity|]. simpl.
    split; [|repeat split].
    split; [exact Hb|]. split; [exact Hc|]. simpl.
    split; [reflexivity|]. split; [discriminate|]. intros e' _. eauto.
Qed.

Lemma keeps_function_arg (V : FunctionSpace) (sd : SubDomain) :
  keeps (settled V sd) function_arg.
Proof.
  intros s r s' HP H.
  destruct (function_arg_settled V sd s HP) as (g & s1 & Hg & Hs & _).
  rewrite Hg in H. inversion H; subst. exact Hs.
Qed.

(** Either outcome of the setter. *)
Lemma function_arg_setter_outcome (g : Value) (s : State) (r : result unit)
    (s1 : State) :
  function_arg_setter g s = (r, s1) ->
  (s1 = s /\ exists e, r = Raise e)
  \/ (r = Ok tt
      /\ base (self s1) = base (self s)
      /\ _original_val (self s1) = _original_val (self s)
      /\ _original_arg (self s1) = _original_arg (self s)
      /\ _currently_zeroed (self s1) = false
      /\ (is_Some (_expression_state (self s)) ->
          is_Some (_expression_state (self s1)))
      /\ (forall e, g = VExpression e -> is_Some (_expression_state (self s1)))).
Proof.
  unfold function_arg_setter, bind, get_self, get_world, resolve_onto,
    modify_self, put_world, ret, raise.
  destruct g as [f|e|[z|t]|o]; simpl.
  - destruct (bool_decide (fn_space f <> function_space (self s))); simpl;
      intros H; inversion H; subst; simpl.
    + left. eauto.
    + right. repeat split; [auto | discriminate].
  - intros H; inversion H; subst; simpl. right. repeat split; eauto.
  - intros H; inversion H; subst; simpl. right. repeat split; [auto | discriminate].
  - destruct (has_SpatialCoordinate t); simpl;
      intros H; inversion H; subst; simpl; right;
      (repeat split; [auto | discriminate]).
  - destruct (to_expression o); simpl;
      intros H; inversion H; subst; simpl.
    + right. repeat split; [eauto | discriminate].
    + left. eauto.
Qed.

Lemma keeps_set_value (V : FunctionSpace) (sd : SubDomain) (v : Value) :
  keeps (settled V sd) (DirichletBC_set_value v).
Proof.
  intros s r s' HP. unfold DirichletBC_set_value. unfold bind at 1.
  destruct (function_arg_setter v s) as [r1 s1] eqn:Hs.
  apply function_arg_setter_outcome in Hs
    as [[-> [e ->]]|(-> & Hb1 & Ho1 & Ha1 & Hz1 & He1 & Hv1)].
  { intros H. inversion H; subst. exact HP. }
  destruct HP as (Hb & Hc & Ha & Hz & He).
  assert (Hget : forall e, _original_val (self s1) = VExpression e ->
                           _currently_zeroed (self s1) = false ->
                           is_Some (_expression_state (self s1))).
  { intros e Ho _. rewrite Ho1 in Ho. apply He1, (He e Ho). }
  destruct (function_arg_total s1 Hget) as (a & s2 & Hg).
  unfold bind at 1. rewrite Hg.
  pose proof (function_arg_frame _ _ _ Hg) as (Hg1 & Hb2 & _ & _ & Hz2 & _).
  assert (He2 : is_Some (_expression_state (self s1)) ->
                is_Some (_expression_state (self s2))).
  { revert Hg. rewrite function_arg_unfold.
    destruct (_original_val (self s1)) as [f|e|c|o] eqn:Ho.
    1,3,4: rewrite getter_not_expression by (intros e; congruence);
      intros H; inversion H; subst; auto.
    rewrite Hz1 in Hz2.
    destruct (Hget e eq_refl Hz1) as [st Hst].
    destruct (decide (_state (expressions (world s1) e) = st)) as [E|E].
    - rewrite getter_current with (e := e) by congruence.
      intros H; inversion H; subst; auto.
    - rewrite (getter_stale _ s1 e st Ho Hz1 Hst E).
      intros H; inversion H; subst. simpl. eauto. }
  unfold bind, modify_self. simpl. intros H. inversion H; subst; clear H. simpl.
  split; [|split; [|split; [|split]]]; simpl.
  - rewrite Hb2, Hb1. exact Hb.
  - rewrite Hb2, Hb1. exact Hc.
  - reflexivity.
  - rewrite Hz2, Hz1. discriminate.
  - intros e Hv. apply He2, (Hv1 e Hv).
Qed.

Lemma keeps_homogenize (V : FunctionSpace) (sd : SubDomain) :
  keeps (settled V sd) DirichletBC_homogenize.
Proof.
  intros s r s' (Hb & Hc & Ha & Hz & He). unfold DirichletBC_homogenize.
  unfold bind. rewrite function_arg_setter_int. unfold modify_self. simpl.
  intros H. inversion H; subst. simpl.
  split; [exact Hb|]. split; [exact Hc|]. simpl.
  split; [discriminate|]. split; [reflexivity | exact He].
Qed.

Lemma keeps_restore (V : FunctionSpace) (sd : SubDomain) :
  keeps (settled V sd) DirichletBC_restore.
Proof.
  intros s r s' (Hb & Hc & Ha & Hz & He). unfold DirichletBC_restore.
  unfold bind, modify_self. simpl. intros H. inversion H; subst. simpl.
  split; [exact Hb|]. split; [exact Hc|]. simpl.
  split; [reflexivity|]. split; [discriminate | exact He].
Qed.

Lemma keeps_apply (V : FunctionSpace) (sd : SubDomain) (r : Target)
    (u : option Function) :
  keeps (settled V sd) (DirichletBC_apply r u).
Proof.
  unfold DirichletBC_apply. destruct r as [m|r].
  - apply keeps_bind; [apply keeps_get_self|]. intros bc. apply keeps_Matrix_add_bc.
  - apply keeps_bind; [apply keeps_get_self|]. intros bc.
    apply keeps_bind.
    { destruct u as [u0|]; [|apply keeps_ret].
      destruct (bool_decide _); [apply keeps_raise | apply keeps_ret]. }
    intros _. apply keeps_bind.
    { destruct (space_matches _ _); [apply keeps_ret | apply keeps_raise]. }
    intros _. apply keeps_bind; [apply keeps_get_world|]. intros w.
    apply keeps_bind; [apply keeps_lift_result|]. intros [r' [u'|]].
    + apply keeps_bind; [apply keeps_function_arg|]. intros g.
      apply keeps_bind; [apply keeps_node_set_property|]. intros sb.
      apply keeps_Function_assign.
    + apply keeps_bind; [apply keeps_function_arg|]. intros g.
      apply keeps_bind; [apply keeps_node_set_property|]. intros sb.
      apply keeps_Function_assign.
Qed.

Lemma keeps_zero (V : FunctionSpace) (sd : SubDomain) (r : Target) :
  keeps (settled V sd) (BCBase_zero r).
Proof.
  unfold BCBase_zero. destruct r as [m|r]; [apply keeps_raise|].
  apply keeps_bind; [apply keeps_get_self|]. intros bc.
  apply keeps_bind; [apply keeps_get_world|]. intros w.
  apply keeps_bind; [apply keeps_lift_result|]. intros ru.
  apply keeps_except.
  apply keeps_bind; [apply keeps_node_set_property|]. intros sb.
  apply keeps_Function_zero.
Qed.

Lemma keeps_set (V : FunctionSpace) (sd : SubDomain) (r : Function) (v : Value) :
  keeps (settled V sd) (DirichletBC_set r v).
Proof.
  unfold DirichletBC_set.
  apply keeps_bind; [apply keeps_get_self|]. intros bc.
  apply keeps_bind; [apply keeps_get_world|]. intros w.
  apply keeps_bind; [apply keeps_lift_result|]. intros rv.
  apply keeps_bind; [apply keeps_node_set_property|]. intros sb.
  apply keeps_Function_assign.
Qed.

Lemma DirichletBC_init_settled (V : FunctionSpace) (g : Value) (sd : SubDomain)
    (meth : string) (w w' : World) (bc : DirichletBC) :
  DirichletBC_init V g sd meth w = (Ok bc, w') -> settled V sd bc.
Proof.
  unfold DirichletBC_init.
  destruct (BCBase_init V sd "topological") as [b|e] eqn:Hb; [|discriminate].
  pose proof (BCBase_init_consistent _ _ _ _ Hb) as Hc.
  set (s0 := mkState (mkDirichletBC b g g g false None) w).
  unfold bind at 1.
  destruct (function_arg_setter g s0) as [r1 s1] eqn:Hs.
  pose proof Hs as Hs'.
  apply function_arg_setter_outcome in Hs
    as [[-> [e ->]]|(-> & Hb1 & Ho1 & Ha1 & Hz1 & He1 & Hv1)]; [discriminate|].
  unfold bind at 1.
  rewrite (function_arg_after_setter s0 s1) by exact Hs'.
  unfold bind, modify_self. simpl. intros H. inversion H; subst; clear H.
  split; [|split; [|split; [|split]]]; simpl.
  - exists b. rewrite Hb1. simpl. split; [exact Hb|]. repeat split.
  - rewrite Hb1. exact Hc.
  - reflexivity.
  - discriminate.
  - intros e Hv. apply (Hv1 e). rewrite Ho1 in Hv. exact Hv.
Qed.

Lemma reachable_settled (V : FunctionSpace) (sd : SubDomain) (s : State) :
  reachable V sd s -> settled V sd (self s).
Proof.
  induction 1 as [g meth w bc w' Hi | s c r s' Hr IH Hc | s w' Hr IH].
  - simpl. exact (DirichletBC_init_settled _ _ _ _ _ _ _ Hi).
  - revert Hc. destruct c as [| | |v|t u|t|t v]; simpl; intros Hc.
    + refine (keeps_bind _ _ _ (keeps_function_arg V sd) _ s r s' IH Hc).
      intros a. apply keeps_ret.
    + exact (keeps_homogenize V sd s r s' IH Hc).
    + exact (keeps_restore V sd s r s' IH Hc).
    + exact (keeps_set_value V sd v s r s' IH Hc).
    + exact (keeps_apply V sd t u s r s' IH Hc).
    + exact (keeps_zero V sd t s r s' IH Hc).
    + exact (keeps_set V sd t v s r s' IH Hc).
  - simpl. exact IH.
Qed.

(** X5. However a DirichletBC has been used since its construction
    (reads, homogenize, restore, set_value, apply, zero, set, returning or
    raising, with anything outside the object changing in between): its
    value is its restore point unless it is homogenized, and the literal 0
    when it is; and a read of [function_arg] returns, with the flag and
    the original value as they were. *)
Theorem reachable_value_invariant (V : FunctionSpace) (sd : SubDomain) (s : State) :
  reachable V sd s ->
  (_currently_zeroed (self s) = false ->
   _function_arg (self s) = _original_arg (self s))
  /\ (_currently_zeroed (self s) = true ->
      _function_arg (self s) = VUfl (PyInt 0))
  /\ exists g s1,
       function_arg s = (Ok g, s1)
       /\ g = (if _currently_zeroed (self s) then VUfl (PyInt 0)
               else _original_arg (self s1))
       /\ _currently_zeroed (self s1) = _currently_zeroed (self s)
       /\ _original_val (self s1) = _original_val (self s).
Proof.
  intros Hr. apply reachable_settled in Hr.
  pose proof Hr as (_ & _ & Ha & Hz & _).
  split; [exact Ha|]. split; [exact Hz|].
  destruct (function_arg_settled V sd s Hr) as (g & s1 & Hg & Hs1 & Hg1 & Hz1 & Ho1).
  exists g, s1. split; [exact Hg|]. split; [|split; assumption].
  destruct Hs1 as (_ & _ & Ha1 & Hzz1 & _). rewrite <- Hz1.
  destruct (_currently_zeroed (self s1)); rewrite Hg1; auto.
Qed.

(** X6. However a DirichletBC has been used since its construction on
    [V] over [sd], its function space, sub-domain, method, index path and
    cache key are those computed at construction (the method being
    topological), and each cached slot is empty or holds the nodes of its
    space: no method changes where the boundary condition applies. *)
Theorem reachable_identity_invariant (V : FunctionSpace) (sd : SubDomain)
    (s : State) :
  reachable V sd s ->
  constructible V
  /\ function_space (self s) = V
  /\ sub_domain (base (self s)) = sd
  /\ method (base (self s)) = "topological"
  /\ (exists b0, BCBase_init V sd "topological" = Ok b0
        /\ _indices (base (self s)) = _indices b0
        /\ _cache_key (base (self s)) = _cache_key b0)
  /\ caches_consistent (base (self s))
  /\ fst (BCBase_nodes (base (self s)))
     = (if isinstance (finat_element V) [Hermite]
           && (topological_dimension V =? 1)%nat
        then every_second (boundary_nodes V sd "topological")
        else boundary_nodes V sd "topological").
Proof.
  intros Hr. apply reachable_settled in Hr.
  destruct Hr as ((b0 & Hb0 & H1 & H2 & H3 & H4 & H5) & Hc & _).
  pose proof (BCBase_init_inv _ _ _ _ Hb0) as (HV & _ & Hfs & Hsd & Hm & _).
  unfold function_space. rewrite H1, H2, H3, Hfs, Hsd, Hm.
  split; [exact HV|]. repeat (split; [reflexivity|]).
  split; [exists b0; repeat split; assumption|]. split; [exact Hc|].
  rewrite (proj1 (BCBase_nodes_spec _ Hc)). unfold expected_nodes.
  rewrite H1, H2, H3, Hfs, Hsd, Hm. reflexivity.
Qed.

End Invariants.

(** ** zero, set, and apply where it writes nothing *)

Lemma space_matches_ancestry (fs target : FunctionSpace) :
  space_matches fs target = bool_decide (target ∈ ancestry fs).
Proof.
  revert fs. fix IH 1. intros [n e d x i c s p].
  cbn [space_matches ancestry].
  destruct (decide (mkFunctionSpace n e d x i c s p = target)) as [Heq|Hne].
  - rewrite (bool_decide_eq_true_2 _ Heq). symmetry. apply bool_decide_eq_true.
    rewrite <- Heq. apply list_elem_of_here.
  - rewrite (bool_decide_eq_false_2 _ Hne). destruct p as [q|].
    + rewrite IH. apply bool_decide_ext. rewrite elem_of_cons.
      split; [auto | intros [H|H]; [congruence | exact H]].
    + symmetry. apply bool_decide_eq_false. rewrite elem_of_cons.
      intros [H|H]; [congruence | apply not_elem_of_nil in H; exact H].
Qed.

Section ZeroSetProperties.
Context `{FC : FieldCollaborators}.

Lemma Function_zero_is_assign (r : Function) (subset : Subset) (s : State) :
  Function_zero r subset s = Function_assign r (AValue (VUfl (PyInt 0))) subset s.
Proof. reflexivity. Qed.

(** The checks and the index loop of [apply] passed: what is left is the
    assignment, in the state after the read of the value and of the
    node set. *)
Lemma apply_runs_assign (s s1 : State) (r r' : Function) (u u' : option Function)
    (g : Value) :
  caches_consistent (base (self s)) ->
  (forall u0, u = Some u0 -> fn_space u0 = fn_space r) ->
  space_matches (function_space (self s)) (fn_space r) = true ->
  apply_indices (dats (world s)) (_indices (base (self s))) r u = Ok (r', u') ->
  function_arg s = (Ok g, s1) ->
  DirichletBC_apply (TFunction r) u s =
    Function_assign r'
      (match u' with Some u1 => ADiff u1 g | None => AValue g end)
      (mkSubset (node_set (function_space (self s)))
         (expected_nodes (base (self s))))
      (mkState (set_base (snd (BCBase_node_set (base (self s1)))) (self s1))
         (world s1)).
Proof.
  intros Hc Hu Hsp Hidx Hg.
  pose proof (function_arg_frame _ _ _ Hg) as (_ & Hb1 & _).
  assert (Hns : node_set_property s1 =
    (Ok (mkSubset (node_set (function_space (self s)))
           (expected_nodes (base (self s)))),
     mkState (set_base (snd (BCBase_node_set (base (self s1)))) (self s1))
       (world s1))).
  { unfold node_set_property, bind, get_self, modify_self, ret. simpl.
    assert (Hc1 : caches_consistent (base (self s1))) by (rewrite Hb1; exact Hc).
    pose proof (proj1 (BCBase_node_set_spec _ Hc1)) as H1.
    destruct (BCBase_node_set (base (self s1))) as [sb b']. simpl in *.
    rewrite H1. unfold function_space. rewrite Hb1. reflexivity. }
  unfold DirichletBC_apply. unfold bind at 1. unfold get_self at 1.
  unfold bind at 1.
  assert (Hchk : match u with
                 | Some u0 =>
                     if bool_decide (fn_space u0 <> fn_space r)
                     then raise RuntimeError else ret tt
                 | None => ret tt
                 end s = (Ok tt, s)).
  { destruct u as [u0|]; [|reflexivity].
    rewrite bool_decide_eq_false_2; [reflexivity|].
    intros Hn. apply Hn, Hu. reflexivity. }
  rewrite Hchk. unfold bind at 1. rewrite Hsp.
  unfold ret at 1. unfold bind at 1. unfold get_world at 1.
  unfold bind at 1. unfold lift_result at 1. rewrite Hidx.
  destruct u' as [u1|]; unfold bind at 1; rewrite Hg;
    unfold bind at 1; rewrite Hns; reflexivity.
Qed.

(** X7. Let the data of [r] have the sub-fields that the index path
    names, along the path [p].  Where the view of [r] there stands on the
    node set of the boundary condition and its arrays hold the nodes of
    the boundary condition, [zero(r)] writes zero at the entries of that
    view at those nodes and leaves every other entry as it was; it does
    not read the value of the boundary condition: nothing is resolved,
    even for a changed Expression, and the value, the restore point, the
    flag and the recorded Expression state are untouched.  Where the view
    stands on another node set, [zero(r)] raises RuntimeError and writes
    nothing. *)
Theorem zero_clears_the_node_set (s : State) (r : Function) (p : list nat) :
  let bc := self s in
  let ds := dats (world s) in
  let idxs := _indices (base bc) in
  let nodes := expected_nodes (base bc) in
  let r' := view_at r p in
  caches_consistent (base bc) ->
  has_subfields ds r idxs p ->
  (node_set (fn_space r') = node_set (function_space bc) ->
   target_fits ds r' nodes (AValue (VUfl (PyInt 0))) ->
   exists s',
     BCBase_zero (TFunction r) s = (Ok tt, s')
     /\ (forall q n,
           n ∈ nodes ->
           is_Some (entry ds (fn_dat r) (fn_path r ++ p ++ q) n) ->
           entry (dats (world s')) (fn_dat r) (fn_path r ++ p ++ q) n
           = Some (val_of_int 0))
     /\ (forall l a n,
           ~ selected r p nodes l a n ->
           entry (dats (world s')) l a n = entry ds l a n)
     /\ length (dats (world s')) = length ds
     /\ expressions (world s') = expressions (world s)
     /\ _function_arg (self s') = _function_arg bc
     /\ _original_arg (self s') = _original_arg bc
     /\ _original_val (self s') = _original_val bc
     /\ _currently_zeroed (self s') = _currently_zeroed bc
     /\ _expression_state (self s') = _expression_state bc)
  /\ (node_set (fn_space r') <> node_set (function_space bc) ->
      exists s',
        BCBase_zero (TFunction r) s = (Raise RuntimeError, s')
        /\ world s' = world s).
Proof.
  intros bc ds idxs nodes r' Hc Hr.
  assert (Hidx : apply_indices ds idxs r None = Ok (r', None)).
  { apply (apply_indices_defined ds idxs r None p []); [exact Hr|].
    intros u0 H. discriminate. }
  destruct (node_set_property_spec s Hc) as (b' & Hns & _ & _ & _).
  fold bc nodes in Hns.
  set (sb := mkSubset (node_set (function_space bc)) nodes) in Hns.
  set (s2 := mkState (set_base b' bc) (world s)) in Hns.
  assert (Hrun : BCBase_zero (TFunction r) s =
                 except_MapValueError
                   (Function_assign r' (AValue (VUfl (PyInt 0))) sb) s2).
  { unfold BCBase_zero. unfold bind at 1. unfold get_self at 1.
    unfold bind at 1. unfold get_world at 1. unfold bind at 1.
    unfold lift_result at 1. fold bc ds idxs. rewrite Hidx.
    unfold except_MapValueError. unfold bind at 1. rewrite Hns. reflexivity. }
  split.
  - intros Hsame Hfit.
    destruct (Function_assign_spec s2 r' (AValue (VUfl (PyInt 0))) sb
                (eq_sym Hsame) Hfit)
      as (s' & Hasg & Hself & Hex & _ & Hent).
    assert (Hlen : length (dats (world s')) = length ds).
    { revert Hasg. unfold Function_assign, bind, get_world, lift_result, put_world.
      simpl. destruct (dats (world s) !! fn_dat r); [|discriminate].
      destruct (bool_decide _); [discriminate|].
      destruct (dat_update _ _ _); [|discriminate].
      intros H. inversion H; subst. simpl. apply length_insert. }
    exists s'. split; [|split; [|split; [|split; [|split]]]].
    + rewrite Hrun. unfold except_MapValueError. rewrite Hasg. reflexivity.
    + intros q n Hn [old Hold].
      rewrite (Hent (fn_dat r) (fn_path r ++ p ++ q) n). simpl.
      fold ds. rewrite Hold. rewrite decide_True by reflexivity.
      replace (strip_prefix (fn_path r ++ p) (fn_path r ++ p ++ q))
        with (Some q) by (rewrite app_assoc; symmetry; apply strip_prefix_app).
      rewrite decide_True by exact Hn. reflexivity.
    + intros l a n Hsel. rewrite (Hent l a n). simpl. fold ds.
      destruct (entry ds l a n) as [old|]; [|reflexivity].
      destruct (decide (l = fn_dat r)) as [Hl|Hl]; [|reflexivity].
      destruct (strip_prefix (fn_path r ++ p) a) as [q|] eqn:Hq; [|reflexivity].
      destruct (decide (n ∈ nodes)) as [Hn|Hn]; [|reflexivity].
      exfalso. apply Hsel. apply strip_prefix_Some in Hq.
      split; [exact Hl|]. split; [exact Hn|]. exists q.
      rewrite Hq, <- app_assoc. reflexivity.
    + exact Hlen.
    + rewrite Hex. reflexivity.
    + rewrite Hself. repeat split.
  - intros Hne. destruct Hr as (d & sub & Hd & _).
    exists s2. split; [|reflexivity].
    rewrite Hrun. unfold except_MapValueError, Function_assign, bind, get_world.
    cbn [world s2 fn_dat r' view_at]. fold ds. rewrite Hd.
    cbn [superset sb].
    rewrite bool_decide_eq_true_2 by (intros Heq; apply Hne; symmetry; exact Heq).
    reflexivity.
Qed.

(** *** Errors of the assignment *)

Lemma leaf_assign_errors (rhs : nat -> option val) (nodes : list nat) :
  forall vs e, leaf_assign rhs nodes vs = Raise e ->
    e = MapValueError \/ (e = ValueError /\ exists n, rhs n = None).
Proof.
  induction nodes as [|m nodes IH]; intros vs e; simpl; [discriminate|].
  destruct (bool_decide (m < length vs)); [|intros H; inversion H; auto].
  destruct (rhs m) eqn:Hm; [apply IH|].
  intros H; inversion H. right. eauto.
Qed.

Lemma leaf_assign_bad (rhs : nat -> option val) (nodes : list nat) :
  forall vs,
    (forall n, is_Some (rhs n)) ->
    (exists n, n ∈ nodes /\ length vs <= n) ->
    leaf_assign rhs nodes vs = Raise MapValueError.
Proof.
  induction nodes as [|m nodes IH]; intros vs Ht (n & Hin & Hle); simpl.
  - apply not_elem_of_nil in Hin. contradiction.
  - destruct (bool_decide (m < length vs)) eqn:Hm; [|reflexivity].
    apply bool_decide_eq_true in Hm. destruct (Ht m) as [v Hv]. rewrite Hv.
    apply IH; [exact Ht|]. exists n. rewrite length_insert.
    apply elem_of_cons in Hin as [->|Hin]; [lia|]. split; assumption.
Qed.

Lemma children_result_errors {A B} (f : nat -> A -> result B) (Q : PyExc -> Prop)
    (cs : list A) :
  (forall c i e, c ∈ cs -> f i c = Raise e -> Q e) ->
  forall i e, children_result f i cs = Raise e -> Q e.
Proof.
  induction cs as [|c cs IH]; intros Hf i e; simpl; [discriminate|].
  destruct (f i c) as [c'|e'] eqn:Hc; simpl.
  - destruct (children_result f (S i) cs) as [rest|e''] eqn:Hr; simpl;
      [discriminate|].
    intros H; inversion H; subst.
    apply (IH (fun c0 i0 e0 Hin => Hf c0 i0 e0 (list_elem_of_further _ _ _ Hin))
             (S i) e Hr).
  - intros H; inversion H; subst. apply (Hf c i e (list_elem_of_here _ _) Hc).
Qed.

Lemma children_result_bad {A B} (f : nat -> A -> result B) (cs : list A) :
  (forall c i e, c ∈ cs -> f i c = Raise e -> e = MapValueError) ->
  forall i j c,
    cs !! j = Some c ->
    (forall i', f i' c = Raise MapValueError) ->
    children_result f i cs = Raise MapValueError.
Proof.
  induction cs as [|c0 cs IH]; intros Hf i j c Hj Hbad; [discriminate|].
  simpl. destruct j as [|j]; simpl in Hj.
  - injection Hj as ->. rewrite Hbad. reflexivity.
  - destruct (f i c0) as [c'|e'] eqn:Hc; simpl.
    + rewrite (IH (fun c1 i1 e1 Hin => Hf c1 i1 e1 (list_elem_of_further _ _ _ Hin))
                 (S i) j c Hj Hbad). reflexivity.
    + rewrite (Hf c0 i e' (list_elem_of_here _ _) Hc). reflexivity.
Qed.

Lemma dat_assign_errors (rhs : list nat -> nat -> option val) (nodes : list nat)
    (d : Dat val) :
  forall q e, dat_assign rhs nodes q d = Raise e ->
    e = MapValueError \/ (e = ValueError /\ exists p n, rhs p n = None).
Proof.
  induction d as [vs|ds IH] using Dat_nested_ind; intros q e; simpl.
  - destruct (leaf_assign (rhs q) nodes vs) as [vs'|e'] eqn:Hl; simpl;
      [discriminate|].
    intros H; inversion H; subst.
    apply leaf_assign_errors in Hl as [->|[-> [n Hn]]]; [auto|]. right. eauto.
  - destruct (children_result _ 0 ds) as [ds'|e'] eqn:Hc; simpl; [discriminate|].
    intros H; inversion H; subst.
    refine (children_result_errors _
              (fun e => e = MapValueError
                        \/ (e = ValueError /\ exists p n, rhs p n = None))
              ds _ 0 e Hc).
    intros c i e0 Hin. rewrite Forall_forall in IH. apply (IH c Hin).
Qed.

Lemma dat_assign_bad (rhs : list nat -> nat -> option val) (nodes : list nat)
    (d : Dat val) :
  (forall p n, is_Some (rhs p n)) ->
  forall q,
    (exists p vs n, dat_sub d p = Some (DLeaf vs) /\ n ∈ nodes /\ length vs <= n) ->
    dat_assign rhs nodes q d = Raise MapValueError.
Proof.
  intros Ht. induction d as [vs|ds IH] using Dat_nested_ind;
    intros q (p & vs' & n & Hp & Hn & Hle); simpl.
  - destruct p as [|i p]; [|discriminate]. injection Hp as <-.
    rewrite leaf_assign_bad; [reflexivity | intros m; apply Ht | eauto].
  - destruct p as [|j p]; [discriminate|]. simpl in Hp.
    destruct (ds !! j) as [c|] eqn:Hj; [|discriminate].
    rewrite Forall_forall in IH.
    rewrite (children_result_bad _ ds) with (j := j) (c := c); [reflexivity| |exact Hj|].
    + intros c0 i e Hin He. apply dat_assign_errors in He as [->|[_ (p0 & n0 & H0)]];
        [reflexivity|]. destruct (Ht p0 n0) as [v Hv]. congruence.
    + intros i'. apply (IH c (list_elem_of_lookup_2 _ _ _ Hj)).
      exists p, vs', n. auto.
Qed.

Lemma dat_update_raise (f : Dat val -> result (Dat val)) (p : list nat) :
  forall d sub e, dat_sub d p = Some sub -> f sub = Raise e ->
    dat_update f p d = Raise e.
Proof.
  induction p as [|i p IH]; intros d sub e; simpl.
  - intros H Hf. injection H as ->. exact Hf.
  - destruct d as [vs|ds]; [discriminate|].
    destruct (ds !! i) as [c|]; [|discriminate].
    intros H Hf. rewrite (IH _ _ _ H Hf). reflexivity.
Qed.

Lemma dat_update_errors (f : Dat val -> result (Dat val)) (Q : PyExc -> Prop)
    (p : list nat) :
  Q IndexError ->
  (forall sub e, f sub = Raise e -> Q e) ->
  forall d e, dat_update f p d = Raise e -> Q e.
Proof.
  intros HI Hf. induction p as [|i p IH]; intros d e; simpl.
  - apply Hf.
  - destruct d as [vs|ds]; [intros H; inversion H; subst; exact HI|].
    destruct (ds !! i) as [c|]; [|intros H; inversion H; subst; exact HI].
    destruct (dat_update f p c) as [c'|e'] eqn:Hu; simpl; [discriminate|].
    intros H; inversion H; subst. apply (IH _ _ Hu).
Qed.

(** [Function.assign] raises nothing but IndexError, MapValueError and
    ValueError, and what it does to the world depends on the world
    alone. *)
Lemma Function_assign_outcome (r : Function) (e : AssignExpr) (subset : Subset)
    (s t : State) (res : result unit) (s' : State) :
  world t = world s ->
  Function_assign r e subset s = (res, s') ->
  Function_assign r e subset t = (res, mkState (self t) (world s'))
  /\ self s' = self s
  /\ res <> Raise RuntimeError.
Proof.
  unfold Function_assign, bind, get_world, lift_result, put_world, raise.
  intros Hw. rewrite Hw. destruct (dats (world s) !! fn_dat r) as [d|].
  - destruct (bool_decide (superset subset <> node_set (fn_space r))).
    { intros H; inversion H; subst. simpl.
      assert (Hs : {| self := self t; world := world s' |} = t)
        by (destruct t; simpl in *; congruence).
      rewrite Hs. repeat split. discriminate. }
    destruct (dat_update _ (fn_path r) d) as [d'|ex] eqn:Hu.
    + intros H; inversion H; subst. simpl. repeat split. discriminate.
    + intros H; inversion H; subst. simpl.
      assert (Hs : {| self := self t; world := world s' |} = t)
        by (destruct t; simpl in *; congruence).
      rewrite Hs. repeat split.
      refine (dat_update_errors _ (fun x => Raise x <> Raise RuntimeError)
                _ _ _ d ex Hu); [discriminate|].
      intros sub e0 He.
      apply dat_assign_errors in He as [->|[-> _]]; discriminate.
  - intros H; inversion H; subst. simpl.
    assert (Hs : {| self := self t; world := world s' |} = t)
      by (destruct t; simpl in *; congruence).
    rewrite Hs. repeat split. discriminate.
Qed.

(** X8. [zero] on a Matrix raises NotImplementedError and changes
    nothing.  [zero] never lets a MapValueError out: where the target has
    an array that does not hold a node of the boundary condition it raises
    RuntimeError, and the fields are as they were. *)
Theorem zero_error_behaviour (s : State) :
  (forall m, BCBase_zero (TMatrix m) s = (Raise NotImplementedError, s))
  /\ (forall r res s', BCBase_zero r s = (res, s') -> res <> Raise MapValueError)
  /\ (forall r r' d sub q vs n,
        caches_consistent (base (self s)) ->
        apply_indices (dats (world s)) (_indices (base (self s))) r None
        = Ok (r', None) ->
        dats (world s) !! fn_dat r' = Some d ->
        dat_sub d (fn_path r') = Some sub ->
        dat_sub sub q = Some (DLeaf vs) ->
        n ∈ expected_nodes (base (self s)) ->
        length vs <= n ->
        exists s', BCBase_zero (TFunction r) s = (Raise RuntimeError, s')
                   /\ world s' = world s).
Proof.
  split; [|split].
  - intros m. reflexivity.
  - intros [m|r] res s'; simpl.
    + intros H; inversion H; subst. discriminate.
    + unfold bind at 1. unfold get_self at 1. unfold bind at 1.
      unfold get_world at 1. unfold bind at 1. unfold lift_result at 1.
      destruct (apply_indices _ _ r None) as [ru|e] eqn:Hidx.
      * unfold except_MapValueError.
        match goal with
        | |- (match ?m with _ => _ end) = _ -> _ =>
            destruct m as [[[]|e] s1]
        end.
        -- intros H; inversion H; subst. discriminate.
        -- destruct e; intros H; inversion H; subst; discriminate.
      * apply apply_indices_raises in Hidx. subst e.
        intros H; inversion H; subst. discriminate.
  - intros r r' d sub q vs n Hc Hidx Hd Hsub Hq Hn Hle.
    destruct (node_set_property_spec s Hc) as (b' & Hns & _ & _ & _).
    eexists. split.
    + unfold BCBase_zero. unfold bind at 1. unfold get_self at 1.
      unfold bind at 1. unfold get_world at 1. unfold bind at 1.
      unfold lift_result at 1. rewrite Hidx.
      unfold except_MapValueError. unfold bind at 1. rewrite Hns. cbn [fst].
      unfold Function_zero, bind, get_world, lift_result. simpl.
      rewrite Hd.
      destruct (bool_decide _); [reflexivity|].
      rewrite (dat_update_raise _ _ _ _ MapValueError Hsub); [reflexivity|].
      apply dat_assign_bad; [intros p m; eauto|]. exists q, vs, n. auto.
    + reflexivity.
Qed.

(** The loop of [set] over [r] and a Function is the loop over each of
    them. *)
Lemma set_indices_pair (ds : list (Dat val)) (idxs : list nat) :
  forall r f,
    set_indices ds idxs r (VFunction f) =
      match apply_indices ds idxs r None, apply_indices ds idxs f None with
      | Ok (r', _), Ok (f', _) => Ok (r', VFunction f')
      | _, _ => Raise IndexError
      end.
Proof.
  induction idxs as [|i idxs IH]; intros r f; [reflexivity|].
  cbn [set_indices apply_indices Value_sub].
  destruct (Function_sub ds r i) as [r1|e1] eqn:Hr; cbn [result_bind].
  - destruct (Function_sub ds f i) as [f1|e2] eqn:Hf; cbn [result_bind].
    + apply IH.
    + apply Function_sub_raises in Hf. subst e2.
      destruct (apply_indices ds idxs r1 None) as [[r' o]|e]; reflexivity.
  - apply Function_sub_raises in Hr. subst e1. reflexivity.
Qed.

(** Where the data of [r] has the sub-fields, and [val] is a Function
    whose data has them too or the index path is empty, the loop of [set]
    returns the views. *)
Lemma set_indices_defined (ds : list (Dat val)) (idxs : list nat)
    (r : Function) (v v' : Value) (p : list nat) :
  has_subfields ds r idxs p ->
  (idxs = [] /\ v' = v)
  \/ (exists f pf, v = VFunction f /\ has_subfields ds f idxs pf
                   /\ v' = VFunction (view_at f pf)) ->
  set_indices ds idxs r v = Ok (view_at r p, v').
Proof.
  intros (d & sub & Hd & Hsub & Hw)
    [[-> ->]|(f & pf & -> & (df & subf & Hdf & Hsubf & Hwf) & ->)].
  - simpl in Hw. injection Hw as <-. simpl. rewrite view_at_nil. reflexivity.
  - rewrite set_indices_pair.
    rewrite (apply_indices_walk _ _ _ _ _ Hd Hsub), Hw.
    rewrite (apply_indices_walk _ _ _ _ _ Hdf Hsubf), Hwf. reflexivity.
Qed.

(** X9. Let the data of [r] have the sub-fields that the index path
    names, along the path [p], and let [val] be a Function whose data has
    them too (or any value when the index path is empty); [v'] is [val]
    at those sub-fields.  Where the view of [r] there stands on the node
    set of the boundary condition and its arrays hold the nodes of the
    boundary condition, [set(r, val)] writes the value of [v'] into the
    entries of that view at those nodes and leaves every other entry as
    it was; it neither reads nor changes the value of the boundary
    condition, and resolves nothing.  Where the view stands on another
    node set, [set(r, val)] raises MapValueError and writes nothing. *)
Theorem set_assigns_the_given_value (s : State) (r : Function) (v v' : Value)
    (p : list nat) :
  let bc := self s in
  let ds := dats (world s) in
  let idxs := _indices (base bc) in
  let nodes := expected_nodes (base bc) in
  let r' := view_at r p in
  caches_consistent (base bc) ->
  has_subfields ds r idxs p ->
  (idxs = [] /\ v' = v)
  \/ (exists f pf, v = VFunction f /\ has_subfields ds f idxs pf
                   /\ v' = VFunction (view_at f pf)) ->
  (node_set (fn_space r') = node_set (function_space bc) ->
   target_fits ds r' nodes (AValue v') ->
   exists s',
     DirichletBC_set r v s = (Ok tt, s')
     /\ (forall q n,
           n ∈ nodes ->
           is_Some (entry ds (fn_dat r) (fn_path r ++ p ++ q) n) ->
           exists x,
             eval_value ds v' q n = Some x
             /\ entry (dats (world s')) (fn_dat r) (fn_path r ++ p ++ q) n
                = Some x)
     /\ (forall l a n,
           ~ selected r p nodes l a n ->
           entry (dats (world s')) l a n = entry ds l a n)
     /\ expressions (world s') = expressions (world s)
     /\ _function_arg (self s') = _function_arg bc
     /\ _original_arg (self s') = _original_arg bc
     /\ _original_val (self s') = _original_val bc
     /\ _currently_zeroed (self s') = _currently_zeroed bc
     /\ _expression_state (self s') = _expression_state bc)
  /\ (node_set (fn_space r') <> node_set (function_space bc) ->
      exists s',
        DirichletBC_set r v s = (Raise MapValueError, s')
        /\ world s' = world s).
Proof.
  intros bc ds idxs nodes r' Hc Hr Hv.
  pose proof (set_indices_defined ds idxs r v v' p Hr Hv) as Hidx.
  destruct (node_set_property_spec s Hc) as (b' & Hns & _ & _ & _).
  fold bc nodes in Hns.
  set (sb := mkSubset (node_set (function_space bc)) nodes) in Hns.
  set (s2 := mkState (set_base b' bc) (world s)) in Hns.
  assert (Hrun : DirichletBC_set r v s = Function_assign r' (AValue v') sb s2).
  { unfold DirichletBC_set. unfold bind at 1. unfold get_self at 1.
    unfold bind at 1. unfold get_world at 1. unfold bind at 1.
    unfold lift_result at 1. fold bc ds idxs. rewrite Hidx.
    unfold bind at 1. rewrite Hns. reflexivity. }
  split.
  - intros Hsame Hfit.
    destruct (Function_assign_spec s2 r' (AValue v') sb (eq_sym Hsame) Hfit)
      as (s' & Hasg & Hself & Hex & _ & Hent).
    exists s'. split; [|split; [|split; [|split]]].
    + rewrite Hrun. exact Hasg.
    + intros q n Hn [old Hold].
      assert (Hnew := Hent (fn_dat r) (fn_path r ++ p ++ q) n).
      simpl in Hnew. fold ds in Hnew. rewrite Hold in Hnew.
      rewrite decide_True in Hnew by reflexivity.
      replace (strip_prefix (fn_path r ++ p) (fn_path r ++ p ++ q))
        with (Some q) in Hnew
        by (rewrite app_assoc; symmetry; apply strip_prefix_app).
      rewrite decide_True in Hnew by exact Hn.
      destruct Hfit as (d & sub & Hd & Hsub & Hleaf).
      assert (Hev : is_Some (eval_value ds v' q n)).
      { unfold entry in Hold. simpl in Hd, Hsub. rewrite Hd in Hold.
        rewrite app_assoc in Hold.
        rewrite (dat_entry_sub _ _ _ _ _ Hsub) in Hold.
        unfold dat_entry in Hold.
        destruct (dat_sub sub q) as [[vs|cs]|] eqn:Hq; try discriminate.
        apply (Hleaf q vs Hq n Hn). }
      destruct Hev as [x Hx]. exists x. split; [exact Hx|].
      rewrite Hnew. exact Hx.
    + intros l a n Hsel. rewrite (Hent l a n). simpl. fold ds.
      destruct (entry ds l a n) as [old|]; [|reflexivity].
      destruct (decide (l = fn_dat r)) as [Hl|Hl]; [|reflexivity].
      destruct (strip_prefix (fn_path r ++ p) a) as [q|] eqn:Hq; [|reflexivity].
      destruct (decide (n ∈ nodes)) as [Hn|Hn]; [|reflexivity].
      exfalso. apply Hsel. apply strip_prefix_Some in Hq.
      split; [exact Hl|]. split; [exact Hn|]. exists q.
      rewrite Hq, <- app_assoc. reflexivity.
    + rewrite Hex. reflexivity.
    + rewrite Hself. repeat split.
  - intros Hne. destruct Hr as (d & sub & Hd & _).
    exists s2. split; [|reflexivity].
    rewrite Hrun. unfold Function_assign, bind, get_world.
    cbn [world s2 fn_dat r' view_at]. fold ds. rewrite Hd.
    cbn [superset sb].
    rewrite bool_decide_eq_true_2 by (intros Heq; apply Hne; symmetry; exact Heq).
    reflexivity.
Qed.

(** X10. Where [apply] writes to no field.  On a Matrix it records the
    boundary condition as it is against the matrix, whatever [u] is, and
    reads no value.  With [u] on another space than [r], or with [r] on a
    space that is neither the space of the boundary condition nor one of
    its ancestors, it raises RuntimeError before anything is read or
    resolved: the object and the world are as they were. *)
Theorem apply_without_effect_on_fields (s : State) :
  (forall m bcs u,
     matrices (world s) !! m = Some bcs ->
     DirichletBC_apply (TMatrix m) u s =
       (Ok tt,
        mkState (self s)
          (mkWorld (dats (world s)) (expressions (world s))
             (<[m := bcs ++ [self s]]> (matrices (world s))))))
  /\ (forall r u0,
        fn_space u0 <> fn_space r ->
        DirichletBC_apply (TFunction r) (Some u0) s = (Raise RuntimeError, s))
  /\ (forall r u,
        fn_space r ∉ ancestry (function_space (self s)) ->
        DirichletBC_apply (TFunction r) u s = (Raise RuntimeError, s)).
Proof.
  split; [|split].
  - intros m bcs u Hm. unfold DirichletBC_apply, Matrix_add_bc.
    unfold bind, get_self, get_world, put_world. simpl. rewrite Hm. reflexivity.
  - intros r u0 Hne. unfold DirichletBC_apply.
    unfold bind at 1. unfold get_self at 1. unfold bind at 1.
    rewrite bool_decide_eq_true_2 by exact Hne. reflexivity.
  - intros r u Hnot. unfold DirichletBC_apply.
    unfold bind at 1. unfold get_self at 1. unfold bind at 1.
    destruct u as [u0|].
    + destruct (bool_decide (fn_space u0 <> fn_space r)); [reflexivity|].
      unfold ret at 1. unfold bind at 1.
      rewrite space_matches_ancestry, bool_decide_eq_false_2 by exact Hnot.
      reflexivity.
    + unfold ret at 1. unfold bind at 1.
      rewrite space_matches_ancestry, bool_decide_eq_false_2 by exact Hnot.
      reflexivity.
Qed.

(** X11. For a Function on the space of the boundary condition or one
    of its ancestors, on which the index path is defined: where [zero(r)]
    returns, [homogenize()] followed by [apply(r)] returns with the very
    same world; where [zero(r)] raises RuntimeError, the pair raises the
    MapValueError that [zero] rewraps, which [apply] lets through. *)
Theorem homogenized_apply_is_zero (s : State) (r r' : Function) :
  caches_consistent (base (self s)) ->
  space_matches (function_space (self s)) (fn_space r) = true ->
  apply_indices (dats (world s)) (_indices (base (self s))) r None
  = Ok (r', None) ->
  let pair := bind DirichletBC_homogenize
                (fun _ => DirichletBC_apply (TFunction r) None) in
  (forall s1, BCBase_zero (TFunction r) s = (Ok tt, s1) ->
     exists s2, pair s = (Ok tt, s2) /\ world s2 = world s1)
  /\ (forall s1, BCBase_zero (TFunction r) s = (Raise RuntimeError, s1) ->
     exists s2, pair s = (Raise MapValueError, s2) /\ world s2 = world s1).
Proof.
  intros Hc Hsp Hidx pair.
  destruct (node_set_property_spec s Hc) as (b' & Hns & _ & _ & _).
  set (sb := mkSubset (node_set (function_space (self s)))
               (expected_nodes (base (self s)))) in *.
  set (s2 := mkState (set_base b' (self s)) (world s)) in *.
  assert (Hzero : BCBase_zero (TFunction r) s =
                  except_MapValueError
                    (Function_assign r' (AValue (VUfl (PyInt 0))) sb) s2).
  { unfold BCBase_zero. unfold bind at 1. unfold get_self at 1.
    unfold bind at 1. unfold get_world at 1. unfold bind at 1.
    unfold lift_result at 1. rewrite Hidx.
    unfold except_MapValueError. unfold bind at 1. rewrite Hns. reflexivity. }
  set (sH := mkState
               (mkDirichletBC (base (self s)) (_original_val (self s))
                  (VUfl (PyInt 0)) (_original_arg (self s)) true
                  (_expression_state (self s)))
               (world s)).
  assert (Hpair : exists t, world t = world s /\
                  pair s = Function_assign r' (AValue (VUfl (PyInt 0))) sb t).
  { eexists. split; [|unfold pair; unfold bind at 1; unfold DirichletBC_homogenize;
      unfold bind at 1; rewrite function_arg_setter_int; unfold modify_self;
      cbv beta iota zeta;
      apply (apply_runs_assign sH sH r r' None None (VUfl (PyInt 0)));
      [exact Hc | discriminate | exact Hsp | exact Hidx
      | rewrite function_arg_unfold; apply getter_zeroed; reflexivity]].
    reflexivity. }
  destruct Hpair as (t & Ht & Hp). rewrite Hzero, Hp.
  unfold except_MapValueError.
  destruct (Function_assign r' (AValue (VUfl (PyInt 0))) sb s2) as [res s1'] eqn:Ha.
  assert (Hw : world t = world s2) by (rewrite Ht; reflexivity).
  pose proof (Function_assign_outcome _ _ _ s2 t res s1' Hw Ha) as (Ht' & _ & Hnr).
  rewrite Ht'. split.
  - intros s1. destruct res as [[]|e].
    + intros H; inversion H; subst. eexists. split; reflexivity.
    + destruct e; discriminate.
  - intros s1. destruct res as [[]|e]; [discriminate|].
    destruct e; intros H; inversion H; subst;
      try (exfalso; apply Hnr; reflexivity).
    eexists. split; reflexivity.
Qed.

End ZeroSetProperties.

(** ** reconstruct and homogenize of nested iterables *)

Section ReconstructProperties.
Context `{FC : FieldCollaborators}.

Lemma DirichletBC_init_other_space (V : FunctionSpace) (f : Function)
    (sd : SubDomain) (meth : string) (w : World) :
  constructible V ->
  fn_space f <> V ->
  DirichletBC_init V (VFunction f) sd meth w = (Raise RuntimeError, w).
Proof.
  intros Hc Hf.
  destruct (BCBase_init_ok V sd "topological" Hc) as (b & Hb & Hb' & _).
  { apply list_elem_of_here. }
  unfold DirichletBC_init. rewrite Hb.
  unfold bind at 1. unfold function_arg_setter.
  unfold bind at 1 2 3. unfold get_self at 1. unfold get_world at 1.
  unfold function_space. cbn [self base world]. rewrite Hb'.
  rewrite bool_decide_eq_true_2 by exact Hf. reflexivity.
Qed.

Lemma BCArg_nested_ind (P : BCArg -> Prop) :
  (forall bc, P (ABC bc)) ->
  (forall items, Forall P items -> P (AIter items)) ->
  forall a, P a.
Proof.
  intros Hb Hi. fix IH 1. intros [bc|items].
  - apply Hb.
  - apply Hi. induction items as [|i items IHl]; constructor; [apply IH | exact IHl].
Qed.

(** X12. [reconstruct] with every effective argument equal to what the
    boundary condition has returns the boundary condition itself and
    changes nothing.  Whenever it returns, the boundary condition is
    unchanged; a new object stands on the effective space and
    sub-domain, is built from the effective value (the restore point when
    no [g] is given), is not homogenized and has the method topological,
    so that asking for another method than the boundary condition has
    never returns the boundary condition itself.  [reconstruct] does not
    see [homogenize]: it gives the same result on the homogenized boundary
    condition.  Onto another space it raises RuntimeError whenever the
    restore point is a Function. *)
Theorem reconstruct_behaviour (value_eq : Value -> Value -> bool) (s : State) :
  let bc := self s in
  let fs := function_space bc in
  (forall V g sd meth,
     default fs V = fs ->
     value_eq (default (_original_arg bc) g) (_original_arg bc) = true ->
     default (sub_domain (base bc)) sd = sub_domain (base bc) ->
     default (method (base bc)) meth = method (base bc) ->
     DirichletBC_reconstruct value_eq V g sd meth s = (Ok SameObject, s))
  /\ (forall V g sd meth res s',
     DirichletBC_reconstruct value_eq V g sd meth s = (Ok res, s') ->
     self s' = self s
     /\ (default (method (base bc)) meth <> method (base bc) -> res <> SameObject)
     /\ (forall new, res = NewObject new ->
           function_space new = default fs V
           /\ sub_domain (base new) = default (sub_domain (base bc)) sd
           /\ method (base new) = "topological"
           /\ _original_val new = default (_original_arg bc) g
           /\ _currently_zeroed new = false))
  /\ (forall V g sd meth sH res sH',
     DirichletBC_homogenize s = (Ok tt, sH) ->
     DirichletBC_reconstruct value_eq V g sd meth sH = (res, sH') ->
     exists s', DirichletBC_reconstruct value_eq V g sd meth s = (res, s')
                /\ world s' = world sH')
  /\ (forall V2 f sd meth,
     _original_arg bc = VFunction f ->
     fn_space f = fs ->
     V2 <> fs ->
     constructible V2 ->
     DirichletBC_reconstruct value_eq (Some V2) None sd meth s
     = (Raise RuntimeError, s)).
Proof.
  intros bc fs. split; [|split; [|split]].
  - intros V g sd meth HV Hg Hsd Hm.
    unfold DirichletBC_reconstruct, bind, get_self. cbv zeta.
    change (match V with Some V0 => V0 | None => function_space (self s) end)
      with (default fs V).
    change (match g with Some g0 => g0 | None => _original_arg (self s) end)
      with (default (_original_arg bc) g).
    change (match sd with Some s0 => s0 | None => sub_domain (base (self s)) end)
      with (default (sub_domain (base bc)) sd).
    change (match meth with Some m => m | None => method (base (self s)) end)
      with (default (method (base bc)) meth).
    fold bc. fold fs. rewrite HV, Hg, Hsd, Hm.
    rewrite !bool_decide_eq_true_2 by reflexivity. reflexivity.
  - intros V g sd meth res s'.
    unfold DirichletBC_reconstruct, bind, get_self. cbv zeta.
    change (match V with Some V0 => V0 | None => function_space (self s) end)
      with (default fs V).
    change (match g with Some g0 => g0 | None => _original_arg (self s) end)
      with (default (_original_arg bc) g).
    change (match sd with Some s0 => s0 | None => sub_domain (base (self s)) end)
      with (default (sub_domain (base bc)) sd).
    change (match meth with Some m => m | None => method (base (self s)) end)
      with (default (method (base bc)) meth).
    fold bc. fold fs.
    destruct (_ && _ && _ && bool_decide (default (method (base bc)) meth
                                           = method (base bc))) eqn:Hcond;
      cbv beta.
    + intros H. inversion H; subst. split; [reflexivity|]. split.
      * intros Hm. apply andb_true_iff in Hcond as [_ Hcond].
        apply bool_decide_eq_true in Hcond. contradiction.
      * intros new Hnew. discriminate.
    + destruct (DirichletBC_init _ _ _ _ (world s)) as [[new|e] w'] eqn:Hi;
        [|discriminate].
      intros H. inversion H; subst. split; [reflexivity|]. split; [discriminate|].
      intros new' Hnew. injection Hnew as <-.
      apply DirichletBC_init_inv in Hi as ([Hz _] & _ & Hfs & Hsd & Hm & _ & Ho).
      repeat split; assumption.
  - intros V g sd meth sH res sH' Hh. injection Hh as <-.
    unfold DirichletBC_reconstruct, bind, get_self. cbv zeta.
    unfold function_space, set_currently_zeroed, set_function_arg.
    cbn [self world base _original_arg].
    destruct (_ && _ && _ && _); cbv beta; cbn [self world].
    + intros H. inversion H; subst. eexists. split; reflexivity.
    + destruct (DirichletBC_init _ _ _ _ (world s)) as [[new|e] w'];
        intros H; inversion H; subst; eexists; split; reflexivity.
  - intros V2 f sd meth Ho Hf HV Hc.
    unfold DirichletBC_reconstruct, bind, get_self. cbv zeta.
    fold bc fs. rewrite bool_decide_eq_false_2 by exact HV. cbn [andb].
    rewrite Ho. rewrite DirichletBC_init_other_space;
      [destruct s; reflexivity | exact Hc | congruence].
Qed.

(** X13. [homogenize] of any nesting of lists of boundary conditions
    returns, leaves the world as it is, and gives the same nesting with,
    in the place of each boundary condition, one of value 0 on the same
    space and sub-domain. *)
Theorem homogenize_nested (a : BCArg) :
  forall w : World,
    all_constructible a ->
    exists res, homogenize a w = (Ok res, w) /\ homogeneous_copy a res.
Proof.
  induction a as [bc|items IH] using BCArg_nested_ind; intros w Hall.
  - inversion Hall as [bc' Hc|]; subst.
    destruct (BCBase_init_ok (function_space bc) (sub_domain (base bc))
                "topological" Hc) as (b & Hb & _).
    { apply list_elem_of_here. }
    eexists. split; [|apply (copy_bc bc b Hb)].
    simpl. unfold bind. rewrite (DirichletBC_init_zero _ _ _ _ _ Hb). reflexivity.
  - inversion Hall as [|items' Hitems]; subst.
    enough (H : exists hs,
      (fix comprehension (l : list BCArg) : M World (list BCRes) :=
         match l with
         | [] => ret []
         | i :: rest =>
             bind (homogenize i) (fun h =>
             bind (comprehension rest) (fun hs => ret (h :: hs)))
         end) items w = (Ok hs, w)
      /\ Forall2 homogeneous_copy items hs).
    { destruct H as (hs & Hc & Hf). exists (RList hs).
      split; [|apply copy_iter; exact Hf].
      change (homogenize (AIter items) w) with
        (match (fix comprehension (l : list BCArg) : M World (list BCRes) :=
           match l with
           | [] => ret []
           | i :: rest =>
               bind (homogenize i) (fun h =>
               bind (comprehension rest) (fun hs => ret (h :: hs)))
           end) items w with
         | (Raise TypeError, w') => (Raise AttributeError, w')
         | (Ok hs, w') => (Ok (RList hs), w')
         | (Raise e, w') => (Raise e, w')
         end).
      rewrite Hc. reflexivity. }
    induction items as [|i items IHl].
    + exists []. split; [reflexivity | constructor].
    + apply Forall_cons in IH as [IHi IH]. apply Forall_cons in Hitems as [Hi Hitems].
      destruct (IHl IH (all_iter _ Hitems) Hitems) as (hs & Hc & Hf).
      destruct (IHi w Hi) as (h & Hh & Hcopy).
      exists (h :: hs). split; [|constructor; assumption].
      unfold bind at 1. rewrite Hh. unfold bind at 1. rewrite Hc. reflexivity.
Qed.

End ReconstructProperties.

(** ** The branches of EquationBC and the integrals *)

Section MoreFormProperties.
Context `{FO : FormCollaborators}.

Lemma isinstance_form_obj (st : FormStore) (l : loc) :
  isinstance_form st (PObj l) [UflForm; SlateTensor] = true.
Proof.
  simpl. apply bool_decide_eq_true.
  destruct (form_class (form_at st l)).
  - apply list_elem_of_here.
  - apply list_elem_of_further, list_elem_of_here.
Qed.

Lemma isinstance_form_true (st : FormStore) (x : PyVal) (cls : list FormClass) :
  isinstance_form st x cls = true -> exists l, x = PObj l.
Proof. destruct x as [l|z]; [eauto | discriminate]. Qed.

(** X14. The linear branch (both sides are [ufl.Form]).  A right-hand
    side that does not have exactly one argument is ValueError and
    nothing is created.  Otherwise the left-hand side itself is the
    Jacobian, whatever its number of arguments and whatever [J] was
    passed; [Jp] is stored unchecked when it is given and truthy and is
    the Jacobian otherwise; the residual is one new form object,
    [action(J, u) - rhs], and no other form object changes. *)
Theorem EquationBC_linear_branch (st : FormStore) (l lr : loc) (u : Function)
    (sd : SubDomain) (J Jp : option PyVal) (meth : string) (V : FunctionSpace)
    (rest : list FunctionSpace) (b : BCBase) :
  form_arguments (form_at st l) = V :: rest ->
  BCBase_init V sd "topological" = Ok b ->
  form_class (form_at st l) = UflForm ->
  form_class (form_at st lr) = UflForm ->
  let init := EquationBC_init (mkEquation (PObj l) (PObj lr)) u sd J Jp meth st in
  (length (form_arguments (form_at st lr)) <> 1 -> init = (Raise ValueError, st))
  /\ (length (form_arguments (form_at st lr)) = 1 ->
      exists ebc st',
        init = (Ok ebc, st')
        /\ ebc_base ebc = b
        /\ ebc_u ebc = u
        /\ ebc_J ebc = PObj l
        /\ ebc_Jp ebc = match Jp with
                        | Some x => if is_zero x then PObj l else x
                        | None => PObj l
                        end
        /\ ebc_F ebc = PObj (next_form st)
        /\ form_at st' (next_form st)
           = form_minus (action (form_at st l) u) (form_at st lr)
        /\ (forall l', l' <> next_form st -> form_at st' l' = form_at st l')
        /\ ebc_Jp_eq_J ebc = bool_decide (Jp = None)
        /\ ebc_is_linear ebc = true
        /\ ebc_bcs ebc = None).
Proof.
  intros Hargs Hb Hl Hr init.
  assert (Hor : py_or Jp (ret (PObj l)) st =
                (Ok match Jp with
                    | Some x => if is_zero x then PObj l else x
                    | None => PObj l
                    end, st)).
  { destruct Jp as [x|]; [|reflexivity]. simpl. destruct (is_zero x); reflexivity. }
  assert (Hinit : init =
    bind (if bool_decide (length (form_arguments (form_at st lr)) <> 1)
          then raise ValueError
          else new_form (form_minus (action (form_at st l) u) (form_at st lr)))
      (fun F' =>
         ret (mkEquationBC b u None None (bool_decide (Jp = None)) (PObj l)
                match Jp with
                | Some x => if is_zero x then PObj l else x
                | None => PObj l
                end F' true)) st).
  { unfold init, EquationBC_init. unfold bind at 1. unfold get at 1.
    unfold bind at 1. unfold lift_result at 1. cbn [lhs rhs arguments].
    rewrite Hargs. unfold bind at 1. unfold lift_result at 1. rewrite Hb.
    cbn [isinstance_form]. rewrite Hl, Hr.
    rewrite (bool_decide_eq_true_2 (UflForm ∈ [UflForm])) by apply list_elem_of_here.
    cbn [andb]. unfold bind at 1. rewrite Hor.
    unfold is_zero at 1.
    rewrite (bool_decide_eq_false_2 (PObj lr = PNum 0)) by discriminate.
    rewrite (bool_decide_eq_true_2 (UflForm ∈ [UflForm; SlateTensor]))
      by apply list_elem_of_here.
    reflexivity. }
  split.
  - intros Hn. rewrite Hinit. rewrite bool_decide_eq_true_2 by exact Hn.
    reflexivity.
  - intros Hn. rewrite Hinit.
    rewrite bool_decide_eq_false_2 by (intros Hne; apply Hne, Hn).
    eexists _, _. split; [reflexivity|]. simpl.
    rewrite bool_decide_eq_true_2 by reflexivity.
    repeat split.
    intros l' Hl'. rewrite bool_decide_eq_false_2 by exact Hl'. reflexivity.
Qed.

(** X15. The nonlinear branch with an explicit Jacobian, for a residual
    with one argument and the right-hand side 0.  A number passed as [J]
    or as [Jp], the number 0 included, is TypeError; a form that does not
    have exactly two arguments is ValueError; [J] is tested before [Jp].
    With valid forms nothing is created: [J] is stored by reference and
    [Jp] is the given form, or the very same object as [J] when it is
    omitted. *)
Theorem EquationBC_nonlinear_explicit_forms (st : FormStore) (l : loc)
    (u : Function) (sd : SubDomain) (j : PyVal) (Jp : option PyVal)
    (meth : string) (V : FunctionSpace) (b : BCBase) :
  form_arguments (form_at st l) = [V] ->
  BCBase_init V sd "topological" = Ok b ->
  let init :=
    EquationBC_init (mkEquation (PObj l) (PNum 0)) u sd (Some j) Jp meth st in
  (forall z, j = PNum z -> init = (Raise TypeError, st))
  /\ (forall lj, j = PObj lj ->
        length (form_arguments (form_at st lj)) <> 2 ->
        init = (Raise ValueError, st))
  /\ (forall lj, j = PObj lj ->
        length (form_arguments (form_at st lj)) = 2 ->
        (forall z, Jp = Some (PNum z) -> init = (Raise TypeError, st))
        /\ (forall lp, Jp = Some (PObj lp) ->
              length (form_arguments (form_at st lp)) <> 2 ->
              init = (Raise ValueError, st))
        /\ (forall lp, Jp = Some (PObj lp) ->
              length (form_arguments (form_at st lp)) = 2 ->
              init = (Ok (mkEquationBC b u None None false (PObj lj) (PObj lp)
                            (PObj l) false), st))
        /\ (Jp = None ->
              init = (Ok (mkEquationBC b u None None true (PObj lj) (PObj lj)
                            (PObj l) false), st))).
Proof.
  intros Hargs Hb init.
  assert (Hinit : init =
    bind (check_bilinear st (Some j)) (fun _ =>
    bind (py_or (Some j) (with_form st (PObj l)
                            (fun f => new_form (derivative f u)))) (fun J' =>
    bind (check_bilinear st Jp) (fun _ =>
    bind (py_or Jp (ret J')) (fun Jp' =>
    ret (mkEquationBC b u None None (bool_decide (Jp = None))
           J' Jp' (PObj l) false))))) st).
  { unfold init, EquationBC_init. unfold bind at 1. unfold get at 1.
    unfold bind at 1. unfold lift_result at 1. cbn [lhs rhs arguments].
    rewrite Hargs. unfold bind at 1. unfold lift_result at 1. rewrite Hb.
    change (isinstance_form st (PNum 0) [UflForm]) with false.
    rewrite andb_false_r. rewrite (isinstance_form_obj st l). reflexivity. }
  assert (Hchk : forall lx,
    check_bilinear st (Some (PObj lx)) st =
    (if bool_decide (length (form_arguments (form_at st lx)) <> 2)
     then (Raise ValueError, st) else (Ok tt, st))).
  { intros lx. unfold check_bilinear. rewrite isinstance_form_obj. cbn [negb].
    unfold bind, lift_result. cbn [arguments].
    destruct (bool_decide (length (form_arguments (form_at st lx)) <> 2));
      reflexivity. }
  split; [|split].
  - intros z ->. rewrite Hinit. reflexivity.
  - intros lj -> Hn. rewrite Hinit. unfold bind at 1. rewrite Hchk.
    rewrite bool_decide_eq_true_2 by exact Hn. reflexivity.
  - intros lj -> Hn.
    assert (Hinit' : init =
      bind (check_bilinear st Jp) (fun _ =>
      bind (py_or Jp (ret (PObj lj))) (fun Jp' =>
      ret (mkEquationBC b u None None (bool_decide (Jp = None))
             (PObj lj) Jp' (PObj l) false))) st).
    { rewrite Hinit. unfold bind at 1. rewrite Hchk.
      rewrite bool_decide_eq_false_2 by (intros Hne; apply Hne, Hn).
      reflexivity. }
    split; [|split; [|split]].
    + intros z ->. rewrite Hinit'. reflexivity.
    + intros lp -> Hp. rewrite Hinit'. unfold bind at 1. rewrite Hchk.
      rewrite bool_decide_eq_true_2 by exact Hp. reflexivity.
    + intros lp -> Hp. rewrite Hinit'. unfold bind at 1. rewrite Hchk.
      rewrite bool_decide_eq_false_2 by (intros Hne; apply Hne, Hp).
      reflexivity.
    + intros ->. rewrite Hinit'. reflexivity.
Qed.

(** The forms a constructed EquationBC holds. *)
Lemma EquationBC_init_forms (eq : Equation) (u : Function) (sd : SubDomain)
    (J Jp : option PyVal) (meth : string) (st st' : FormStore) (ebc : EquationBC) :
  EquationBC_init eq u sd J Jp meth st = (Ok ebc, st') ->
  (exists lF, ebc_F ebc = PObj lF)
  /\ (exists lJ, ebc_J ebc = PObj lJ)
  /\ (Jp = None -> ebc_Jp ebc = ebc_J ebc)
  /\ (ebc_is_linear ebc = false -> exists lP, ebc_Jp ebc = PObj lP).
Proof.
  unfold EquationBC_init. unfold bind at 1. unfold get at 1.
  unfold bind at 1. unfold lift_result at 1.
  destruct (arguments st (lhs eq)) as [[|V rest]|e]; try discriminate.
  unfold bind at 1. unfold lift_result at 1.
  destruct (BCBase_init V sd "topological") as [b|e] eqn:Hb; [|discriminate].
  destruct (isinstance_form st (lhs eq) [UflForm]
            && isinstance_form st (rhs eq) [UflForm]) eqn:Hlin.
  - apply andb_true_iff in Hlin as [Hl Hr].
    apply isinstance_form_true in Hl as [ll Hl].
    apply isinstance_form_true in Hr as [lr Hr]. rewrite Hl, Hr.
    unfold bind at 1.
    destruct (py_or Jp (ret (PObj ll)) st) as [[Jp'|e] st1] eqn:Hor; [|discriminate].
    unfold bind at 1. unfold is_zero at 1.
    rewrite (bool_decide_eq_false_2 (PObj lr = PNum 0)) by discriminate.
    rewrite isinstance_form_obj. cbn [negb].
    unfold bind at 1. unfold lift_result at 1. cbn [arguments].
    destruct (bool_decide (length (form_arguments (form_at st lr)) <> 1));
      [discriminate|].
    cbn [with_form]. unfold new_form, ret.
    intros H. inversion H; subst. simpl.
    split; [eauto|]. split; [eauto|]. split; [|discriminate].
    intros ->. simpl in Hor. inversion Hor. reflexivity.
  - destruct (negb (is_zero (rhs eq))); [discriminate|].
    destruct (negb (isinstance_form st (lhs eq) [UflForm; SlateTensor])) eqn:Hl;
      [discriminate|].
    apply negb_false_iff in Hl. apply isinstance_form_true in Hl as [ll Hl].
    rewrite Hl.
    destruct (bool_decide (length (V :: rest) <> 1)); [discriminate|].
    unfold bind at 1.
    destruct (check_bilinear st J st) as [[[]|e] st1] eqn:HcJ; [|discriminate].
    unfold bind at 1.
    destruct (py_or J _ st1) as [[J'|e] st2] eqn:HJ; [|discriminate].
    unfold bind at 1.
    destruct (check_bilinear st Jp st2) as [[[]|e] st3] eqn:HcP; [|discriminate].
    unfold bind at 1.
    destruct (py_or Jp (ret J') st3) as [[Jp'|e] st4] eqn:HP; [|discriminate].
    intros H. inversion H; subst. simpl.
    assert (HJ' : exists lJ, J' = PObj lJ).
    { destruct J as [[lj|z]|]; simpl in HJ, HcJ.
      - inversion HJ. eauto.
      - discriminate.
      - inversion HJ. eauto. }
    split; [eauto|]. split; [exact HJ'|]. split.
    + intros ->. simpl in HP. inversion HP. reflexivity.
    + intros _. destruct Jp as [[lp|z]|]; simpl in HP, HcP.
      * inversion HP. eauto.
      * discriminate.
      * inversion HP; subst. exact HJ'.
Qed.

Variable integral : Type.
Variable form_integrals : FormObj body -> list integral.

(** X16. An EquationBC that was constructed has no integrals of its own
    (NotImplementedError), but it can be split on each of F, J and Jp; a
    split has the very base of its parent and the parent's unknown.  The
    splits on F and J hold a form object and return its integrals, and
    when no [Jp] was given the splits on J and Jp return the same
    integrals. *)
Theorem splits_of_a_constructed_EquationBC (eq : Equation) (u : Function)
    (sd : SubDomain) (J Jp : option PyVal) (meth : string) (st st' : FormStore)
    (ebc : EquationBC) :
  EquationBC_init eq u sd J Jp meth st = (Ok ebc, st') ->
  EquationBC_integrals integral ebc = Raise NotImplementedError
  /\ (forall form_str, form_str ∈ ["F"; "J"; "Jp"] ->
        exists sp,
          EquationBCSplit_init (IsEquationBC ebc) form_str = Ok sp
          /\ split_base sp = ebc_base ebc
          /\ split_u sp = u
          /\ (form_str ∈ ["F"; "J"] ->
              exists lf,
                split_f sp = PObj lf
                /\ EquationBCSplit_integrals integral form_integrals st' sp
                   = Ok (form_integrals (form_at st' lf))))
  /\ (Jp = None ->
      forall sJ sP,
        EquationBCSplit_init (IsEquationBC ebc) "J" = Ok sJ ->
        EquationBCSplit_init (IsEquationBC ebc) "Jp" = Ok sP ->
        EquationBCSplit_integrals integral form_integrals st' sJ
        = EquationBCSplit_integrals integral form_integrals st' sP).
Proof.
  intros Hinit.
  pose proof (EquationBC_init_forms _ _ _ _ _ _ _ _ _ Hinit)
    as ([lF HF] & [lJ HJ] & HJp & _).
  apply EquationBC_init_inv in Hinit as (V & rest & _ & Hb & Hu & _).
  pose proof (BCBase_init_inv _ _ _ _ Hb) as (_ & _ & Hfs & Hsd & _).
  assert (Hb' : BCBase_init (_function_space (ebc_base ebc))
                  (sub_domain (ebc_base ebc)) "topological" = Ok (ebc_base ebc))
    by (rewrite Hfs, Hsd; exact Hb).
  split; [reflexivity|]. split.
  - intros form_str Hsel. unfold EquationBCSplit_init. rewrite Hb'.
    cbn [result_bind].
    apply elem_of_cons in Hsel as [->|Hsel];
      [|apply elem_of_cons in Hsel as [->|Hsel];
        [|apply list_elem_of_singleton in Hsel as ->]].
    + eexists. split; [reflexivity|]. split; [reflexivity|]. split; [exact Hu|].
      intros _. exists lF. unfold EquationBCSplit_integrals. simpl.
      rewrite HF. split; reflexivity.
    + eexists. split; [reflexivity|]. split; [reflexivity|]. split; [exact Hu|].
      intros _. exists lJ. unfold EquationBCSplit_integrals. simpl.
      rewrite HJ. split; reflexivity.
    + eexists. split; [reflexivity|]. split; [reflexivity|]. split; [exact Hu|].
      intros Hin. exfalso.
      apply elem_of_cons in Hin as [Hin|Hin]; [discriminate|].
      apply list_elem_of_singleton in Hin. discriminate.
  - intros HN sJ sP. unfold EquationBCSplit_init. rewrite Hb'.
    cbn [result_bind]. simpl. intros H1 H2.
    injection H1 as <-. injection H2 as <-.
    unfold EquationBCSplit_integrals. simpl. rewrite (HJp HN). reflexivity.
Qed.

End MoreFormProperties.

(** ** Runs of the remaining methods *)

Section MoreRuns.
#[local] Existing Instance Demo.fields.
#[local] Existing Instance Demo.forms.

Lemma index_path_extends_parent_witness :
  _indices (Demo.base_on Demo.W1 [1])
  = _indices (Demo.base_on Demo.W []) ++ option_list (component Demo.W1)
    ++ option_list (index Demo.W1).
Proof.
  exact (proj1 (proj2 (index_path_extends_parent Demo.W1 (SDInt 1) "topological"
                         (Demo.base_on Demo.W1 [1]) eq_refl)
                  Demo.W (SDInt 1) "topological" (Demo.base_on Demo.W [])
                  eq_refl eq_refl)).
Defined.

Lemma extruded_component_space_rejected_witness :
  DirichletBC_init
    (mkFunctionSpace "Q" (OtherElement "Lagrange") 2 true None (Some 0) 4 None)
    (VUfl (PyInt 0)) (SDInt 1) "topological" Demo.world1
  = (Raise NotImplementedError, Demo.world1).
Proof.
  apply (proj1 (proj2 (extruded_component_space_rejected
                         (mkFunctionSpace "Q" (OtherElement "Lagrange") 2 true None
                            (Some 0) 4 None)
                         eq_refl eq_refl
                         ltac:(discriminate)))).
Defined.

Lemma DirichletBC_init_stores_resolution_witness :
  DirichletBC_init Demo.P1 (VUfl (UflTerm Demo.Coordinate)) (SDInt 1) "topological"
    Demo.world1
  = (Ok (mkDirichletBC (Demo.base_on Demo.P1 []) (VUfl (UflTerm Demo.Coordinate))
           (VFunction (mkFunction Demo.P1 4 [])) (VFunction (mkFunction Demo.P1 4 []))
           false None),
     mkWorld (dats Demo.world1 ++ [DLeaf [0; 1; 2; 3]%Z])
       (expressions Demo.world1) (matrices Demo.world1)).
Proof.
  exact (proj1 (proj2 (proj2 (proj2
           (DirichletBC_init_stores_resolution Demo.P1 (SDInt 1) "topological"
              Demo.world1 (Demo.base_on Demo.P1 []) eq_refl))))
           Demo.Coordinate eq_refl).
Defined.

Lemma rejected_value_changes_nothing_witness :
  DirichletBC_set_value (VFunction Demo.r_W)
    (mkState (Demo.bc_literal Demo.P1 [] 5) Demo.world1)
  = (Raise RuntimeError, mkState (Demo.bc_literal Demo.P1 [] 5) Demo.world1).
Proof.
  apply (proj1 (rejected_value_changes_nothing
                  (mkState (Demo.bc_literal Demo.P1 [] 5) Demo.world1))).
  discriminate.
Defined.

Lemma reachable_value_invariant_witness :
  exists g s1,
    function_arg (mkState Demo.bc_expression Demo.world_updated) = (Ok g, s1)
    /\ g = _original_arg (self s1).
Proof.
  destruct (reachable_value_invariant Demo.P1 (SDInt 1)
              (mkState Demo.bc_expression Demo.world_updated))
    as (_ & _ & g & s1 & H & Hg & _).
  - apply (reachable_world Demo.P1 (SDInt 1)
             (mkState Demo.bc_expression
                (mkWorld (FC := Demo.fields) [DLeaf [7; 7; 7; 7]%Z]
                   (fun _ => mkExpression 0 7%Z) [[]]))
             Demo.world_updated).
    apply (reachable_init Demo.P1 (SDInt 1) (VExpression 0) "topological"
             (Demo.world0 0 7)).
    reflexivity.
  - exists g, s1. split; [exact H | exact Hg].
Defined.

Lemma reachable_identity_invariant_witness :
  fst (BCBase_nodes (Demo.base_on Demo.H3 []))
  = every_second (boundary_nodes Demo.H3 (SDInt 1) "topological").
Proof.
  apply (reachable_identity_invariant Demo.H3 (SDInt 1)
           (mkState (Demo.bc_literal Demo.H3 [] 5) (Demo.world0 0 7))).
  apply (reachable_init Demo.H3 (SDInt 1) (VUfl (PyInt 5)) "topological"
           (Demo.world0 0 7)).
  reflexivity.
Defined.

Lemma zero_clears_the_node_set_witness :
  exists s',
    BCBase_zero (TFunction Demo.r_W)
      (mkState (Demo.bc_literal Demo.W1 [1] 5) Demo.world1) = (Ok tt, s')
    /\ entry (dats (world s')) 2 [1] 0 = Some 0%Z
    /\ entry (dats (world s')) 2 [1] 1 = Some 22%Z
    /\ entry (dats (world s')) 2 [0] 0 = Some 11%Z.
Proof.
  set (s := mkState (Demo.bc_literal Demo.W1 [1] 5) Demo.world1).
  destruct (proj1 (zero_clears_the_node_set s Demo.r_W [1] (conj I I)
                     (ex_intro _ _ (ex_intro _ _ (conj eq_refl
                        (conj eq_refl eq_refl))))))
    as (s' & Hz & Hsel & Hoth & _).
  - reflexivity.
  - exists (DNode [DLeaf [11; 12; 13; 14]%Z; DLeaf [21; 22; 23; 24]%Z]),
      (DLeaf [21; 22; 23; 24]%Z).
    split; [reflexivity|]. split; [reflexivity|].
    intros q vs Hq n Hn. destruct q as [|i q]; [|discriminate].
    injection Hq as <-.
    change (n ∈ [0]) in Hn. apply list_elem_of_singleton in Hn. subst n.
    split; [simpl; lia | eexists; reflexivity].
  - exists s'. split; [exact Hz|]. split; [|split].
    + apply (Hsel [] 0); [apply list_elem_of_here | eexists; reflexivity].
    + rewrite Hoth; [reflexivity|]. intros (_ & Hn & _).
      change (1 ∈ [0]) in Hn. apply list_elem_of_singleton in Hn. discriminate.
    + rewrite Hoth; [reflexivity|]. intros (_ & _ & q & Hq). discriminate.
Defined.

(** A field on an unrelated space whose array has room for the nodes of
    the boundary condition: the subset of the boundary condition is a
    subset of another node set, so that [zero] raises RuntimeError, [set]
    lets the MapValueError through, and the field is as it was. *)
Lemma zero_and_set_raise_on_an_unrelated_space :
  fst (BCBase_zero (TFunction (mkFunction Demo.P2 0 []))
         (mkState (Demo.bc_literal Demo.P1 [] 5)
            (mkWorld [DLeaf [1; 2; 3; 4; 5]%Z] (fun _ => mkExpression 0 7%Z) [[]])))
  = Raise RuntimeError
  /\ dats (world (snd (BCBase_zero (TFunction (mkFunction Demo.P2 0 []))
         (mkState (Demo.bc_literal Demo.P1 [] 5)
            (mkWorld [DLeaf [1; 2; 3; 4; 5]%Z] (fun _ => mkExpression 0 7%Z) [[]])))))
     = [DLeaf [1; 2; 3; 4; 5]%Z]
  /\ fst (DirichletBC_set (mkFunction Demo.P2 0 []) (VUfl (PyInt 9))
            (mkState (Demo.bc_literal Demo.P1 [] 5)
               (mkWorld [DLeaf [1; 2; 3; 4; 5]%Z] (fun _ => mkExpression 0 7%Z) [[]])))
     = Raise MapValueError
  /\ dats (world (snd (DirichletBC_set (mkFunction Demo.P2 0 []) (VUfl (PyInt 9))
            (mkState (Demo.bc_literal Demo.P1 [] 5)
               (mkWorld [DLeaf [1; 2; 3; 4; 5]%Z] (fun _ => mkExpression 0 7%Z) [[]])))))
     = [DLeaf [1; 2; 3; 4; 5]%Z].
Proof. repeat split. Qed.

Lemma zero_error_behaviour_witness :
  exists s',
    BCBase_zero (TFunction Demo.r_P1)
      (mkState (Demo.bc_literal Demo.P1 [] 5)
         (mkWorld [DLeaf []] (fun _ => mkExpression 0 7%Z) [[]]))
    = (Raise RuntimeError, s')
    /\ world s' = mkWorld [DLeaf []] (fun _ => mkExpression 0 7%Z) [[]].
Proof.
  apply (proj2 (proj2 (zero_error_behaviour
                         (mkState (Demo.bc_literal Demo.P1 [] 5)
                            (mkWorld (FC := Demo.fields) [DLeaf []]
                               (fun _ => mkExpression 0 7%Z) [[]]))))
           Demo.r_P1 Demo.r_P1 (DLeaf []) (DLeaf []) [] [] 0).
  - split; exact I.
  - reflexivity.
  - reflexivity.
  - reflexivity.
  - reflexivity.
  - apply list_elem_of_here.
  - simpl. lia.
Defined.

Lemma set_assigns_the_given_value_witness :
  exists s',
    DirichletBC_set Demo.r_W (VFunction Demo.u_W)
      (mkState (Demo.bc_literal Demo.W1 [1] 5) Demo.world1) = (Ok tt, s')
    /\ entry (dats (world s')) 2 [1] 0 = Some 6%Z
    /\ entry (dats (world s')) 2 [1] 1 = Some 22%Z
    /\ _function_arg (self s') = VUfl (PyInt 5).
Proof.
  set (s := mkState (Demo.bc_literal Demo.W1 [1] 5) Demo.world1).
  destruct (proj1 (set_assigns_the_given_value s Demo.r_W
                     (VFunction Demo.u_W) (VFunction (view_at Demo.u_W [1])) [1]
                     (conj I I)
                     (ex_intro _ _ (ex_intro _ _ (conj eq_refl
                        (conj eq_refl eq_refl))))
                     (or_intror
                        (ex_intro _ Demo.u_W (ex_intro _ [1]
                           (conj eq_refl
                              (conj (ex_intro _ _ (ex_intro _ _ (conj eq_refl
                                       (conj eq_refl eq_refl))))
                                 eq_refl)))))))
    as (s' & Hset & Hsel & Hoth & _ & Hv & _).
  - reflexivity.
  - exists (DNode [DLeaf [11; 12; 13; 14]%Z; DLeaf [21; 22; 23; 24]%Z]),
      (DLeaf [21; 22; 23; 24]%Z).
    split; [reflexivity|]. split; [reflexivity|].
    intros q vs Hq n Hn. destruct q as [|i q]; [|discriminate].
    injection Hq as <-.
    change (n ∈ [0]) in Hn. apply list_elem_of_singleton in Hn. subst n.
    split; [simpl; lia | eexists; reflexivity].
  - exists s'. split; [exact Hset|]. split; [|split; [|exact Hv]].
    + destruct (Hsel [] 0) as (x & Hx & He).
      { apply list_elem_of_here. }
      { eexists; reflexivity. }
      vm_compute in Hx. injection Hx as <-. exact He.
    + rewrite Hoth; [reflexivity|]. intros (_ & Hn & _).
      change (1 ∈ [0]) in Hn. apply list_elem_of_singleton in Hn. discriminate.
Defined.

Lemma apply_without_effect_on_fields_witness :
  DirichletBC_apply (TFunction Demo.r_W) None
    (mkState (Demo.bc_literal Demo.P1 [] 5) Demo.world1)
  = (Raise RuntimeError, mkState (Demo.bc_literal Demo.P1 [] 5) Demo.world1).
Proof.
  apply (proj2 (proj2 (apply_without_effect_on_fields
                         (mkState (Demo.bc_literal Demo.P1 [] 5) Demo.world1)))).
  intros H. apply list_elem_of_singleton in H. discriminate.
Defined.

Lemma homogenized_apply_is_zero_witness :
  exists s2,
    bind DirichletBC_homogenize
      (fun _ => DirichletBC_apply (TFunction Demo.r_P1) None)
      (mkState (Demo.bc_literal Demo.P1 [] 5) Demo.world1) = (Ok tt, s2)
    /\ world s2
       = world (snd (BCBase_zero (TFunction Demo.r_P1)
                       (mkState (Demo.bc_literal Demo.P1 [] 5) Demo.world1))).
Proof.
  apply (proj1 (homogenized_apply_is_zero
                  (mkState (Demo.bc_literal Demo.P1 [] 5) Demo.world1)
                  Demo.r_P1 Demo.r_P1
                  (conj I I) eq_refl eq_refl)).
  reflexivity.
Defined.

Lemma reconstruct_behaviour_witness :
  DirichletBC_reconstruct (fun _ _ => true) None None (Some (SDInt 1)) None
    (mkState Demo.bc_expression Demo.world_updated)
  = (Ok SameObject, mkState Demo.bc_expression Demo.world_updated).
Proof.
  apply (proj1 (reconstruct_behaviour (fun _ _ => true)
                  (mkState Demo.bc_expression Demo.world_updated)));
    reflexivity.
Defined.

Lemma homogenize_nested_witness :
  exists res,
    homogenize
      (AIter [ABC (Demo.bc_literal Demo.P1 [] 5);
              AIter [ABC Demo.bc_expression; AIter []]])
      Demo.world_updated
    = (Ok res, Demo.world_updated)
    /\ homogeneous_copy
         (AIter [ABC (Demo.bc_literal Demo.P1 [] 5);
                 AIter [ABC Demo.bc_expression; AIter []]])
         res.
Proof.
  apply homogenize_nested.
  apply all_iter. apply Forall_cons. split.
  - apply all_bc. split; reflexivity.
  - apply Forall_cons. split; [|apply Forall_nil_2].
    apply all_iter. apply Forall_cons. split.
    + apply all_bc. split; reflexivity.
    + apply Forall_cons. split; [|apply Forall_nil_2].
      apply all_iter. apply Forall_nil_2.
Defined.

Lemma EquationBC_linear_branch_witness :
  exists ebc st',
    EquationBC_init (mkEquation (PObj 0) (PObj 0)) Demo.u_P1 (SDInt 1)
      (Some (PObj 5)) None "topological" Demo.forms0 = (Ok ebc, st')
    /\ ebc_J ebc = PObj 0
    /\ ebc_Jp ebc = PObj 0
    /\ ebc_F ebc = PObj 1
    /\ ebc_is_linear ebc = true.
Proof.
  destruct (proj2 (EquationBC_linear_branch Demo.forms0 0 0 Demo.u_P1 (SDInt 1)
                     (Some (PObj 5)) None "topological" Demo.P1 []
                     (Demo.base_on Demo.P1 []) eq_refl eq_refl eq_refl eq_refl)
              eq_refl)
    as (ebc & st' & Hi & _ & _ & HJ & HJp & HF & _ & _ & _ & Hlin & _).
  exists ebc, st'. split; [exact Hi|]. split; [exact HJ|].
  split; [exact HJp|]. split; [exact HF | exact Hlin].
Defined.

Lemma EquationBC_nonlinear_explicit_forms_witness :
  EquationBC_init (mkEquation (PObj 0) (PNum 0)) Demo.u_P1 (SDInt 1)
    (Some (PObj 0)) None "topological" Demo.forms0
  = (Raise ValueError, Demo.forms0).
Proof.
  apply (proj1 (proj2 (EquationBC_nonlinear_explicit_forms Demo.forms0 0 Demo.u_P1
                         (SDInt 1) (PObj 0) None "topological" Demo.P1
                         (Demo.base_on Demo.P1 []) eq_refl eq_refl)) 0 eq_refl).
  simpl. lia.
Defined.

Lemma splits_of_a_constructed_EquationBC_witness :
  exists sp,
    EquationBCSplit_init (IsEquationBC Demo.ebc0) "J" = Ok sp
    /\ split_base sp = Demo.base_on Demo.P1 []
    /\ split_u sp = Demo.u_P1.
Proof.
  destruct (proj1 (proj2 (splits_of_a_constructed_EquationBC body
                            (fun f => [form_body f])
                            (mkEquation (PObj 0) (PNum 0)) Demo.u_P1 (SDInt 1)
                            None None "topological" Demo.forms0
                            (snd (EquationBC_init (mkEquation (PObj 0) (PNum 0))
                                    Demo.u_P1 (SDInt 1) None None "topological"
                                    Demo.forms0))
                            Demo.ebc0 eq_refl))
              "J")
    as (sp & H1 & H2 & H3 & _).
  - apply list_elem_of_further, list_elem_of_here.
  - exists sp. split; [exact H1|]. split; [exact H2 | exact H3].
Defined.

End MoreRuns.
